(** * NCPatcher: the patch maker ([source/patch/patchmaker.cpp])

    A shallow embedding of the patch maker of NCPatcher: the ARM and THUMB
    opcode encoders, the patch directive parser, the autogen-size planner of
    the linker script, the overlap check of the post-link resolver, the
    patch applier and the overlay load/save routines, followed by the
    properties established about them.

    Conventions.  A [u32] is a [Z] in [0, 2^32); every arithmetic operator
    of the source on [u32] is written with its wrap-around ([wrap32]).  A
    [u16] is a [Z] in [0, 2^16).  A byte is a [Z] in [0, 256) and buffers
    ([std::vector<u8>]) are [list Z].  The host and the target are
    little-endian (the source assumes so throughout). *)

From Stdlib Require Import ZArith List Lia Bool Ascii String.
From stdpp Require Import base option list strings pretty gmap fin_maps
  sorting.

Local Open Scope Z_scope.

(** ** Fixed-width integers *)

Module Word.

Definition wrap32 (z : Z) : Z := z mod 2 ^ 32.
Definition wrap16 (z : Z) : Z := z mod 2 ^ 16.
Definition wrap8 (z : Z) : Z := z mod 2 ^ 8.

Definition add32 (a b : Z) : Z := wrap32 (a + b).
Definition sub32 (a b : Z) : Z := wrap32 (a - b).
Definition shl32 (a n : Z) : Z := wrap32 (Z.shiftl a n).

Definition is_u32 (z : Z) : Prop := 0 <= z < 2 ^ 32.

(** [Util::write<T>] and [Util::read<T>] on a little-endian host. *)
Fixpoint le_bytes (n : nat) (w : Z) : list Z :=
  match n with
  | O => []
  | S n' => wrap8 w :: le_bytes n' (Z.shiftr w 8)
  end.

Fixpoint le_value (bs : list Z) : Z :=
  match bs with
  | [] => 0
  | b :: bs' => Z.lor (wrap8 b) (Z.shiftl (le_value bs') 8)
  end.

Definition bytes_u32 (w : Z) : list Z := le_bytes 4 w.
Definition bytes_u16 (w : Z) : list Z := le_bytes 2 w.

End Word.
Export Word.

(** ** Opcode constants and encoders *)

Definition SizeOfHookBridge : nat := 20.
Definition SizeOfArm2ThumbJumpBridge : nat := 8.

Definition armOpcodeB : Z := 0xEA000000.
Definition armOpcodeBL : Z := 0xEB000000.
Definition armOpCodeBLX : Z := 0xFA000000.
Definition armHookPush : Z := 0xE92D500F.
Definition armHookPop : Z := 0xE8BD500F.
Definition thumbOpCodeBL0 : Z := 0xF000.
Definition thumbOpCodeBL1 : Z := 0xF800.
Definition thumbOpCodeBLX1 : Z := 0xE800.
Definition thumbOpCodePushLR : Z := 0xB500.
Definition thumbOpCodePopPC : Z := 0xBD00.

(** [opCode | ((((toAddr - fromAddr) >> 2) - 2) & 0xFFFFFF)] *)
Definition makeJumpOpCode (opCode fromAddr toAddr : Z) : Z :=
  Z.lor opCode
        (Z.land (sub32 (Z.shiftr (sub32 toAddr fromAddr) 2) 2) 0xFFFFFF).

(** The two halfwords of a THUMB [BL]/[BLX] pair, packed in a [u32] with
    the first halfword in the low half.  [opcode0] and [opcode1] are
    [u16] locals; [opcode1 << 16] is computed on [int] and converted to
    the [u32] return type. *)
Definition makeThumbJumpOpCode (opCode fromAddr toAddr : Z) : Z :=
  let offset := sub32 (Z.shiftr (sub32 toAddr fromAddr) 1) 2 in
  let opcode0 :=
    wrap16 (Z.lor thumbOpCodeBL0 (Z.shiftr (Z.land offset 0x3FF800) 11)) in
  let opcode1 := wrap16 (Z.lor opCode (Z.land offset 0x7FF)) in
  wrap32 (Z.lor (Z.shiftl opcode1 16) opcode0).

Definition fixupOpCode (opCode ogAddr newAddr : Z) : Z :=
  if Z.land (Z.shiftr opCode 25) 7 =? 5 then
    let opCodeBase := Z.land opCode 0xFF000000 in
    let toAddr := add32 (shl32 (add32 (Z.land opCode 0xFFFFFF) 2) 2) ogAddr in
    makeJumpOpCode opCodeBase newAddr toAddr
  else opCode.

(** The reading of a branch opcode that the specification gives: the low
    24 bits taken as a signed [imm24], and the target
    [((imm24 + 2) << 2) + F].  (Follows the specification's words; it is
    the decoder against which [makeJumpOpCode] is compared.) *)
Definition signed_imm24 (opCode : Z) : Z :=
  let imm := Z.land opCode 0xFFFFFF in
  if Z.testbit imm 23 then imm - 2 ^ 24 else imm.

Definition decodeBranchTarget (opCode fromAddr : Z) : Z :=
  Z.shiftl (signed_imm24 opCode + 2) 2 + fromAddr.

(** ** Data model *)

(** [int]: the conversion of a value to a 32-bit signed integer. *)
Definition to_int (z : Z) : Z := (z + 2 ^ 31) mod 2 ^ 32 - 2 ^ 31.

Module PatchType.
Definition Jump : N := 0.
Definition Call : N := 1.
Definition Hook : N := 2.
Definition Over : N := 3.
Definition SetJump : N := 4.
Definition SetCall : N := 5.
Definition SetHook : N := 6.
Definition RtRepl : N := 7.
Definition TJump : N := 8.
Definition TCall : N := 9.
Definition THook : N := 10.
Definition TSetJump : N := 11.
Definition TSetCall : N := 12.
Definition TSetHook : N := 13.
End PatchType.

Definition s_patchTypeNames : list string :=
  [ "jump"; "call"; "hook"; "over";
    "setjump"; "setcall"; "sethook";
    "rtrepl";
    "tjump"; "tcall"; "thook";
    "tsetjump"; "tsetcall"; "tsethook" ]%string.

Module BuildTarget.
Inductive Mode := Append | Replace | Create.
Record Region := {
  destination : Z;
  mode : Mode;
  address : Z;
  length : Z
}.
End BuildTarget.

Record SourceFileJob := {
  srcFilePath : string;
  objFilePath : string;
  region : BuildTarget.Region
}.

Record GenericPatchInfo := {
  srcAddress : Z;      (* u32: the address of the symbol, fetched after linkage *)
  srcAddressOv : Z;    (* int: -1 arm, >= 0 overlay *)
  destAddress : Z;     (* u32: the address to be patched *)
  destAddressOv : Z;   (* int *)
  patchType : N;       (* std::size_t *)
  sectionIdx : Z;      (* int: -1 label, >= 0 section index *)
  sectionSize : Z;     (* int *)
  isNcpSet : bool;
  srcThumb : bool;
  destThumb : bool;
  symbol : string;
  job : SourceFileJob
}.

Record RtReplPatchInfo := {
  rtrepl_symbol : string;
  rtrepl_job : SourceFileJob
}.

(** The views of an ELF file that the patch maker consumes: the section
    headers with their names and contents, and the symbols of every
    [SHT_SYMTAB]/[SHT_DYNSYM] section in iteration order. *)
Record Elf32_Shdr := {
  sh_name : string;
  sh_addr : Z;
  sh_size : Z;
  sh_addralign : Z;
  sh_data : list Z
}.

Record Elf32_Sym := {
  st_name : string;
  st_value : Z;
  st_shndx : Z;
  st_type : Z
}.

Record Elf32 := {
  elf_sections : list Elf32_Shdr;
  elf_symbols : list Elf32_Sym
}.

Definition STT_FUNC : Z := 2.

(** ** String helpers ([std::string_view]) *)

Module Str.
Local Open Scope nat_scope.

(** [s.substr(pos)] for [pos <= s.length()]. *)
Definition substr_from (pos : nat) (s : string) : string :=
  String.substring pos (String.length s - pos) s.

(** [s.substr(pos, n)]: at most [n] characters from [pos]. *)
Definition substr (pos n : nat) (s : string) : string :=
  String.substring pos n s.

(** [s.find(c, pos)]; [None] stands for [npos]. *)
Fixpoint find_at (c : ascii) (s : string) (i : nat) : option nat :=
  match s with
  | EmptyString => None
  | String a s' => if Ascii.eqb a c then Some i else find_at c s' (S i)
  end.

Definition find (c : ascii) (s : string) (pos : nat) : option nat :=
  find_at c (substr_from pos s) pos.

Definition starts_with (p s : string) : bool := String.prefix p s.

Definition underscore : ascii := "_"%char.
End Str.

(** Modelled from the spec: [Util::indexOf] (util.hpp is not part of the
    sources at hand).  The kind is matched against the ordered table of
    names; [None] stands for the [-1] the caller tests for. *)
Fixpoint Util_indexOf_from (name : string) (names : list string) (i : N)
  : option N :=
  match names with
  | [] => None
  | n :: names' =>
      if String.eqb name n then Some i
      else Util_indexOf_from name names' (N.succ i)
  end.

Definition Util_indexOf (name : string) (names : list string) : option N :=
  Util_indexOf_from name names 0%N.

(** Modelled from the spec: [Util::addrToInt] on a hexadecimal address
    ([<hexaddr>]); [None] stands for the exception thrown on a string that
    is not a number.  The parser below is parametric in this function;
    this instance serves the concrete scenarios. *)
Definition hex_digit (c : ascii) : option Z :=
  let n := Z.of_nat (nat_of_ascii c) in
  if (48 <=? n) && (n <=? 57) then Some (n - 48)
  else if (65 <=? n) && (n <=? 70) then Some (n - 55)
  else if (97 <=? n) && (n <=? 102) then Some (n - 87)
  else None.

Fixpoint hex_value (s : string) (acc : Z) : option Z :=
  match s with
  | EmptyString => Some acc
  | String c s' =>
      match hex_digit c with
      | Some d => hex_value s' (16 * acc + d)
      | None => None
      end
  end.

Definition addrToInt_hex (s : string) : option Z :=
  match s with
  | EmptyString => None
  | _ => hex_value s 0
  end.

(** ** Patch directive parser ([gatherInfoFromObjects]) *)

Inductive ParseWarning :=
| InvalidPatchType (patchTypeName : string)
| OverMustBeSection (patchTypeName : string)
| InvalidAddress (labelName : string)
| ExpectedOverlay (labelName : string)
| InvalidOverlay (labelName : string).

(** What one call of the [parseSymbol] closure does: nothing, a warning on
    the log, a new entry of [m_rtreplPatches], or a new patch record
    (appended to [patchInfoForThisObj] and to [m_patchInfo]). *)
Inductive ParseOutcome :=
| NotADirective
| Warned (w : ParseWarning)
| RtReplLabel
| RtReplSection (r : RtReplPatchInfo)
| Patch (p : GenericPatchInfo).

Section Parser.

Variable addrToInt : string -> option Z.

Definition parseSymbol (srcFileJob : SourceFileJob)
           (symbolName : string) (symbolAddr : Z)
           (sectionIdx sectionSize : Z) : ParseOutcome :=
  let labelName :=
    Str.substr_from (if sectionIdx =? -1 then 4%nat else 5%nat) symbolName in
  match Str.find Str.underscore labelName 0%nat with
  | None => NotADirective
  | Some patchTypeNameEnd =>
    let patchTypeName := Str.substr 0%nat patchTypeNameEnd labelName in
    match Util_indexOf patchTypeName s_patchTypeNames with
    | None => Warned (InvalidPatchType patchTypeName)
    | Some patchType =>
      if (patchType =? PatchType.Over)%N && (sectionIdx =? -1) then
        Warned (OverMustBeSection patchTypeName)
      else if (patchType =? PatchType.RtRepl)%N then
        if negb (sectionIdx =? -1) then
          RtReplSection {| rtrepl_symbol := symbolName;
                           rtrepl_job := srcFileJob |}
        else RtReplLabel
      else
        let '(patchType, forceThumb) :=
          if (PatchType.TJump <=? patchType)%N
             && (patchType <=? PatchType.THook)%N then
            ((patchType - (PatchType.TJump - PatchType.Jump))%N, true)
          else if (PatchType.TSetJump <=? patchType)%N
                  && (patchType <=? PatchType.TSetHook)%N then
            ((patchType - (PatchType.TSetJump - PatchType.SetJump))%N, true)
          else (patchType, false) in
        let '(patchType, isNcpSet) :=
          if (PatchType.SetJump <=? patchType)%N
             && (patchType <=? PatchType.SetHook)%N then
            ((patchType - (PatchType.SetJump - PatchType.Jump))%N, true)
          else (patchType, false) in
        let addressNameStart := S patchTypeNameEnd in
        let '(addressNameEnd, expectingOverlay) :=
          match Str.find Str.underscore labelName addressNameStart with
          | None => (String.length labelName, false)
          | Some e => (e, true)
          end in
        let addressName :=
          Str.substr addressNameStart (addressNameEnd - addressNameStart)%nat
                     labelName in
        match addrToInt addressName with
        | None => Warned (InvalidAddress labelName)
        | Some a =>
          let destAddress := wrap32 a in
          let destAddress :=
            if forceThumb then Z.lor destAddress 1 else destAddress in
          let finish (destAddressOv : Z) :=
            let srcAddressOv :=
              if (patchType =? PatchType.Over)%N then destAddressOv
              else BuildTarget.destination (region srcFileJob) in
            Patch {| srcAddress := 0;
                     srcAddressOv := srcAddressOv;
                     destAddress := Z.land destAddress 0xFFFFFFFE;
                     destAddressOv := destAddressOv;
                     patchType := patchType;
                     sectionIdx := sectionIdx;
                     sectionSize := sectionSize;
                     isNcpSet := isNcpSet;
                     srcThumb := negb (Z.land symbolAddr 1 =? 0);
                     destThumb := negb (Z.land destAddress 1 =? 0);
                     symbol := symbolName;
                     job := srcFileJob |} in
          if expectingOverlay then
            let overlayNameStart := S addressNameEnd in
            let overlayNameEnd := String.length labelName in
            let overlayName :=
              Str.substr overlayNameStart
                         (overlayNameEnd - overlayNameStart)%nat labelName in
            if negb (Str.starts_with "ov" overlayName) then
              Warned (ExpectedOverlay labelName)
            else
              match addrToInt (Str.substr_from 2%nat overlayName) with
              | None => Warned (InvalidOverlay labelName)
              | Some ov => finish (to_int ov)
              end
          else finish (-1)
        end
    end
  end.

End Parser.

(** ** Exceptions *)

Inductive ncp_exception :=
| file_error (path : string)
| no_source_files
| overlapping_patches
| inject_not_supported (injectType : string) (srcThumb destThumb : bool)
                       (symbol : string)
| unexpected_autogen_dest
| blx_not_supported_on_armv4 (symbol : string)
| codebin_out_of_range (address : Z)
| index_out_of_range      (* an access outside a vector or a section *)
| std_out_of_range.       (* [substr] past the end of a string *)

Inductive Result (A : Type) :=
| Ok (a : A)
| Throw (e : ncp_exception).
Arguments Ok {A} a.
Arguments Throw {A} e.

Global Instance Result_ret : MRet Result := @Ok.
Global Instance Result_bind : MBind Result := fun A B k r =>
  match r with
  | Ok a => k a
  | Throw e => Throw e
  end.

(** [for (x : xs) body], leaving at the first exception. *)
Fixpoint forEach {A S} (body : A -> S -> Result S) (xs : list A) (s : S)
  : Result S :=
  match xs with
  | [] => Ok s
  | x :: xs' => s' ← body x s; forEach body xs' s'
  end.

(** ** The per-object scan of [gatherInfoFromObjects] *)

Definition set_srcThumb (b : bool) (p : GenericPatchInfo) : GenericPatchInfo :=
  {| srcAddress := srcAddress p; srcAddressOv := srcAddressOv p;
     destAddress := destAddress p; destAddressOv := destAddressOv p;
     patchType := patchType p; sectionIdx := sectionIdx p;
     sectionSize := sectionSize p; isNcpSet := isNcpSet p;
     srcThumb := b; destThumb := destThumb p;
     symbol := symbol p; job := job p |}.

(** What [gatherInfoFromObjects] accumulates. *)
Record PatchGathering := {
  m_patchInfo : list GenericPatchInfo;
  m_rtreplPatches : list RtReplPatchInfo;
  m_destWithNcpSet : list Z;
  m_jobsWithNcpSet : list SourceFileJob;
  m_externSymbols : list string;
  m_warnings : list ParseWarning
}.

Definition no_patches : PatchGathering :=
  {| m_patchInfo := []; m_rtreplPatches := []; m_destWithNcpSet := [];
     m_jobsWithNcpSet := []; m_externSymbols := []; m_warnings := [] |}.

(** The state while one object is scanned: the records found in this
    object ([patchInfoForThisObj], whose entries are the entries that
    [m_patchInfo] receives) beside the other accumulators. *)
Record ObjectScan := {
  patchInfoForThisObj : list GenericPatchInfo;
  scan_rtrepl : list RtReplPatchInfo;
  scan_destWithNcpSet : list Z;
  scan_jobsWithNcpSet : list SourceFileJob;
  scan_warnings : list ParseWarning
}.

Definition record_outcome (o : ParseOutcome) (s : ObjectScan) : ObjectScan :=
  match o with
  | NotADirective | RtReplLabel => s
  | Warned w =>
      {| patchInfoForThisObj := patchInfoForThisObj s;
         scan_rtrepl := scan_rtrepl s;
         scan_destWithNcpSet := scan_destWithNcpSet s;
         scan_jobsWithNcpSet := scan_jobsWithNcpSet s;
         scan_warnings := scan_warnings s ++ [w] |}
  | RtReplSection r =>
      {| patchInfoForThisObj := patchInfoForThisObj s;
         scan_rtrepl := scan_rtrepl s ++ [r];
         scan_destWithNcpSet := scan_destWithNcpSet s;
         scan_jobsWithNcpSet := scan_jobsWithNcpSet s;
         scan_warnings := scan_warnings s |}
  | Patch p =>
      {| patchInfoForThisObj := patchInfoForThisObj s ++ [p];
         scan_rtrepl := scan_rtrepl s;
         scan_destWithNcpSet := scan_destWithNcpSet s;
         scan_jobsWithNcpSet := scan_jobsWithNcpSet s;
         scan_warnings := scan_warnings s |}
  end.

Definition record_ncp_set (srcFileJob : SourceFileJob) (s : ObjectScan)
  : ObjectScan :=
  let dest := BuildTarget.destination (region srcFileJob) in
  {| patchInfoForThisObj := patchInfoForThisObj s;
     scan_rtrepl := scan_rtrepl s;
     scan_destWithNcpSet :=
       if existsb (Z.eqb dest) (scan_destWithNcpSet s)
       then scan_destWithNcpSet s else scan_destWithNcpSet s ++ [dest];
     scan_jobsWithNcpSet := scan_jobsWithNcpSet s ++ [srcFileJob];
     scan_warnings := scan_warnings s |}.

(** The first patch of the object whose section is the function's section
    takes the function's low bit ([break] after the first match). *)
Fixpoint markSrcThumb (st_shndx : Z) (thumb : bool)
         (ps : list GenericPatchInfo) : list GenericPatchInfo :=
  match ps with
  | [] => []
  | p :: ps' =>
      if sectionIdx p =? st_shndx then set_srcThumb thumb p :: ps'
      else p :: markSrcThumb st_shndx thumb ps'
  end.

Section Gathering.

Variable addrToInt : string -> option Z.

(** Find patches in sections. *)
Fixpoint scanSections (srcFileJob : SourceFileJob)
         (shs : list Elf32_Shdr) (sectionIdx : Z) (s : ObjectScan)
  : ObjectScan :=
  match shs with
  | [] => s
  | section :: shs' =>
      let sectionName := sh_name section in
      let s' :=
        if Str.starts_with ".ncp_" sectionName then
          if Str.starts_with "set" (Str.substr_from 5 sectionName) then
            record_ncp_set srcFileJob s
          else
            record_outcome
              (parseSymbol addrToInt srcFileJob sectionName 0 sectionIdx
                           (to_int (sh_size section))) s
        else s in
      scanSections srcFileJob shs' (sectionIdx + 1) s'
  end.

(** Find the functions corresponding to the patch to check if they are
    thumb. *)
Definition scanFunctions (syms : list Elf32_Sym)
           (ps : list GenericPatchInfo) : list GenericPatchInfo :=
  fold_left
    (fun ps sym =>
       if st_type sym =? STT_FUNC then
         markSrcThumb (st_shndx sym)
                      (negb (Z.land (st_value sym) 1 =? 0)) ps
       else ps)
    syms ps.

(** Find patches in symbols. *)
Definition scanSymbols (srcFileJob : SourceFileJob)
           (syms : list Elf32_Sym) (s : ObjectScan) : ObjectScan :=
  fold_left
    (fun s sym =>
       let symbolName := st_name sym in
       if Str.starts_with "ncp_" symbolName then
         if negb (String.eqb (Str.substr_from 4 symbolName) "dest") then
           record_outcome
             (parseSymbol addrToInt srcFileJob symbolName (st_value sym)
                          (-1) 0) s
         else s
       else s)
    syms s.

Definition with_patches (ps : list GenericPatchInfo) (s : ObjectScan)
  : ObjectScan :=
  {| patchInfoForThisObj := ps;
     scan_rtrepl := scan_rtrepl s;
     scan_destWithNcpSet := scan_destWithNcpSet s;
     scan_jobsWithNcpSet := scan_jobsWithNcpSet s;
     scan_warnings := scan_warnings s |}.

(** The body of the loop over the source file jobs; the object file of a
    job is [None] when it is missing or unreadable. *)
Definition gatherInfoFromObject (j : SourceFileJob * option Elf32)
           (g : PatchGathering) : Result PatchGathering :=
  let srcFileJob := fst j in
  match snd j with
  | None => Throw (file_error (objFilePath srcFileJob))
  | Some elf =>
      let s0 := {| patchInfoForThisObj := [];
                   scan_rtrepl := m_rtreplPatches g;
                   scan_destWithNcpSet := m_destWithNcpSet g;
                   scan_jobsWithNcpSet := m_jobsWithNcpSet g;
                   scan_warnings := m_warnings g |} in
      let s1 := scanSections srcFileJob (elf_sections elf) 0 s0 in
      let s2 :=
        with_patches
          (scanFunctions (elf_symbols elf) (patchInfoForThisObj s1)) s1 in
      let s3 := scanSymbols srcFileJob (elf_symbols elf) s2 in
      let labels :=
        List.filter (fun p => sectionIdx p =? -1) (patchInfoForThisObj s3) in
      Ok {| m_patchInfo := m_patchInfo g ++ patchInfoForThisObj s3;
            m_rtreplPatches := scan_rtrepl s3;
            m_destWithNcpSet := scan_destWithNcpSet s3;
            m_jobsWithNcpSet := scan_jobsWithNcpSet s3;
            m_externSymbols := m_externSymbols g ++ map symbol labels;
            m_warnings := scan_warnings s3 |}
  end.

Definition gatherInfoFromObjects
           (srcFileJobs : list (SourceFileJob * option Elf32))
  : Result PatchGathering :=
  forEach gatherInfoFromObject srcFileJobs no_patches.

End Gathering.

(** The kind a directive name carries: the index in [s_patchTypeNames] of
    the text between the [ncp_] stem and the first underscore, as
    [parseSymbol] looks it up. *)
Definition directiveKind (symbolName : string) (sectionIdx : Z) : option N :=
  let labelName :=
    Str.substr_from (if sectionIdx =? -1 then 4%nat else 5%nat) symbolName in
  match Str.find Str.underscore labelName 0%nat with
  | None => None
  | Some patchTypeNameEnd =>
      Util_indexOf (Str.substr 0%nat patchTypeNameEnd labelName)
                   s_patchTypeNames
  end.

(** The address a directive name carries: the text between the first
    underscore after the kind and the next underscore (or the end of the
    name), converted as [parseSymbol] converts it. *)
Definition directiveAddress (addrToInt : string -> option Z)
           (symbolName : string) (sectionIdx : Z) : option Z :=
  let labelName :=
    Str.substr_from (if sectionIdx =? -1 then 4%nat else 5%nat) symbolName in
  match Str.find Str.underscore labelName 0%nat with
  | None => None
  | Some patchTypeNameEnd =>
      let addressNameStart := S patchTypeNameEnd in
      let addressNameEnd :=
        match Str.find Str.underscore labelName addressNameStart with
        | None => String.length labelName
        | Some e => e
        end in
      addrToInt (Str.substr addressNameStart
                            (addressNameEnd - addressNameStart)%nat labelName)
  end.

(** Strips the [t] and [set] prefixes of a kind. *)
Definition underlyingKind (k : N) : N :=
  if (k =? PatchType.TJump)%N || (k =? PatchType.TSetJump)%N
     || (k =? PatchType.SetJump)%N then PatchType.Jump
  else if (k =? PatchType.TCall)%N || (k =? PatchType.TSetCall)%N
          || (k =? PatchType.SetCall)%N then PatchType.Call
  else if (k =? PatchType.THook)%N || (k =? PatchType.TSetHook)%N
          || (k =? PatchType.SetHook)%N then PatchType.Hook
  else k.

(** ** The overlap check of the post-link resolver ([gatherInfoFromElf]) *)

(** Modelled from the spec: [Util::overlaps] (util.hpp is not part of the
    sources at hand): whether the half-open ranges [[x1, x2)] and
    [[y1, y2)] overlap. *)
Definition Util_overlaps (x1 x2 y1 y2 : Z) : bool :=
  Z.max x1 y1 <? Z.min x2 y2.

(** One line of the error log:
    ["a"[sz=..] (file) overlaps with "b"[sz=..] (file)]. *)
Record OverlapReport := {
  report_a : GenericPatchInfo;
  report_aSz : Z;
  report_b : GenericPatchInfo;
  report_bSz : Z
}.

(** [u32 aSz = a->patchType == PatchType::Over ? a->sectionSize : 4] *)
Definition overlapSize (a : GenericPatchInfo) : Z :=
  wrap32 (if (patchType a =? PatchType.Over)%N then sectionSize a else 4).

Definition overlapTest (a b : GenericPatchInfo) : bool :=
  (destAddressOv a =? destAddressOv b)
  && Util_overlaps (destAddress a) (add32 (destAddress a) (overlapSize a))
                   (destAddress b) (add32 (destAddress b) (overlapSize b)).

(** The inner loop, over the records [b] that follow [a]; the state is the
    error log and [foundOverlapping]. *)
Definition overlapInner (a : GenericPatchInfo) (bs : list GenericPatchInfo)
           (st : list OverlapReport * bool) : list OverlapReport * bool :=
  fold_left
    (fun st b =>
       if overlapTest a b then
         (fst st ++ [ {| report_a := a; report_aSz := overlapSize a;
                         report_b := b; report_bSz := overlapSize b |} ],
          true)
       else st)
    bs st.

Fixpoint overlapOuter (ps : list GenericPatchInfo)
         (st : list OverlapReport * bool) : list OverlapReport * bool :=
  match ps with
  | [] => st
  | a :: ps' => overlapOuter ps' (overlapInner a ps' st)
  end.

(** The log written and the outcome of the check. *)
Definition checkOverlappingPatches (patchInfo : list GenericPatchInfo)
  : list OverlapReport * Result unit :=
  let st := overlapOuter patchInfo ([], false) in
  (fst st, if snd st then Throw overlapping_patches else Ok tt).

(** The ranges of the specification: [[destAddress, destAddress + size)]
    with [size] the section size for an [Over] patch and 4 otherwise,
    read over the integers.  (Follows the specification's words.) *)
Definition specSize (p : GenericPatchInfo) : Z :=
  if (patchType p =? PatchType.Over)%N then sectionSize p else 4.

Definition rangesOverlap (a b : GenericPatchInfo) : Prop :=
  destAddressOv a = destAddressOv b
  /\ exists x, destAddress a <= x < destAddress a + specSize a
               /\ destAddress b <= x < destAddress b + specSize b.

(** A pair of distinct records of the list, in list order. *)
Definition offendingPair (ps : list GenericPatchInfo)
           (a b : GenericPatchInfo) : Prop :=
  exists i j : nat, (i < j)%nat /\ ps !! i = Some a /\ ps !! j = Some b
                    /\ rangesOverlap a b.

(** No range wraps around the 32-bit address space. *)
Definition rangeInAddressSpace (p : GenericPatchInfo) : Prop :=
  is_u32 (destAddress p) /\ 0 <= destAddress p + specSize p < 2 ^ 32.

Definition mkReport (a b : GenericPatchInfo) : OverlapReport :=
  {| report_a := a; report_aSz := overlapSize a;
     report_b := b; report_bSz := overlapSize b |}.

(** The log of the two loops in closed form: for each record, in order,
    the reports against the records that follow it. *)
Fixpoint reportsOf (ps : list GenericPatchInfo) : list OverlapReport :=
  match ps with
  | [] => []
  | a :: ps' =>
      List.map (mkReport a) (List.filter (overlapTest a) ps') ++ reportsOf ps'
  end.

(** ** Binaries *)

(** Modelled from the spec: [ICodeBin] (the classes of ndsbin/ are not part
    of the sources at hand).  A binary is byte-addressable by RAM address:
    [read<T>], [write<T>] and [writeBytes] map the address by subtracting
    the RAM base, and an access out of range is a fatal error.  Integers
    are little-endian. *)
Record CodeBin := {
  bin_data : list Z;
  bin_ramAddress : Z
}.

Definition CodeBin_offset (bin : CodeBin) (address : Z) (n : nat)
  : Result nat :=
  let off := sub32 address (bin_ramAddress bin) in
  if off + Z.of_nat n <=? Z.of_nat (List.length (bin_data bin))
  then Ok (Z.to_nat off)
  else Throw (codebin_out_of_range address).

Definition splice (off : nat) (bs data : list Z) : list Z :=
  take off data ++ bs ++ drop (off + List.length bs) data.

Definition CodeBin_readBytes (bin : CodeBin) (address : Z) (n : nat)
  : Result (list Z) :=
  off ← CodeBin_offset bin address n;
  Ok (take n (drop off (bin_data bin))).

Definition CodeBin_writeBytes (bin : CodeBin) (address : Z) (bs : list Z)
  : Result CodeBin :=
  off ← CodeBin_offset bin address (List.length bs);
  Ok {| bin_data := splice off bs (bin_data bin);
        bin_ramAddress := bin_ramAddress bin |}.

Definition CodeBin_read_u32 (bin : CodeBin) (address : Z) : Result Z :=
  bs ← CodeBin_readBytes bin address 4;
  Ok (le_value bs).

Definition CodeBin_write_u32 (bin : CodeBin) (address v : Z)
  : Result CodeBin :=
  CodeBin_writeBytes bin address (bytes_u32 v).

(** Modelled from the spec: the state of [ArmBin] that the patch loop
    touches is its [ICodeBin] part. *)
Record ArmBin := {
  arm_bin : CodeBin
}.

(** Modelled from the spec: [OverlayBin] retains the bytes and the RAM
    base, and a [backupData] buffer populated the first time the overlay is
    loaded from the ROM tree. *)
Record OverlayBin := {
  ov_bin : CodeBin;
  backupData : list Z;
  ov_id : N
}.

(** Modelled from the spec: one entry of the overlay table
    ([arm9ovt.bin]); [flag] is the byte that holds the compression bit. *)
Module Ovt.
Record OvtEntry := {
  ramAddress : Z;
  ramSize : Z;
  bssSize : Z;
  sinitStart : Z;
  sinitEnd : Z;
  fileID : Z;
  compressed : Z;
  flag : Z
}.

Definition set_flag (f : Z) (e : OvtEntry) : OvtEntry :=
  {| ramAddress := ramAddress e; ramSize := ramSize e;
     bssSize := bssSize e; sinitStart := sinitStart e;
     sinitEnd := sinitEnd e; fileID := fileID e;
     compressed := compressed e; flag := f |}.
End Ovt.

(** Modelled from the spec: the compression bit of [OvtEntry::flag]. *)
Definition OVERLAY_FLAG_COMP : Z := 1.

Record AutogenDataInfo := {
  address : Z;
  curAddress : Z;
  data : list Z
}.

(** The two directory trees the patch maker works in: the ROM tree
    ([Main::getRomPath()]) and the work tree ([Main::getWorkPath()], in
    which the backup directory lives).  A file is its bytes. *)
Record FileSystem := {
  rom_tree : gmap string (list Z);
  work_tree : gmap string (list Z)
}.

Record PatchMaker := {
  target_arm9 : bool;                                  (* m_target->getArm9() *)
  backupDir : string;                                  (* BuildConfig::getBackupDir() *)
  m_arm : ArmBin;
  m_ovtEntries : list Ovt.OvtEntry;
  m_bakOvtEntries : list Ovt.OvtEntry;
  m_loadedOverlays : gmap N OverlayBin;
  m_autogenDataInfoForDest : gmap Z AutogenDataInfo;
  m_elf : Elf32;
  files : FileSystem
}.

Definition set_arm (a : ArmBin) (pm : PatchMaker) : PatchMaker :=
  {| target_arm9 := target_arm9 pm; backupDir := backupDir pm;
     m_arm := a; m_ovtEntries := m_ovtEntries pm;
     m_bakOvtEntries := m_bakOvtEntries pm;
     m_loadedOverlays := m_loadedOverlays pm;
     m_autogenDataInfoForDest := m_autogenDataInfoForDest pm;
     m_elf := m_elf pm; files := files pm |}.

Definition set_ovt (ovt bak : list Ovt.OvtEntry) (pm : PatchMaker)
  : PatchMaker :=
  {| target_arm9 := target_arm9 pm; backupDir := backupDir pm;
     m_arm := m_arm pm; m_ovtEntries := ovt;
     m_bakOvtEntries := bak;
     m_loadedOverlays := m_loadedOverlays pm;
     m_autogenDataInfoForDest := m_autogenDataInfoForDest pm;
     m_elf := m_elf pm; files := files pm |}.

Definition set_loadedOverlays (m : gmap N OverlayBin) (pm : PatchMaker)
  : PatchMaker :=
  {| target_arm9 := target_arm9 pm; backupDir := backupDir pm;
     m_arm := m_arm pm; m_ovtEntries := m_ovtEntries pm;
     m_bakOvtEntries := m_bakOvtEntries pm;
     m_loadedOverlays := m;
     m_autogenDataInfoForDest := m_autogenDataInfoForDest pm;
     m_elf := m_elf pm; files := files pm |}.

Definition set_autogen (m : gmap Z AutogenDataInfo) (pm : PatchMaker)
  : PatchMaker :=
  {| target_arm9 := target_arm9 pm; backupDir := backupDir pm;
     m_arm := m_arm pm; m_ovtEntries := m_ovtEntries pm;
     m_bakOvtEntries := m_bakOvtEntries pm;
     m_loadedOverlays := m_loadedOverlays pm;
     m_autogenDataInfoForDest := m;
     m_elf := m_elf pm; files := files pm |}.

Definition set_files (f : FileSystem) (pm : PatchMaker) : PatchMaker :=
  {| target_arm9 := target_arm9 pm; backupDir := backupDir pm;
     m_arm := m_arm pm; m_ovtEntries := m_ovtEntries pm;
     m_bakOvtEntries := m_bakOvtEntries pm;
     m_loadedOverlays := m_loadedOverlays pm;
     m_autogenDataInfoForDest := m_autogenDataInfoForDest pm;
     m_elf := m_elf pm; files := f |}.

(** ** Loading and saving overlays *)

Definition overlayBinName (arm9 : bool) (ovID : N) : string :=
  let prefix := if arm9 then "overlay9" else "overlay7" in
  prefix +:+ "/" +:+ prefix +:+ "_" +:+ pretty ovID +:+ ".bin".

Definition backupPath (pm : PatchMaker) (binName : string) : string :=
  backupDir pm +:+ "/" +:+ binName.

Section Overlays.

(** The decompression of an overlay payload (outside the patch maker). *)
Variable decompress : list Z -> list Z.

(** Modelled from the spec: [OverlayBin::load]: given the RAM address,
    whether the payload is compressed and the id, decompress if needed
    and retain the bytes and the RAM base.  The file is given by its
    content, [None] when it cannot be read. *)
Definition OverlayBin_load (path : string) (file : option (list Z))
           (ramAddress : Z) (compressed : bool) (id : N)
  : Result OverlayBin :=
  match file with
  | None => Throw (file_error path)
  | Some bytes =>
      Ok {| ov_bin := {| bin_data := if compressed then decompress bytes
                                     else bytes;
                         bin_ramAddress := ramAddress |};
            backupData := [];
            ov_id := id |}
  end.

Definition loadOverlayBin (ovID : N) (pm : PatchMaker)
  : Result (OverlayBin * PatchMaker) :=
  let binName := overlayBinName (target_arm9 pm) ovID in
  let bakBinName := backupPath pm binName in
  match m_ovtEntries pm !! N.to_nat ovID with
  | None => Throw index_out_of_range
  | Some ovte =>
      let compressed := negb (Z.land (Ovt.flag ovte) OVERLAY_FLAG_COMP =? 0) in
      overlay ←
        match work_tree (files pm) !! bakBinName with
        | Some bytes => (* has backup *)
            OverlayBin_load bakBinName (Some bytes) (Ovt.ramAddress ovte)
                            compressed ovID
        | None => (* has no backup *)
            overlay ← OverlayBin_load binName
                        (rom_tree (files pm) !! binName)
                        (Ovt.ramAddress ovte) compressed ovID;
            Ok {| ov_bin := ov_bin overlay;
                  backupData := bin_data (ov_bin overlay);
                  ov_id := ov_id overlay |}
        end;
      let ovt := <[N.to_nat ovID := Ovt.set_flag 0 ovte]> (m_ovtEntries pm) in
      bak ←
        match m_bakOvtEntries pm with
        | [] => Ok []
        | _ =>
            match m_bakOvtEntries pm !! N.to_nat ovID with
            | None => Throw index_out_of_range
            | Some e =>
                Ok (<[N.to_nat ovID := Ovt.set_flag 0 e]> (m_bakOvtEntries pm))
            end
        end;
      (* emplace: an entry already present is kept *)
      let loaded :=
        match m_loadedOverlays pm !! ovID with
        | Some _ => m_loadedOverlays pm
        | None => <[ovID := overlay]> (m_loadedOverlays pm)
        end in
      Ok (overlay, set_loadedOverlays loaded (set_ovt ovt bak pm))
  end.

Definition getOverlay (ovID : N) (pm : PatchMaker)
  : Result (OverlayBin * PatchMaker) :=
  match m_loadedOverlays pm !! ovID with
  | Some ov => Ok (ov, pm)
  | None => loadOverlayBin ovID pm
  end.

(** The body of the loop of [saveOverlayBins]. *)
Definition saveOverlayBin (pm : PatchMaker) (ovID : N) (ov : OverlayBin)
           (fs : FileSystem) : FileSystem :=
  let binName := overlayBinName (target_arm9 pm) ovID in
  let saveOvData (ovData : list Z) (path : string)
                 (tree : gmap string (list Z)) := <[path := ovData]> tree in
  let fs1 := {| rom_tree := saveOvData (bin_data (ov_bin ov)) binName
                                       (rom_tree fs);
                work_tree := work_tree fs |} in
  if negb (Nat.eqb (List.length (backupData ov)) 0) then
    {| rom_tree := rom_tree fs1;
       work_tree := saveOvData (bin_data (ov_bin ov))
                               (backupPath pm binName) (work_tree fs1) |}
  else fs1.

(** The loop over [m_loadedOverlays]; the files written for two
    overlays are distinct, so that the order of the iteration does not
    show in the result. *)
Definition saveOverlayBins (pm : PatchMaker) : PatchMaker :=
  set_files (map_fold (saveOverlayBin pm) (files pm) (m_loadedOverlays pm))
            pm.

End Overlays.

(** ** The autogen reservation of the layout planner ([createLinkerScript]) *)

(** [std::size_t] arithmetic (a 64-bit host). *)
Definition wrap_size_t (z : Z) : Z := z mod 2 ^ 64.

Record LDSRegionEntry := {
  dest : Z;
  lds_region : BuildTarget.Region;
  autogenDataSize : Z;                       (* std::size_t *)
  sectionPatches : list GenericPatchInfo
}.

Definition newRegionEntry (region : BuildTarget.Region) : LDSRegionEntry :=
  {| dest := BuildTarget.destination region; lds_region := region;
     autogenDataSize := 0; sectionPatches := [] |}.

Definition add_sectionPatch (info : GenericPatchInfo) (r : LDSRegionEntry)
  : LDSRegionEntry :=
  {| dest := dest r; lds_region := lds_region r;
     autogenDataSize := autogenDataSize r;
     sectionPatches := sectionPatches r ++ [info] |}.

Definition add_autogenDataSize (n : nat) (r : LDSRegionEntry)
  : LDSRegionEntry :=
  {| dest := dest r; lds_region := lds_region r;
     autogenDataSize := wrap_size_t (autogenDataSize r + Z.of_nat n);
     sectionPatches := sectionPatches r |}.

(** The body of the loop over [regionEntries], for a patch that is not an
    [Over] patch. *)
Definition planPatchInRegion (info : GenericPatchInfo) (ldsRegion : LDSRegionEntry)
  : LDSRegionEntry :=
  if dest ldsRegion =? BuildTarget.destination (region (job info)) then
    let ldsRegion :=
      if negb (sectionIdx info =? -1) then add_sectionPatch info ldsRegion
      else ldsRegion in
    if (patchType info =? PatchType.Hook)%N then
      add_autogenDataSize SizeOfHookBridge ldsRegion
    else if (patchType info =? PatchType.Jump)%N then
      if negb (destThumb info) && srcThumb info (* ARM -> THUMB *) then
        add_autogenDataSize SizeOfArm2ThumbJumpBridge ldsRegion
      else ldsRegion
    else ldsRegion
  else ldsRegion.

(** The body of the loop over [m_patchInfo]; an [Over] patch only adds a
    memory entry of its own and leaves the region entries alone. *)
Definition planPatch (regionEntries : list LDSRegionEntry)
           (info : GenericPatchInfo) : list LDSRegionEntry :=
  if (patchType info =? PatchType.Over)%N then regionEntries
  else List.map (planPatchInRegion info) regionEntries.

(** The region entries when the linker script is written.
    [orderedRegions] is the list of regions after [std::sort] (overlays
    before the main binary); the order among regions of one destination is
    left open by [std::sort] and is not fixed here.  The sort itself is
    [sortRegions], and [regionEntries] builds the entries from the
    regions of the target as they are declared. *)
Definition planRegionEntries (orderedRegions : list BuildTarget.Region)
           (patchInfo : list GenericPatchInfo) : list LDSRegionEntry :=
  fold_left planPatch patchInfo (List.map newRegionEntry orderedRegions).

(** The reservation written after the collected text of a region:
    [ncp_autogendata[_<mem>] = .; FILL(0); . = ncp_autogendata[_<mem>] + size],
    only when the size is not zero. *)
Definition autogenReservation (s : LDSRegionEntry) : option (string * Z) :=
  if autogenDataSize s =? 0 then None
  else if dest s =? -1 then Some ("ncp_autogendata"%string, autogenDataSize s)
  else Some ("ncp_autogendata_ov" +:+ pretty (dest s), autogenDataSize s).

(** The bridge bytes of one patch record. *)
Definition bridgeSize (info : GenericPatchInfo) : nat :=
  if (patchType info =? PatchType.Hook)%N then SizeOfHookBridge
  else if (patchType info =? PatchType.Jump)%N
          && negb (destThumb info) && srcThumb info
       then SizeOfArm2ThumbJumpBridge
  else 0%nat.

(** The records that belong to the region of destination [d]: those that
    are not [Over] patches and whose job's region has that destination. *)
Definition inRegion (d : Z) (info : GenericPatchInfo) : bool :=
  negb (patchType info =? PatchType.Over)%N
  && (d =? BuildTarget.destination (region (job info))).

Definition bridgeBytes (d : Z) (patchInfo : list GenericPatchInfo) : nat :=
  list_sum (List.map bridgeSize (List.filter (inRegion d) patchInfo)).

(** ** The post-link resolver ([gatherInfoFromElf]) *)

Definition set_resolved (srcAddr secIdx : Z) (sym : string)
           (p : GenericPatchInfo) : GenericPatchInfo :=
  {| srcAddress := srcAddr; srcAddressOv := srcAddressOv p;
     destAddress := destAddress p; destAddressOv := destAddressOv p;
     patchType := patchType p; sectionIdx := secIdx;
     sectionSize := sectionSize p; isNcpSet := isNcpSet p;
     srcThumb := srcThumb p; destThumb := destThumb p;
     symbol := sym; job := job p |}.

Fixpoint mapResult {A B} (f : A -> Result B) (l : list A) : Result (list B) :=
  match l with
  | [] => Ok []
  | x :: l' => y ← f x; ys ← mapResult f l'; Ok (y :: ys)
  end.

Section Resolver.

(** [std::stoi]; [None] when it throws. *)
Variable stoi : string -> option Z.

(** Update the patch info with new values: one symbol against one
    record. *)
Definition resolveSymbol (sym : Elf32_Sym) (p : GenericPatchInfo)
  : Result GenericPatchInfo :=
  if negb (sectionIdx p =? -1) then (* patch is section *)
    if Nat.eqb (String.length (symbol p)) 0 then Throw std_out_of_range
    else
      let nameAsLabel := Str.substr_from 1 (symbol p) in
      if String.eqb nameAsLabel (st_name sym) then
        Ok (set_resolved (st_value sym) (st_shndx sym) nameAsLabel p)
      else Ok p
  else
    if String.eqb (symbol p) (st_name sym) then
      Ok (set_resolved (st_value sym) (st_shndx sym) (symbol p) p)
    else Ok p.

(** The destination named by an [ncp_autogendata[_ov<N>]] symbol or an
    [.ncp_set[_ov<N>]] section, whose stem has [n] characters; [None]
    when the overlay number is invalid (a warning, and the symbol or
    section is skipped). *)
Definition destOfName (n : nat) (name : string) : option Z :=
  if negb (Nat.eqb (String.length name) n)
     && Str.starts_with "_ov" (Str.substr_from n name)
  then option_map to_int (stoi (Str.substr_from (n + 3) name))
  else Some (-1).

Definition resolveSymbols (sym : Elf32_Sym)
           (st : list GenericPatchInfo * gmap Z AutogenDataInfo)
  : Result (list GenericPatchInfo * gmap Z AutogenDataInfo) :=
  patchInfo ← mapResult (resolveSymbol sym) (fst st);
  if Str.starts_with "ncp_autogendata" (st_name sym) then
    match destOfName 15 (st_name sym) with
    | None => Ok (patchInfo, snd st)
    | Some srcAddrOv =>
        let info := {| address := st_value sym;
                       curAddress := st_value sym;
                       data := [] |} in
        (* emplace: an entry already present is kept *)
        Ok (patchInfo,
            match snd st !! srcAddrOv with
            | Some _ => snd st
            | None => <[srcAddrOv := info]> (snd st)
            end)
    end
  else Ok (patchInfo, snd st).

Definition resolveOver (sectionIdx : Z) (section : Elf32_Shdr)
           (p : GenericPatchInfo) : GenericPatchInfo :=
  if (patchType p =? PatchType.Over)%N
     && String.eqb (symbol p) (sh_name section)
  then set_resolved (sh_addr section) sectionIdx (symbol p) p
  else p.

(** [p->srcAddress = Util::read<u32>(&sectionData[p->srcAddress - section.sh_addr])] *)
Definition readNcpSet (section : Elf32_Shdr) (p : GenericPatchInfo)
  : Result GenericPatchInfo :=
  if isNcpSet p then
    let off := sub32 (srcAddress p) (sh_addr section) in
    if off + 4 <=? Z.of_nat (List.length (sh_data section)) then
      Ok (set_resolved
            (le_value (take 4 (drop (Z.to_nat off) (sh_data section))))
            (sectionIdx p) (symbol p) p)
    else Throw index_out_of_range
  else Ok p.

Definition resolveSection (section : Elf32_Shdr)
           (st : Z * list GenericPatchInfo)
  : Result (Z * list GenericPatchInfo) :=
  let sectionIdx := fst st in
  let patchInfo := List.map (resolveOver sectionIdx section) (snd st) in
  if Str.starts_with ".ncp_set" (sh_name section) then
    match destOfName 8 (sh_name section) with
    | None => Ok (sectionIdx + 1, patchInfo)
    | Some _ =>
        patchInfo ← mapResult (readNcpSet section) patchInfo;
        Ok (sectionIdx + 1, patchInfo)
    end
  else Ok (sectionIdx + 1, patchInfo).

(** The resolver up to and including the check for overlapping patches:
    the patch records with their final addresses, and the patch maker
    with its autogen records. *)
Definition gatherInfoFromElf (patchInfo : list GenericPatchInfo)
           (pm : PatchMaker) : Result (list GenericPatchInfo * PatchMaker) :=
  st ← forEach resolveSymbols (elf_symbols (m_elf pm))
               (patchInfo, m_autogenDataInfoForDest pm);
  st' ← forEach resolveSection (elf_sections (m_elf pm)) (0, fst st);
  _ ← snd (checkOverlappingPatches (snd st'));
  Ok (snd st', set_autogen (snd st) pm).

End Resolver.

(** ** The patch applier ([applyPatchesToRom], the loop over the patches)

    The loop over [m_patchInfo] rewrites the binaries and fills the
    autogen buffers.  The loop that follows it in [applyPatchesToRom]
    installs the new code of each destination: it grows the binaries and
    copies the autogen buffers, which it does not write.  Its part for
    the overlays is modelled further below ([installNewcode]). *)

(** The conversion of an [int] overlay number to the [std::size_t]
    argument of [getOverlay]. *)
Definition size_t_of_int (z : Z) : N := Z.to_N (wrap_size_t z).

Definition set_ov_bin (bin : CodeBin) (ov : OverlayBin) : OverlayBin :=
  {| ov_bin := bin; backupData := backupData ov; ov_id := ov_id ov |}.

(** The bridge of an ARM to THUMB jump:
    [LDR PC, [PC,#-4]] and the address to jump to. *)
Definition arm2thumbJumpBridge (srcAddress : Z) : list Z :=
  bytes_u32 0xE51FF004 ++ bytes_u32 (Z.lor srcAddress 1).

(** The hook bridge written at [hookBridgeAddr]. *)
Definition hookBridge (ogOpCode destAddress srcAddress hookBridgeAddr : Z)
  : list Z :=
  bytes_u32 armHookPush
  ++ bytes_u32 (makeJumpOpCode armOpcodeBL (add32 hookBridgeAddr 4) srcAddress)
  ++ bytes_u32 armHookPop
  ++ bytes_u32 (fixupOpCode ogOpCode destAddress (add32 hookBridgeAddr 12))
  ++ bytes_u32 (makeJumpOpCode armOpcodeB (add32 hookBridgeAddr 16)
                               (add32 destAddress 4)).

(** [u16 patchData[3]] of a jump out of THUMB code: the [u32] that
    [makeThumbJumpOpCode] returns is stored in the [u16] [patchData[1]]. *)
Definition thumbJumpPatchData (opCode destAddress srcAddress : Z) : list Z :=
  bytes_u16 thumbOpCodePushLR
  ++ bytes_u16 (wrap16 (makeThumbJumpOpCode opCode destAddress srcAddress))
  ++ bytes_u16 thumbOpCodePopPC.

(** Appends a bridge to the autogen data of a destination and advances
    its cursor. *)
Definition appendBridge (bridge : list Z) (info : AutogenDataInfo)
  : AutogenDataInfo :=
  {| address := address info;
     curAddress := add32 (curAddress info) (Z.of_nat (List.length bridge));
     data := data info ++ bridge |}.

Section Applier.

Variable decompress : list Z -> list Z.

(** [ICodeBin* bin = (p->destAddressOv == -1) ? getArm() : getOverlay(p->destAddressOv)] *)
Definition getBin (p : GenericPatchInfo) (pm : PatchMaker)
  : Result (CodeBin * PatchMaker) :=
  if destAddressOv p =? -1 then Ok (arm_bin (m_arm pm), pm)
  else
    r ← getOverlay decompress (size_t_of_int (destAddressOv p)) pm;
    Ok (ov_bin (fst r), snd r).

(** The binary is written through the pointer: the new bytes are those
    of the ARM binary or of the loaded overlay. *)
Definition putBin (p : GenericPatchInfo) (bin : CodeBin) (pm : PatchMaker)
  : PatchMaker :=
  if destAddressOv p =? -1 then set_arm {| arm_bin := bin |} pm
  else
    set_loadedOverlays
      (alter (set_ov_bin bin) (size_t_of_int (destAddressOv p))
             (m_loadedOverlays pm))
      pm.

Definition getAutogen (p : GenericPatchInfo) (pm : PatchMaker)
  : Result AutogenDataInfo :=
  match m_autogenDataInfoForDest pm !! srcAddressOv p with
  | Some info => Ok info
  | None => Throw unexpected_autogen_dest
  end.

Definition putAutogen (p : GenericPatchInfo) (info : AutogenDataInfo)
           (pm : PatchMaker) : PatchMaker :=
  set_autogen (<[srcAddressOv p := info]> (m_autogenDataInfoForDest pm)) pm.

Definition applyJump (p : GenericPatchInfo) (bin : CodeBin) (pm : PatchMaker)
  : Result PatchMaker :=
  if negb (destThumb p) && negb (srcThumb p) then (* ARM -> ARM *)
    bin' ← CodeBin_write_u32 bin (destAddress p)
           (makeJumpOpCode armOpcodeB (destAddress p) (srcAddress p));
    Ok (putBin p bin' pm)
  else if negb (destThumb p) && srcThumb p then (* ARM -> THUMB *)
    info ← getAutogen p pm;
    let bridgeAddr := curAddress info in
    bin' ← CodeBin_write_u32 bin (destAddress p)
           (makeJumpOpCode armOpcodeB (destAddress p) bridgeAddr);
    Ok (putAutogen p (appendBridge (arm2thumbJumpBridge (srcAddress p)) info)
                   (putBin p bin' pm))
  else if destThumb p && negb (srcThumb p) then (* THUMB -> ARM *)
    bin' ← CodeBin_writeBytes bin (destAddress p)
           (thumbJumpPatchData thumbOpCodeBLX1 (destAddress p) (srcAddress p));
    Ok (putBin p bin' pm)
  else (* THUMB -> THUMB *)
    bin' ← CodeBin_writeBytes bin (destAddress p)
           (thumbJumpPatchData thumbOpCodeBL1 (destAddress p) (srcAddress p));
    Ok (putBin p bin' pm).

Definition applyCall (p : GenericPatchInfo) (bin : CodeBin) (pm : PatchMaker)
  : Result PatchMaker :=
  if negb (Bool.eqb (destThumb p) (srcThumb p)) && negb (target_arm9 pm) then
    Throw (blx_not_supported_on_armv4 (symbol p))
  else
    let opcode :=
      if negb (destThumb p) && negb (srcThumb p) then (* ARM -> ARM *)
        makeJumpOpCode armOpcodeBL (destAddress p) (srcAddress p)
      else if negb (destThumb p) && srcThumb p then (* ARM -> THUMB *)
        makeJumpOpCode
          (Z.lor armOpCodeBLX
                 (shl32 (Z.shiftr (srcAddress p mod 4) 1) 23))
          (destAddress p) (srcAddress p)
      else if destThumb p && negb (srcThumb p) then (* THUMB -> ARM *)
        makeThumbJumpOpCode thumbOpCodeBLX1 (destAddress p) (srcAddress p)
      else (* THUMB -> THUMB *)
        makeThumbJumpOpCode thumbOpCodeBL1 (destAddress p) (srcAddress p) in
    bin' ← CodeBin_write_u32 bin (destAddress p) opcode;
    Ok (putBin p bin' pm).

Definition applyHook (p : GenericPatchInfo) (bin : CodeBin) (pm : PatchMaker)
  : Result PatchMaker :=
  if destThumb p || srcThumb p then
    Throw (inject_not_supported "hook" (srcThumb p) (destThumb p) (symbol p))
  else (* ARM -> ARM *)
    ogOpCode ← CodeBin_read_u32 bin (destAddress p);
    info ← getAutogen p pm;
    let hookBridgeAddr := curAddress info in
    bin' ← CodeBin_write_u32 bin (destAddress p)
           (makeJumpOpCode armOpcodeB (destAddress p) hookBridgeAddr);
    Ok (putAutogen p
          (appendBridge
             (hookBridge ogOpCode (destAddress p) (srcAddress p) hookBridgeAddr)
             info)
          (putBin p bin' pm)).

Definition applyOver (p : GenericPatchInfo) (bin : CodeBin) (pm : PatchMaker)
  : Result PatchMaker :=
  if sectionIdx p <? 0 then Throw index_out_of_range
  else
    match elf_sections (m_elf pm) !! Z.to_nat (sectionIdx p) with
    | None => Throw index_out_of_range
    | Some section =>
        if (0 <=? sectionSize p)
           && (sectionSize p <=? Z.of_nat (List.length (sh_data section)))
        then
          bin' ← CodeBin_writeBytes bin (destAddress p)
                 (take (Z.to_nat (sectionSize p)) (sh_data section));
          Ok (putBin p bin' pm)
        else Throw index_out_of_range
    end.

(** The body of the loop over [m_patchInfo]. *)
Definition applyPatch (p : GenericPatchInfo) (pm : PatchMaker)
  : Result PatchMaker :=
  r ← getBin p pm;
  let bin := fst r in
  let pm := snd r in
  if (patchType p =? PatchType.Jump)%N then applyJump p bin pm
  else if (patchType p =? PatchType.Call)%N then applyCall p bin pm
  else if (patchType p =? PatchType.Hook)%N then applyHook p bin pm
  else if (patchType p =? PatchType.Over)%N then applyOver p bin pm
  else Ok pm.

Definition applyPatches (patchInfo : list GenericPatchInfo) (pm : PatchMaker)
  : Result PatchMaker :=
  forEach applyPatch patchInfo pm.

End Applier.

(** The binary a patch writes to, as the patch maker holds it. *)
Definition binOf (p : GenericPatchInfo) (pm : PatchMaker) : option CodeBin :=
  if destAddressOv p =? -1 then Some (arm_bin (m_arm pm))
  else ov_bin <$> m_loadedOverlays pm !! size_t_of_int (destAddressOv p).

(** ** Concrete scenarios *)

Module Scenario.

Definition arm_region : BuildTarget.Region :=
  {| BuildTarget.destination := -1;
     BuildTarget.mode := BuildTarget.Append;
     BuildTarget.address := 0;
     BuildTarget.length := 0x20000 |}.

Definition patch_job : SourceFileJob :=
  {| srcFilePath := "source/patch.cpp";
     objFilePath := "build/source/patch.o";
     region := arm_region |}.

Definition no_elf : Elf32 := {| elf_sections := []; elf_symbols := [] |}.

Definition no_files : FileSystem := {| rom_tree := ∅; work_tree := ∅ |}.

(** A main binary of 16 bytes at [0x02000000], its first word
    [MOV R0, R0]. *)
Definition arm9 : ArmBin :=
  {| arm_bin := {| bin_data := bytes_u32 0xE1A00000 ++ repeat 0 12;
                   bin_ramAddress := 0x02000000 |} |}.

Definition pm0 : PatchMaker :=
  {| target_arm9 := true; backupDir := "backup";
     m_arm := arm9; m_ovtEntries := []; m_bakOvtEntries := [];
     m_loadedOverlays := ∅; m_autogenDataInfoForDest := ∅;
     m_elf := no_elf; files := no_files |}.

(** A patch record of the main binary after linkage. *)
Definition patch (kind : N) (destAddr srcAddr : Z) (srcT destT : bool)
           (sym : string) : GenericPatchInfo :=
  {| srcAddress := srcAddr; srcAddressOv := -1;
     destAddress := destAddr; destAddressOv := -1;
     patchType := kind; sectionIdx := -1; sectionSize := 0;
     isNcpSet := false; srcThumb := srcT; destThumb := destT;
     symbol := sym; job := patch_job |}.

(** Scenario 1: [ncp_jump_02000000], the body linked at [0x02020000]. *)
Definition jump_arm_arm : GenericPatchInfo :=
  patch PatchType.Jump 0x02000000 0x02020000 false false
        "ncp_jump_02000000".

Definition identity (bytes : list Z) : list Z := bytes.

End Scenario.

Module ThumbScenario.

(** A jump patch at THUMB code of the main binary, to ARM code
    ([srcT = false]) or to THUMB code ([srcT = true]). *)
Definition jump_from_thumb (srcT : bool) : GenericPatchInfo :=
  Scenario.patch PatchType.Jump 0x02000000 0x02020000 srcT true
                 "ncp_tjump_02000000".

End ThumbScenario.

Module HookScenario.

(** Scenario 3, on the 16-byte main binary: a hook at [0x02000000]
    (original word [MOV R0, R0]), the body linked at [0x02030000], the
    autogen region of the main binary at [0x02030100]. *)
Definition hook : GenericPatchInfo :=
  Scenario.patch PatchType.Hook 0x02000000 0x02030000 false false
                 "ncp_hook_02000000".

Definition autogen : AutogenDataInfo :=
  {| address := 0x02030100; curAddress := 0x02030100; data := [] |}.

Definition pm : PatchMaker :=
  set_autogen {[ -1 := autogen ]} Scenario.pm0.

(** The same hook declared with a THUMB end. *)
Definition thumb_hook : GenericPatchInfo :=
  Scenario.patch PatchType.Hook 0x02000000 0x02030000 false true
                 "ncp_thook_02000000".

End HookScenario.

Module ParserScenario.

(** An object of the main region that declares [ncp_tjump_02000100] on
    a function at an even (ARM) address. *)
Definition object : Elf32 :=
  {| elf_sections :=
       [ {| sh_name := ""; sh_addr := 0; sh_size := 0;
            sh_addralign := 0; sh_data := [] |};
         {| sh_name := ".text"; sh_addr := 0; sh_size := 8;
            sh_addralign := 4; sh_data := repeat 0 8 |} ];
     elf_symbols :=
       [ {| st_name := "ncp_tjump_02000100"; st_value := 0x00000000;
            st_shndx := 1; st_type := STT_FUNC |} ] |}.

Definition tjump : GenericPatchInfo :=
  {| srcAddress := 0; srcAddressOv := -1;
     destAddress := 0x02000100; destAddressOv := -1;
     patchType := PatchType.Jump; sectionIdx := -1; sectionSize := 0;
     isNcpSet := false; srcThumb := false; destThumb := true;
     symbol := "ncp_tjump_02000100"; job := Scenario.patch_job |}.

End ParserScenario.

Module OverlapScenario.

Definition over (destAddr size : Z) (sym : string) : GenericPatchInfo :=
  {| srcAddress := destAddr; srcAddressOv := -1;
     destAddress := destAddr; destAddressOv := -1;
     patchType := PatchType.Over; sectionIdx := 1; sectionSize := size;
     isNcpSet := false; srcThumb := false; destThumb := false;
     symbol := sym; job := Scenario.patch_job |}.

(** Scenario 4: [[0x02000000, 0x02000040)] and
    [[0x02000020, 0x02000030)]. *)
Definition over_a : GenericPatchInfo :=
  over 0x02000000 0x40 ".ncp_over_02000000".
Definition over_b : GenericPatchInfo :=
  over 0x02000020 0x10 ".ncp_over_02000020".

(** Two jump patches at the last word of the address space, declared
    as [ncp_jump_FFFFFFFC] in two objects. *)
Definition jump_top : GenericPatchInfo :=
  Scenario.patch PatchType.Jump 0xFFFFFFFC 0x02020000 false false
                 "ncp_jump_FFFFFFFC".

End OverlapScenario.

Module OverlayScenario.

(** Overlay 0 of an ARM9 target: eight bytes at [0x02100000], not
    compressed, with another flag bit set. *)
Definition ovte : Ovt.OvtEntry :=
  {| Ovt.ramAddress := 0x02100000; Ovt.ramSize := 8; Ovt.bssSize := 0;
     Ovt.sinitStart := 0; Ovt.sinitEnd := 0; Ovt.fileID := 0;
     Ovt.compressed := 0; Ovt.flag := 2 |}.

Definition pristine : list Z :=
  bytes_u32 0xE1A00000 ++ bytes_u32 0xE12FFF1E.

(** The first run: the overlay is in the ROM tree only, and the overlay
    table was backed up in memory. *)
Definition first_run : PatchMaker :=
  {| target_arm9 := true; backupDir := "backup";
     m_arm := Scenario.arm9;
     m_ovtEntries := [ovte]; m_bakOvtEntries := [ovte];
     m_loadedOverlays := ∅; m_autogenDataInfoForDest := ∅;
     m_elf := Scenario.no_elf;
     files := {| rom_tree := {[ "overlay9/overlay9_0.bin"%string := pristine ]};
                 work_tree := ∅ |} |}.

(** [ncp_jump_02100000_ov0], the body linked at [0x02020000]. *)
Definition jump : GenericPatchInfo :=
  {| srcAddress := 0x02020000; srcAddressOv := -1;
     destAddress := 0x02100000; destAddressOv := 0;
     patchType := PatchType.Jump; sectionIdx := -1; sectionSize := 0;
     isNcpSet := false; srcThumb := false; destThumb := false;
     symbol := "ncp_jump_02100000_ov0"; job := Scenario.patch_job |}.

Definition patched : list Z :=
  bytes_u32 (makeJumpOpCode armOpcodeB 0x02100000 0x02020000)
  ++ bytes_u32 0xE12FFF1E.

(** A later run on the files that a run left: nothing is loaded yet and
    the overlay table has no copy in memory. *)
Definition later_run (fs : FileSystem) : PatchMaker :=
  {| target_arm9 := true; backupDir := "backup";
     m_arm := Scenario.arm9;
     m_ovtEntries := [ovte]; m_bakOvtEntries := [];
     m_loadedOverlays := ∅; m_autogenDataInfoForDest := ∅;
     m_elf := Scenario.no_elf; files := fs |}.

End OverlayScenario.

Module BackupScenario.

(** The files that the first run of [OverlayScenario] leaves: the patch
    is applied and the overlays are saved. *)
Definition after_first_run : Result PatchMaker :=
  pm ← applyPatches Scenario.identity [OverlayScenario.jump]
                    OverlayScenario.first_run;
  Ok (saveOverlayBins pm).

End BackupScenario.

(** ** Notions for the autogen bound *)

(** How the parser files a record: but for an [Over] patch, the
    destination of the autogen region it writes to ([srcAddressOv]) is the
    destination of the region of its job. *)
Definition filedInRegion (p : GenericPatchInfo) : Prop :=
  (patchType p =? PatchType.Over)%N = false ->
  srcAddressOv p = BuildTarget.destination (region (job p)).

(** What the planner looks at in a record, and the resolver leaves as it
    is. *)
Definition samePlan (p p' : GenericPatchInfo) : Prop :=
  patchType p' = patchType p
  /\ srcThumb p' = srcThumb p
  /\ destThumb p' = destThumb p
  /\ srcAddressOv p' = srcAddressOv p
  /\ job p' = job p.

(** The bridge bytes written so far for destination [d]. *)
Definition written (d : Z) (pm : PatchMaker) : nat :=
  match m_autogenDataInfoForDest pm !! d with
  | Some info => List.length (data info)
  | None => 0%nat
  end.

(** The bridge bytes that the records of a list add for destination
    [d]. *)
Definition bridgesFor (d : Z) (patchInfo : list GenericPatchInfo) : nat :=
  list_sum
    (List.map (fun p => if srcAddressOv p =? d then bridgeSize p else 0%nat)
              patchInfo).

(** The region entry of one region after all patches, in closed form. *)
Definition planAll (patchInfo : list GenericPatchInfo) (r : LDSRegionEntry)
  : LDSRegionEntry :=
  fold_left
    (fun r info =>
       if (patchType info =? PatchType.Over)%N then r
       else planPatchInRegion info r)
    patchInfo r.

Module AutogenScenario.

(** An object of the main region with a hook at [0x02000000] and a jump
    at [0x02000004] to a THUMB function. *)
Definition object : Elf32 :=
  {| elf_sections := [];
     elf_symbols :=
       [ {| st_name := "ncp_hook_02000000"; st_value := 0;
            st_shndx := 1; st_type := STT_FUNC |};
         {| st_name := "ncp_jump_02000004"; st_value := 0x41;
            st_shndx := 1; st_type := STT_FUNC |} ] |}.

(** The linked ELF: the bodies at [0x02030000] and [0x02030041], the
    autogen region at [0x02030100]. *)
Definition linked : Elf32 :=
  {| elf_sections := [];
     elf_symbols :=
       [ {| st_name := "ncp_hook_02000000"; st_value := 0x02030000;
            st_shndx := 1; st_type := STT_FUNC |};
         {| st_name := "ncp_jump_02000004"; st_value := 0x02030041;
            st_shndx := 1; st_type := STT_FUNC |};
         {| st_name := "ncp_autogendata"; st_value := 0x02030100;
            st_shndx := 1; st_type := 0 |} ] |}.

Definition pm : PatchMaker :=
  {| target_arm9 := true; backupDir := "backup";
     m_arm := Scenario.arm9; m_ovtEntries := []; m_bakOvtEntries := [];
     m_loadedOverlays := ∅; m_autogenDataInfoForDest := ∅;
     m_elf := linked; files := Scenario.no_files |}.

Definition no_stoi (s : string) : option Z := None.

End AutogenScenario.

(** No bridge has been written yet. *)
Definition noBridges (m : gmap Z AutogenDataInfo) : Prop :=
  forall d info, m !! d = Some info -> data info = [].

(** * Further definitions *)

(** ** Reading a THUMB branch pair *)

(** The reading of the two halfwords of a THUMB [BL]/[BLX] pair as the
    processor does it: the low 11 bits of the first halfword are the high
    part of a signed 22-bit halfword offset, the low 11 bits of the second
    its low part, and the target is [F + 4 + 2 * offset].  It is the
    decoder against which [makeThumbJumpOpCode] is compared; the pair is
    packed as [makeThumbJumpOpCode] returns it, first halfword in the low
    half. *)
Definition thumbPairOffset (pair : Z) : Z :=
  let h0 := Z.land pair 0xFFFF in
  let h1 := Z.shiftr pair 16 in
  let off := Z.lor (Z.shiftl (Z.land h0 0x7FF) 11) (Z.land h1 0x7FF) in
  if Z.testbit off 21 then off - 2 ^ 22 else off.

Definition decodeThumbTarget (pair fromAddr : Z) : Z :=
  fromAddr + 4 + 2 * thumbPairOffset pair.

(** ** Label-declared records *)

(** The record is declared by a label. *)
Definition isLabelPatch (p : GenericPatchInfo) : bool := sectionIdx p =? -1.

Module GatherScenario.

(** A source file of the region of overlay 5.  Its object replaces
    eight bytes of overlay 3 by the section [.ncp_over_02000000_ov3]
    and declares, by a label, a jump at [0x02000004] of overlay 2. *)
Definition ov5_region : BuildTarget.Region :=
  {| BuildTarget.destination := 5;
     BuildTarget.mode := BuildTarget.Append;
     BuildTarget.address := 0;
     BuildTarget.length := 0x1000 |}.

Definition ov5_job : SourceFileJob :=
  {| srcFilePath := "source/ov5.cpp";
     objFilePath := "build/source/ov5.o";
     region := ov5_region |}.

Definition object : Elf32 :=
  {| elf_sections :=
       [ {| sh_name := ""; sh_addr := 0; sh_size := 0;
            sh_addralign := 0; sh_data := [] |};
         {| sh_name := ".ncp_over_02000000_ov3"; sh_addr := 0;
            sh_size := 8; sh_addralign := 4; sh_data := repeat 0 8 |} ];
     elf_symbols :=
       [ {| st_name := "ncp_jump_02000004_ov2"; st_value := 0;
            st_shndx := 2; st_type := STT_FUNC |} ] |}.

Definition over : GenericPatchInfo :=
  {| srcAddress := 0; srcAddressOv := 3;
     destAddress := 0x02000000; destAddressOv := 3;
     patchType := PatchType.Over; sectionIdx := 1; sectionSize := 8;
     isNcpSet := false; srcThumb := false; destThumb := false;
     symbol := ".ncp_over_02000000_ov3"; job := ov5_job |}.

Definition jump : GenericPatchInfo :=
  {| srcAddress := 0; srcAddressOv := 5;
     destAddress := 0x02000004; destAddressOv := 2;
     patchType := PatchType.Jump; sectionIdx := -1; sectionSize := 0;
     isNcpSet := false; srcThumb := false; destThumb := false;
     symbol := "ncp_jump_02000004_ov2"; job := ov5_job |}.

End GatherScenario.

(** ** The order of the regions ([createLinkerScript]) *)

(** The order that the [std::sort] of the regions leaves, with the
    comparator [a->destination > b->destination]: [a] may stand before
    [b].  Overlays come before the main binary. *)
Definition regionBefore (a b : BuildTarget.Region) : Prop :=
  BuildTarget.destination b <= BuildTarget.destination a.

Global Instance regionBefore_dec : RelDecision regionBefore :=
  fun a b => Z_le_dec (BuildTarget.destination b) (BuildTarget.destination a).

(** [std::sort] of the regions of the target.  [std::sort] leaves the
    order among regions of one destination open; the merge sort keeps
    them in the order of the target. *)
Definition sortRegions (regions : list BuildTarget.Region)
  : list BuildTarget.Region :=
  merge_sort regionBefore regions.

(** [regionEntries] when the linker script is written, from the regions
    of the target as they are declared. *)
Definition regionEntries (regions : list BuildTarget.Region)
           (patchInfo : list GenericPatchInfo) : list LDSRegionEntry :=
  planRegionEntries (sortRegions regions) patchInfo.

(** ** The region entries of the layout planner, in closed form *)

(** The records a region entry collects for the linker script: those filed
    in the region that are declared by a section. *)
Definition collectedBy (d : Z) (info : GenericPatchInfo) : bool :=
  inRegion d info && negb (sectionIdx info =? -1).

Definition regionEntryOf (patchInfo : list GenericPatchInfo)
           (region : BuildTarget.Region) : LDSRegionEntry :=
  {| dest := BuildTarget.destination region;
     lds_region := region;
     autogenDataSize :=
       wrap_size_t
         (Z.of_nat (bridgeBytes (BuildTarget.destination region) patchInfo));
     sectionPatches :=
       List.filter (collectedBy (BuildTarget.destination region)) patchInfo |}.

(** ** What the post-link resolver may change in a record *)

(** [p'] is [p] but for the source address, the section index and the
    symbol name. *)
Definition resolvedFrom (p p' : GenericPatchInfo) : Prop :=
  p' = set_resolved (srcAddress p') (sectionIdx p') (symbol p') p.

(** A record of the autogen region of a destination as the resolver
    creates it from an [ncp_autogendata] symbol: nothing written, the
    cursor at the start. *)
Definition freshAutogen (elf : Elf32) (info : AutogenDataInfo) : Prop :=
  data info = [] /\ curAddress info = address info
  /\ exists sym, In sym (elf_symbols elf)
                 /\ Str.starts_with "ncp_autogendata" (st_name sym) = true
                 /\ address info = st_value sym.

(** The records of [m'] are those of [m], unchanged, and fresh ones. *)
Definition extendsAutogen (elf : Elf32) (m m' : gmap Z AutogenDataInfo)
  : Prop :=
  (forall d info, m !! d = Some info -> m' !! d = Some info)
  /\ (forall d info, m' !! d = Some info ->
                     m !! d = Some info \/ freshAutogen elf info).

(** ** Reading the words of a bridge *)

(** The [k]-th 32-bit word of a little-endian buffer. *)
Definition wordAt (k : nat) (bs : list Z) : Z :=
  le_value (take 4 (drop (4 * k) bs)).

(** ** What the patch loop writes and what it leaves alone *)

(** The number of bytes the applier writes at [destAddress] for a
    record. *)
Definition footprint (p : GenericPatchInfo) : nat :=
  if (patchType p =? PatchType.Jump)%N then
    if destThumb p then 6%nat else 4%nat
  else if (patchType p =? PatchType.Call)%N then 4%nat
  else if (patchType p =? PatchType.Hook)%N then 4%nat
  else if (patchType p =? PatchType.Over)%N then Z.to_nat (sectionSize p)
  else 0%nat.

Definition sameShape (b b' : CodeBin) : Prop :=
  bin_ramAddress b' = bin_ramAddress b
  /\ List.length (bin_data b') = List.length (bin_data b).

(** What the patch loop keeps of the patch maker: the target, the ELF and
    the files; the place and the size of the main binary and of every
    overlay that is loaded, and the bytes captured at the first load of an
    overlay; the number of entries of the overlay table. *)
Definition keptByPatching (pm pm' : PatchMaker) : Prop :=
  target_arm9 pm' = target_arm9 pm
  /\ backupDir pm' = backupDir pm
  /\ m_elf pm' = m_elf pm
  /\ files pm' = files pm
  /\ sameShape (arm_bin (m_arm pm)) (arm_bin (m_arm pm'))
  /\ List.length (m_ovtEntries pm') = List.length (m_ovtEntries pm)
  /\ (forall id ov,
         m_loadedOverlays pm !! id = Some ov ->
         exists ov',
           m_loadedOverlays pm' !! id = Some ov'
           /\ backupData ov' = backupData ov
           /\ ov_id ov' = ov_id ov
           /\ sameShape (ov_bin ov) (ov_bin ov')).

(** The autogen records only grow: no destination appears or disappears,
    and a record keeps its address and the bytes it holds. *)
Definition autogenGrows (pm pm' : PatchMaker) : Prop :=
  (forall d info,
      m_autogenDataInfoForDest pm !! d = Some info ->
      exists info' suffix,
        m_autogenDataInfoForDest pm' !! d = Some info'
        /\ address info' = address info
        /\ data info' = data info ++ suffix)
  /\ (forall d, m_autogenDataInfoForDest pm !! d = None ->
                m_autogenDataInfoForDest pm' !! d = None).

(** The cursor of an autogen record stands at the end of the bytes
    written (addresses are [u32]). *)
Definition cursorAtEnd (info : AutogenDataInfo) : Prop :=
  wrap32 (curAddress info)
  = wrap32 (address info + Z.of_nat (List.length (data info))).

Definition cursorsAtEnd (m : gmap Z AutogenDataInfo) : Prop :=
  forall d info, m !! d = Some info -> cursorAtEnd info.

Module Arm7Scenario.

(** The patch maker of the first scenario, for an ARM7 target. *)
Definition pm : PatchMaker :=
  {| target_arm9 := false; backupDir := "backup";
     m_arm := Scenario.arm9; m_ovtEntries := []; m_bakOvtEntries := [];
     m_loadedOverlays := ∅; m_autogenDataInfoForDest := ∅;
     m_elf := Scenario.no_elf; files := Scenario.no_files |}.

End Arm7Scenario.

Module OverScenario.

(** The patch maker of the first scenario with the object of the parser
    scenario as its ELF: section 1 holds eight zero bytes. *)
Definition pm : PatchMaker :=
  {| target_arm9 := true; backupDir := "backup";
     m_arm := Scenario.arm9; m_ovtEntries := []; m_bakOvtEntries := [];
     m_loadedOverlays := ∅; m_autogenDataInfoForDest := ∅;
     m_elf := ParserScenario.object; files := Scenario.no_files |}.

End OverScenario.

(** ** Backups across the patch loop *)

(** Every loaded overlay whose backup file exists was loaded from it: it
    holds no bytes captured at a first load. *)
Definition backedUpNotCaptured (pm : PatchMaker) : Prop :=
  forall id ov,
    m_loadedOverlays pm !! id = Some ov ->
    work_tree (files pm)
      !! backupPath pm (overlayBinName (target_arm9 pm) id) <> None ->
    backupData ov = [].

Module LaterRunScenario.

(** A later run of the overlay scenario on the files that its first run
    left: the ROM file and the backup file of overlay 0 both hold the
    patched bytes. *)
Definition pm : PatchMaker :=
  OverlayScenario.later_run
    {| rom_tree := {[ "overlay9/overlay9_0.bin"%string
                      := OverlayScenario.patched ]};
       work_tree := {[ "backup/overlay9/overlay9_0.bin"%string
                       := OverlayScenario.patched ]} |}.

End LaterRunScenario.

(** ** The name a record is matched by *)

(** The name the resolver compares with the symbols of the linked ELF: the
    symbol of a label-declared record, and the symbol without its first
    character (the dot of the section name) of a section-declared one. *)
Definition labelName (p : GenericPatchInfo) : string :=
  if sectionIdx p =? -1 then symbol p else Str.substr_from 1 (symbol p).

(** ** The address and the installation of the new code of an overlay

    [fetchNewcodeAddr] computes, before the link, the address at which the
    new code of every destination will live; after the loop over the
    patches, [applyPatchesToRom] installs the new code of every
    destination.  The installation in the main binary goes through the
    module parameters and the autoload list of [ArmBin], which are not
    part of the sources at hand; the installation in an overlay is
    modelled here. *)

(** [m_ovtEntries[dest]], [dest] an [int]; an index outside the table is
    an error, as in [loadOverlayBin]. *)
Definition ovtEntryOf (dest : Z) (pm : PatchMaker) : Result Ovt.OvtEntry :=
  match m_ovtEntries pm !! N.to_nat (size_t_of_int dest) with
  | Some ovtEntry => Ok ovtEntry
  | None => Throw index_out_of_range
  end.

(** Modelled from the spec: the address and the sizes of an [OvtEntry]
    and the address of a [BuildTarget::Region] are [u32] (ndsbin/ and
    buildtarget.hpp are not part of the sources at hand).  The [switch]
    of [fetchNewcodeAddr] for a region of an overlay; the sum is computed
    on [u32]. *)
Definition newcodeAddrOfRegion (region : BuildTarget.Region) (pm : PatchMaker)
  : Result Z :=
  let dest := BuildTarget.destination region in
  match BuildTarget.mode region with
  | BuildTarget.Append =>
      ovtEntry ← ovtEntryOf dest pm;
      Ok (add32 (add32 (Ovt.ramAddress ovtEntry) (Ovt.ramSize ovtEntry))
                (Ovt.bssSize ovtEntry))
  | BuildTarget.Replace =>
      if BuildTarget.address region =? 0xFFFFFFFF then
        ovtEntry ← ovtEntryOf dest pm;
        Ok (Ovt.ramAddress ovtEntry)
      else Ok (BuildTarget.address region)
  | BuildTarget.Create => Ok (BuildTarget.address region)
  end.

(** The body of the loop over the regions of the target. *)
Definition fetchNewcodeAddrOf (pm : PatchMaker) (region : BuildTarget.Region)
           (newcodeAddrForDest : gmap Z Z) : Result (gmap Z Z) :=
  let dest := BuildTarget.destination region in
  if negb (dest =? -1) then
    addr ← newcodeAddrOfRegion region pm;
    Ok (<[dest := addr]> newcodeAddrForDest)
  else Ok newcodeAddrForDest.

(** [m_newcodeAddrForDest] after [fetchNewcodeAddr] in a fresh patch
    maker, for a target with the given [arenaLo] and regions. *)
Definition fetchNewcodeAddr (arenaLo : Z) (regions : list BuildTarget.Region)
           (pm : PatchMaker) : Result (gmap Z Z) :=
  a ← CodeBin_read_u32 (arm_bin (m_arm pm)) arenaLo;
  forEach (fetchNewcodeAddrOf pm) regions (<[-1 := a]> ∅).

(** [NewcodePatch]: [binData] and [bssData] point into the linked ELF and
    are given here by the bytes they address; the sizes and alignments
    are [std::size_t]. *)
Record NewcodePatch := {
  binData : list Z;
  bssData : list Z;
  binSize : Z;
  binAlign : Z;
  bssSize : Z;
  bssAlign : Z
}.

(** [std::vector<u8>::resize]. *)
Definition resize (n : nat) (buf : list Z) : list Z :=
  take n buf ++ repeat 0 (n - List.length buf).

(** The lambda [writeNewcode] applied to [&buf[off]]: the new code but
    for its last [autogenDataSize] bytes is copied from [binData], and the
    autogen data of the destination, when there is some, after it.  The
    count [binSize - autogenDataSize] is computed on [std::size_t].  (The
    copies of the source are defined only inside the buffers; the model
    copies what there is.) *)
Definition writeNewcode (newcode : NewcodePatch)
           (autogenDataInfo : option AutogenDataInfo)
           (off : nat) (buf : list Z) : list Z :=
  let autogenData :=
    match autogenDataInfo with
    | Some info => data info
    | None => []
    end in
  let autogenDataSize := Z.of_nat (List.length autogenData) in
  let n := Z.to_nat (wrap_size_t (binSize newcode - autogenDataSize)) in
  let buf := splice off (take n (binData newcode)) buf in
  if negb (autogenDataSize =? 0) then splice (off + n) autogenData buf
  else buf.

Inductive install_exception :=
| patching (e : ncp_exception)
| region_not_found (dest : Z)
| overlay_exceeds_length (dest length total : Z)
| create_not_supported.

Definition set_ovtEntries (ovt : list Ovt.OvtEntry) (pm : PatchMaker)
  : PatchMaker :=
  set_ovt ovt (m_bakOvtEntries pm) pm.

Definition set_ov_data (bytes : list Z) (ov : OverlayBin) : OverlayBin :=
  set_ov_bin {| bin_data := bytes;
                bin_ramAddress := bin_ramAddress (ov_bin ov) |} ov.

(** The overlay and its table entry are written through a pointer and a
    reference. *)
Definition putOverlay (dest : Z) (bytes : list Z) (ovtEntry : Ovt.OvtEntry)
           (pm : PatchMaker) : PatchMaker :=
  set_ovtEntries
    (<[N.to_nat (size_t_of_int dest) := ovtEntry]> (m_ovtEntries pm))
    (set_loadedOverlays
       (alter (set_ov_data bytes) (size_t_of_int dest) (m_loadedOverlays pm))
       pm).

Section Installer.

Variable decompress : list Z -> list Z.

(** [OverlayBin* bin = getOverlay(dest); auto& ovtEntry = m_ovtEntries[dest];] *)
Definition overlayAndEntry (dest : Z) (pm : PatchMaker)
  : Result (OverlayBin * Ovt.OvtEntry * PatchMaker) :=
  r ← getOverlay decompress (size_t_of_int dest) pm;
  ovtEntry ← ovtEntryOf dest (snd r);
  Ok (fst r, ovtEntry, snd r).

(** Modelled from the spec: the sizes stored in an [OvtEntry] are
    [u32], and [region->length] is an integer that the comparison with
    a [std::size_t] converts to [std::size_t] (ndsbin/ and
    buildtarget.hpp are not part of the sources at hand).
    [case BuildTarget::Mode::Append]. *)
Definition installAppend (region : BuildTarget.Region) (dest : Z)
           (newcode : NewcodePatch) (bin : OverlayBin)
           (ovtEntry : Ovt.OvtEntry) (pm : PatchMaker)
  : install_exception + PatchMaker :=
  let autogenDataInfo := m_autogenDataInfoForDest pm !! dest in
  let buf := bin_data (ov_bin bin) in
  let szData := Z.of_nat (List.length buf) in
  let totalOvSize :=
    wrap_size_t (szData + Ovt.bssSize ovtEntry + binSize newcode
                 + bssSize newcode) in
  if wrap_size_t (BuildTarget.length region) <? totalOvSize then
    inl (overlay_exceeds_length dest (BuildTarget.length region) totalOvSize)
  else if 0 <? binSize newcode then
    let newSzData :=
      wrap_size_t (szData + Ovt.bssSize ovtEntry + binSize newcode) in
    let buf := resize (Z.to_nat newSzData) buf in
    let buf :=
      splice (Z.to_nat szData)
             (repeat 0 (Z.to_nat (Ovt.bssSize ovtEntry))) buf in
    let buf :=
      writeNewcode newcode autogenDataInfo
                   (Z.to_nat (szData + Ovt.bssSize ovtEntry)) buf in
    inr (putOverlay dest buf
           {| Ovt.ramAddress := Ovt.ramAddress ovtEntry;
              Ovt.ramSize := wrap32 newSzData;
              Ovt.bssSize := wrap32 (bssSize newcode);
              Ovt.sinitStart := Ovt.sinitStart ovtEntry;
              Ovt.sinitEnd := Ovt.sinitEnd ovtEntry;
              Ovt.fileID := Ovt.fileID ovtEntry;
              Ovt.compressed := 0;
              Ovt.flag := 0 |}
           pm)
  else
    inr (putOverlay dest buf
           {| Ovt.ramAddress := Ovt.ramAddress ovtEntry;
              Ovt.ramSize := Ovt.ramSize ovtEntry;
              Ovt.bssSize :=
                wrap32 (Ovt.bssSize ovtEntry + bssSize newcode);
              Ovt.sinitStart := Ovt.sinitStart ovtEntry;
              Ovt.sinitEnd := Ovt.sinitEnd ovtEntry;
              Ovt.fileID := Ovt.fileID ovtEntry;
              Ovt.compressed := 0;
              Ovt.flag := 0 |}
           pm).

(** Modelled from the spec: as for [installAppend].
    [case BuildTarget::Mode::Replace]. *)
Definition installReplace (region : BuildTarget.Region) (dest : Z)
           (newcodeAddr : Z) (newcode : NewcodePatch) (bin : OverlayBin)
           (ovtEntry : Ovt.OvtEntry) (pm : PatchMaker)
  : install_exception + PatchMaker :=
  let autogenDataInfo := m_autogenDataInfoForDest pm !! dest in
  let totalOvSize := wrap_size_t (binSize newcode + bssSize newcode) in
  if wrap_size_t (BuildTarget.length region) <? totalOvSize then
    inl (overlay_exceeds_length dest (BuildTarget.length region) totalOvSize)
  else
    let buf := bin_data (ov_bin bin) in
    let buf :=
      if binSize newcode =? 0 then []
      else writeNewcode newcode autogenDataInfo 0
                        (resize (Z.to_nat (binSize newcode)) buf) in
    inr (putOverlay dest buf
           {| Ovt.ramAddress := newcodeAddr;
              Ovt.ramSize := wrap32 (binSize newcode);
              Ovt.bssSize := wrap32 (bssSize newcode);
              Ovt.sinitStart := 0;
              Ovt.sinitEnd := 0;
              Ovt.fileID := Ovt.fileID ovtEntry;
              Ovt.compressed := 0;
              Ovt.flag := 0 |}
           pm).

(** The body of the loop over [m_newcodeDataForDest] for an overlay
    ([dest != -1]); [regions] are the regions of the target and
    [newcodeAddr] is [m_newcodeAddrForDest[dest]]. *)
Definition installNewcode (regions : list BuildTarget.Region)
           (newcodeAddr : Z) (dest : Z) (newcode : NewcodePatch)
           (pm : PatchMaker) : install_exception + PatchMaker :=
  match List.find (fun r => BuildTarget.destination r =? dest) regions with
  | None => inl (region_not_found dest)
  | Some region =>
      match BuildTarget.mode region with
      | BuildTarget.Append =>
          match overlayAndEntry dest pm with
          | Throw e => inl (patching e)
          | Ok (bin, ovtEntry, pm) =>
              installAppend region dest newcode bin ovtEntry pm
          end
      | BuildTarget.Replace =>
          match overlayAndEntry dest pm with
          | Throw e => inl (patching e)
          | Ok (bin, ovtEntry, pm) =>
              installReplace region dest newcodeAddr newcode bin ovtEntry pm
          end
      | BuildTarget.Create => inl create_not_supported
      end
  end.

End Installer.

Module AppendScenario.

(** Overlay 3 of the specification's example, scaled down: 16 bytes of
    data and 4 of BSS at [0x02100000]. *)
Definition ovte : Ovt.OvtEntry :=
  {| Ovt.ramAddress := 0x02100000; Ovt.ramSize := 16; Ovt.bssSize := 4;
     Ovt.sinitStart := 0; Ovt.sinitEnd := 0; Ovt.fileID := 3;
     Ovt.compressed := 0; Ovt.flag := 0 |}.

Definition region : BuildTarget.Region :=
  {| BuildTarget.destination := 3;
     BuildTarget.mode := BuildTarget.Append;
     BuildTarget.address := 0;
     BuildTarget.length := 0x100 |}.

Definition pm : PatchMaker :=
  {| target_arm9 := true; backupDir := "backup";
     m_arm := Scenario.arm9;
     m_ovtEntries := [ovte; ovte; ovte; ovte]; m_bakOvtEntries := [];
     m_loadedOverlays := ∅;
     m_autogenDataInfoForDest :=
       {[ 3 := {| address := 0x0210001C; curAddress := 0x02100020;
                  data := [0xAA; 0xBB; 0xCC; 0xDD] |} ]};
     m_elf := Scenario.no_elf;
     files := {| rom_tree := {[ "overlay9/overlay9_3.bin"%string
                                := repeat 0x11 16 ]};
                 work_tree := ∅ |} |}.

(** Eight bytes of new code, the last four reserved for the autogen
    data, and 8 bytes of BSS. *)
Definition newcode : NewcodePatch :=
  {| binData := [1; 2; 3; 4; 0; 0; 0; 0]; bssData := [];
     binSize := 8; binAlign := 4; bssSize := 8; bssAlign := 4 |}.

End AppendScenario.

(** The autogen data of a destination, empty when it has no record. *)
Definition autogenDataOf (dest : Z) (pm : PatchMaker) : list Z :=
  match m_autogenDataInfoForDest pm !! dest with
  | Some info => data info
  | None => []
  end.

(** The new code as it is installed: the linked bytes but for the last
    ones, which are reserved for the autogen data, and the autogen data. *)
Definition newcodeBytes (newcode : NewcodePatch) (autogenData : list Z)
  : list Z :=
  take (Z.to_nat (binSize newcode) - List.length autogenData)
       (binData newcode)
  ++ autogenData.

Module ReplaceScenario.

(** A region that replaces overlay 3 at its own RAM address. *)
Definition region : BuildTarget.Region :=
  {| BuildTarget.destination := 3;
     BuildTarget.mode := BuildTarget.Replace;
     BuildTarget.address := 0xFFFFFFFF;
     BuildTarget.length := 0x100 |}.

End ReplaceScenario.

Module SetScenario.

(** [ncp_set(hook, 0x02000000)]: the label [ncp_sethook_02000000] is a
    word of the [.ncp_set] section that holds the address of the hook
    function, [0x02030000]. *)
Definition sethook : GenericPatchInfo :=
  {| srcAddress := 0; srcAddressOv := -1;
     destAddress := 0x02000000; destAddressOv := -1;
     patchType := PatchType.Hook; sectionIdx := -1; sectionSize := 0;
     isNcpSet := true; srcThumb := false; destThumb := false;
     symbol := "ncp_sethook_02000000"; job := Scenario.patch_job |}.

Definition label : Elf32_Sym :=
  {| st_name := "ncp_sethook_02000000"; st_value := 0x02040004;
     st_shndx := 2; st_type := 0 |}.

Definition text : Elf32_Shdr :=
  {| sh_name := ".arm.text"; sh_addr := 0x02030000; sh_size := 8;
     sh_addralign := 4; sh_data := repeat 0 8 |}.

Definition ncp_set : Elf32_Shdr :=
  {| sh_name := ".ncp_set"; sh_addr := 0x02040000; sh_size := 8;
     sh_addralign := 4;
     sh_data := bytes_u32 0 ++ bytes_u32 0x02030000 |}.

Definition pm : PatchMaker :=
  {| target_arm9 := true; backupDir := "backup";
     m_arm := Scenario.arm9; m_ovtEntries := []; m_bakOvtEntries := [];
     m_loadedOverlays := ∅; m_autogenDataInfoForDest := ∅;
     m_elf := {| elf_sections := [text; ncp_set];
                 elf_symbols := [label] |};
     files := Scenario.no_files |}.

End SetScenario.
(** * Properties *)

(** ** Properties of the encoders *)

Section Encoders.

Lemma wrap32_range z : 0 <= wrap32 z < 2 ^ 32.
Proof. unfold wrap32. apply Z.mod_pos_bound. lia. Qed.

Lemma wrap32_small z : 0 <= z < 2 ^ 32 -> wrap32 z = z.
Proof. intros. unfold wrap32. apply Z.mod_small. assumption. Qed.

Lemma land_imm24_range z : 0 <= Z.land z 0xFFFFFF < 2 ^ 24.
Proof.
  change 0xFFFFFF with (Z.ones 24). rewrite Z.land_ones by lia.
  apply Z.mod_pos_bound. lia.
Qed.

Lemma shiftr_imm24 z : Z.shiftr (Z.land z 0xFFFFFF) 24 = 0.
Proof.
  pose proof (land_imm24_range z).
  rewrite Z.shiftr_div_pow2 by lia. apply Z.div_small. assumption.
Qed.

End Encoders.

(** C9.  For every base opcode and every pair of addresses the opcode built
    by [makeJumpOpCode] keeps the top eight bits of the base: the offset is
    masked to 24 bits before it is or-ed in. *)
Theorem makeJumpOpCode_top_byte (opCode fromAddr toAddr : Z) :
  Z.shiftr (makeJumpOpCode opCode fromAddr toAddr) 24 = Z.shiftr opCode 24
  /\ Z.land (makeJumpOpCode opCode fromAddr toAddr) 0xFF000000
     = Z.land opCode 0xFF000000.
Proof.
  unfold makeJumpOpCode.
  set (off := sub32 (Z.shiftr (sub32 toAddr fromAddr) 2) 2).
  split.
  - rewrite Z.shiftr_lor, shiftr_imm24. apply Z.lor_0_r.
  - rewrite Z.land_lor_distr_l.
    replace (Z.land (Z.land off 0xFFFFFF) 0xFF000000) with 0.
    + apply Z.lor_0_r.
    + rewrite <- Z.land_assoc. change (Z.land 0xFFFFFF 0xFF000000) with 0.
      symmetry. apply Z.land_0_r.
Qed.

Section BranchDecoding.

Lemma land_lor_imm24 base x :
  Z.land base 0xFFFFFF = 0 -> 0 <= x < 2 ^ 24 ->
  Z.land (Z.lor base x) 0xFFFFFF = x.
Proof.
  intros Hb Hx. rewrite Z.land_lor_distr_l, Hb, Z.lor_0_l.
  change 0xFFFFFF with (Z.ones 24). rewrite Z.land_ones by lia.
  apply Z.mod_small. assumption.
Qed.

Lemma testbit23_imm24 x :
  0 <= x < 2 ^ 24 -> Z.testbit x 23 = (2 ^ 23 <=? x).
Proof.
  intros Hx. rewrite Z.testbit_eqb by lia.
  change (2 ^ 24) with 16777216 in Hx. change (2 ^ 23) with 8388608.
  destruct (Z.leb_spec 8388608 x);
    [apply Z.eqb_eq | apply Z.eqb_neq];
    Z.to_euclidean_division_equations; lia.
Qed.

Lemma encoded_imm24 F T :
  is_u32 F -> is_u32 T -> F mod 4 = 0 -> T mod 4 = 0 ->
  Z.land (sub32 (Z.shiftr (sub32 T F) 2) 2) 0xFFFFFF
  = ((T - F) / 4 - 2) mod 2 ^ 24.
Proof.
  unfold is_u32, sub32, wrap32. intros HF HT HFa HTa.
  change 0xFFFFFF with (Z.ones 24). rewrite Z.land_ones by lia.
  rewrite Z.shiftr_div_pow2 by lia.
  change (2 ^ 32) with 4294967296 in *. change (2 ^ 24) with 16777216.
  change (2 ^ 2) with 4.
  Z.to_euclidean_division_equations. lia.
Qed.

End BranchDecoding.

(** C8 (as amended).  For word-aligned 32-bit addresses [F] and [T] with
    [-32 MiB + 8 <= T - F <= 32 MiB + 4], decoding the opcode that
    [makeJumpOpCode 0xEA000000 F T] builds recovers exactly [T]. *)
Theorem decode_makeJumpOpCode (F T : Z) :
  is_u32 F -> is_u32 T -> F mod 4 = 0 -> T mod 4 = 0 ->
  - 2 ^ 25 + 8 <= T - F <= 2 ^ 25 + 4 ->
  decodeBranchTarget (makeJumpOpCode armOpcodeB F T) F = T.
Proof.
  intros HF HT HFa HTa Hrange.
  unfold decodeBranchTarget, signed_imm24, makeJumpOpCode.
  pose proof (land_imm24_range (sub32 (Z.shiftr (sub32 T F) 2) 2)) as Himm.
  rewrite land_lor_imm24 by (reflexivity || exact Himm).
  rewrite testbit23_imm24 by exact Himm.
  rewrite encoded_imm24 in * by assumption.
  rewrite Z.shiftl_mul_pow2 by lia.
  change (2 ^ 25) with 33554432 in Hrange.
  change (2 ^ 24) with 16777216 in *. change (2 ^ 23) with 8388608.
  change (2 ^ 2) with 4.
  destruct (Z.leb_spec 8388608 (((T - F) / 4 - 2) mod 16777216));
    Z.to_euclidean_division_equations; lia.
Qed.

(** The amended range is met by the branch of the first scenario. *)
Lemma decode_makeJumpOpCode_witness :
  decodeBranchTarget (makeJumpOpCode armOpcodeB 0x02000000 0x02020000)
                     0x02000000 = 0x02020000.
Proof.
  apply (decode_makeJumpOpCode 0x02000000 0x02020000);
    unfold is_u32; try reflexivity; lia.
Defined.

(** C8 (as stated) fails just inside the 32 MiB bound: for
    [F = 0x04000000] and [T = 0x02000004], where
    [T - F = -(32 MiB - 4)], the offset [-2^23 - 1] does not fit the
    signed 24-bit field and the decoder lands [2^26] bytes away. *)
Lemma decode_branch_counterexample :
  is_u32 0x04000000 /\ is_u32 0x02000004
  /\ 0x04000000 mod 4 = 0 /\ 0x02000004 mod 4 = 0
  /\ - 2 ^ 25 < 0x02000004 - 0x04000000 < 2 ^ 25
  /\ decodeBranchTarget (makeJumpOpCode armOpcodeB 0x04000000 0x02000004)
                        0x04000000 = 0x06000004
  /\ decodeBranchTarget (makeJumpOpCode armOpcodeB 0x04000000 0x02000004)
                        0x04000000 <> 0x02000004.
Proof.
  unfold is_u32.
  repeat split; try reflexivity; try lia; vm_compute; discriminate.
Qed.

(** ** The directive parser *)

Section ParserFacts.

Variable addrToInt : string -> option Z.

Lemma clear_low_bit_lor x :
  Z.land (Z.lor x 1) 0xFFFFFFFE = Z.land x 0xFFFFFFFE.
Proof.
  rewrite Z.land_lor_distr_l. change (Z.land 1 0xFFFFFFFE) with 0.
  apply Z.lor_0_r.
Qed.

Lemma low_bit_lor x : Z.land (Z.lor x 1) 1 = 1.
Proof.
  rewrite Z.land_lor_distr_l. change (Z.land 1 1) with 1.
  apply Z.bits_inj'. intros n Hn. rewrite Z.lor_spec, Z.land_spec.
  destruct (Z.eq_dec n 0) as [-> | Hne].
  - rewrite orb_true_r. reflexivity.
  - rewrite (Z.bits_above_log2 1 n) by (simpl; lia).
    rewrite andb_false_r. reflexivity.
Qed.

Lemma low_bit_cleared x : Z.land (Z.land x 0xFFFFFFFE) 1 = 0.
Proof.
  rewrite <- Z.land_assoc. change (Z.land 0xFFFFFFFE 1) with 0.
  apply Z.land_0_r.
Qed.

End ParserFacts.

(** C5 (as amended).  For a directive whose kind carries the [t] prefix
    ([tjump], [tcall], [thook], [tsetjump], [tsetcall], [tsethook]) every
    patch record that the parser builds has the underlying kind, is a
    set-style record exactly for the [tset] kinds, has [destThumb] on, holds
    the address written in the name of the directive with its low bit
    cleared, and takes [srcThumb] from the low bit of the declaring
    symbol's value, not from the prefix. *)
Theorem parseSymbol_thumb_prefix
        (addrToInt : string -> option Z) (srcFileJob : SourceFileJob)
        (symbolName : string) (symbolAddr sectionIdx sectionSize : Z)
        (k : N) (p : GenericPatchInfo) :
  directiveKind symbolName sectionIdx = Some k ->
  (PatchType.TJump <= k <= PatchType.TSetHook)%N ->
  parseSymbol addrToInt srcFileJob symbolName symbolAddr sectionIdx sectionSize
  = Patch p ->
  patchType p = underlyingKind k
  /\ isNcpSet p = (PatchType.TSetJump <=? k)%N
  /\ destThumb p = true
  /\ Z.land (destAddress p) 1 = 0
  /\ (exists a, directiveAddress addrToInt symbolName sectionIdx = Some a
                /\ destAddress p = Z.land (wrap32 a) 0xFFFFFFFE)
  /\ srcThumb p = negb (Z.land symbolAddr 1 =? 0).
Proof.
  unfold directiveKind, directiveAddress, parseSymbol.
  destruct (Str.find Str.underscore _ 0%nat) as [e|]; [|discriminate].
  intros Hk Hrange. rewrite Hk.
  assert (Hcases : (k = 8 \/ k = 9 \/ k = 10 \/ k = 11 \/ k = 12 \/ k = 13)%N)
    by (unfold PatchType.TJump, PatchType.TSetHook in Hrange; lia).
  destruct Hcases as [-> | [-> | [-> | [-> | [-> | ->]]]]]; cbn [N.eqb andb];
    cbv beta iota zeta delta
        [PatchType.Over PatchType.RtRepl PatchType.TJump PatchType.THook
         PatchType.TSetJump PatchType.TSetHook PatchType.SetJump
         PatchType.SetHook PatchType.Jump N.eqb N.leb N.compare N.sub
         Pos.eqb Pos.compare Pos.compare_cont Pos.sub_mask Pos.double_mask
         Pos.succ_double_mask Pos.double_pred_mask Pos.pred_double
         andb orb negb underlyingKind PatchType.TCall PatchType.TSetCall
         PatchType.SetCall PatchType.Call PatchType.Hook];
    (destruct (Str.find Str.underscore _ (S e)) as [e'|];
     [ destruct (addrToInt _) as [a|]; [|discriminate];
       destruct (Str.starts_with _ _); [|discriminate];
       destruct (addrToInt _) as [ov|]; [|discriminate]
     | destruct (addrToInt _) as [a|]; [|discriminate] ];
     intros [= <-]; cbn [patchType isNcpSet destThumb destAddress srcThumb];
     rewrite low_bit_lor, clear_low_bit_lor, low_bit_cleared;
     repeat split; eauto).
Qed.

(** The label [ncp_tjump_02000100] on a symbol of even value is such a
    directive. *)
Lemma parseSymbol_thumb_prefix_witness :
  directiveKind "ncp_tjump_02000100" (-1) = Some PatchType.TJump
  /\ parseSymbol addrToInt_hex Scenario.patch_job "ncp_tjump_02000100"
                 0x02020000 (-1) 0 = Patch ParserScenario.tjump
  /\ patchType ParserScenario.tjump = underlyingKind PatchType.TJump
  /\ isNcpSet ParserScenario.tjump
     = (PatchType.TSetJump <=? PatchType.TJump)%N
  /\ destThumb ParserScenario.tjump = true
  /\ Z.land (destAddress ParserScenario.tjump) 1 = 0
  /\ (exists a, directiveAddress addrToInt_hex "ncp_tjump_02000100" (-1)
                = Some a
                /\ destAddress ParserScenario.tjump
                   = Z.land (wrap32 a) 0xFFFFFFFE)
  /\ srcThumb ParserScenario.tjump = negb (Z.land 0x02020000 1 =? 0).
Proof.
  split; [reflexivity|]. split; [reflexivity|].
  apply (parseSymbol_thumb_prefix addrToInt_hex Scenario.patch_job
           "ncp_tjump_02000100" 0x02020000 (-1) 0 PatchType.TJump
           ParserScenario.tjump);
    [reflexivity | unfold PatchType.TJump, PatchType.TSetHook; lia
     | reflexivity].
Defined.

(** C5 (as stated) fails: the scan of an object that declares
    [ncp_tjump_02000100] on a function of even address yields one record,
    whose [destThumb] is on (not forced off), whose [srcThumb] is off (the
    source is not marked THUMB) and whose [destAddress] has its low bit
    clear. *)
Lemma parser_thumb_prefix_counterexample :
  exists g p,
    gatherInfoFromObjects addrToInt_hex
      [(Scenario.patch_job, Some ParserScenario.object)] = Ok g
    /\ m_patchInfo g = [p]
    /\ directiveKind (symbol p) (sectionIdx p) = Some PatchType.TJump
    /\ patchType p = PatchType.Jump
    /\ destThumb p = true
    /\ srcThumb p = false
    /\ destAddress p = 0x02000100
    /\ ~ (srcThumb p = true /\ destThumb p = false
          /\ Z.land (destAddress p) 1 = 1).
Proof.
  exists {| m_patchInfo := [ParserScenario.tjump]; m_rtreplPatches := [];
            m_destWithNcpSet := []; m_jobsWithNcpSet := [];
            m_externSymbols := ["ncp_tjump_02000100"%string];
            m_warnings := [] |}, ParserScenario.tjump.
  repeat split; try reflexivity.
  intros (H & _). discriminate H.
Qed.

(** ** The overlap check *)

Section OverlapCheck.

Lemma Util_overlaps_iff x1 x2 y1 y2 :
  Util_overlaps x1 x2 y1 y2 = true
  <-> exists x, x1 <= x < x2 /\ y1 <= x < y2.
Proof.
  unfold Util_overlaps. rewrite Z.ltb_lt. split.
  - intros H. exists (Z.max x1 y1). lia.
  - intros (x & H1 & H2). lia.
Qed.

Lemma range_end_no_wrap p :
  rangeInAddressSpace p ->
  add32 (destAddress p) (overlapSize p) = destAddress p + specSize p.
Proof.
  unfold rangeInAddressSpace, add32, overlapSize, specSize, wrap32.
  intros [_ H]. rewrite Z.add_mod_idemp_r by lia.
  apply Z.mod_small. exact H.
Qed.

Lemma overlapTest_iff a b :
  rangeInAddressSpace a -> rangeInAddressSpace b ->
  overlapTest a b = true <-> rangesOverlap a b.
Proof.
  intros Ha Hb. unfold overlapTest, rangesOverlap.
  rewrite andb_true_iff, Z.eqb_eq, Util_overlaps_iff.
  rewrite !range_end_no_wrap by assumption. reflexivity.
Qed.

Lemma overlapInner_closed a bs log found :
  overlapInner a bs (log, found)
  = (log ++ List.map (mkReport a) (List.filter (overlapTest a) bs),
     found || negb (Nat.eqb (List.length (List.filter (overlapTest a) bs)) 0)).
Proof.
  unfold overlapInner. revert log found.
  induction bs as [|b bs IH]; intros log found; simpl.
  - rewrite app_nil_r, orb_false_r. reflexivity.
  - destruct (overlapTest a b); simpl.
    + rewrite IH. rewrite <- app_assoc. simpl. rewrite orb_true_r.
      fold (mkReport a b). destruct (List.filter _ bs); reflexivity.
    + apply IH.
Qed.

Lemma overlapOuter_closed ps log found :
  overlapOuter ps (log, found)
  = (log ++ reportsOf ps,
     found || negb (Nat.eqb (List.length (reportsOf ps)) 0)).
Proof.
  revert log found. induction ps as [|a ps IH]; intros log found; simpl.
  - rewrite app_nil_r, orb_false_r. reflexivity.
  - rewrite overlapInner_closed, IH, <- app_assoc. f_equal.
    rewrite List.length_app, List.length_map.
    destruct (List.filter (overlapTest a) ps); simpl.
    + rewrite orb_false_r. reflexivity.
    + rewrite orb_true_r. reflexivity.
Qed.

Lemma In_reportsOf ps r :
  In r (reportsOf ps)
  <-> exists (i j : nat) a b,
        (i < j)%nat /\ ps !! i = Some a /\ ps !! j = Some b
        /\ overlapTest a b = true /\ r = mkReport a b.
Proof.
  induction ps as [|a ps IH]; simpl.
  - split; [intros [] | intros (i & j & a & b & _ & H & _); discriminate].
  - rewrite in_app_iff, in_map_iff, IH. split.
    + intros [(b & <- & Hb) | (i & j & a' & b & Hij & Hi & Hj & Ht & ->)].
      * apply filter_In in Hb as [Hin Ht].
        apply list_elem_of_In, list_elem_of_lookup in Hin as [j Hj].
        exists 0%nat, (S j), a, b. repeat split; auto. lia.
      * exists (S i), (S j), a', b. repeat split; auto. lia.
    + intros (i & j & a' & b & Hij & Hi & Hj & Ht & ->).
      destruct j as [|j]; [lia|]. simpl in Hj.
      destruct i as [|i]; simpl in Hi.
      * injection Hi as <-. left. exists b. split; [reflexivity|].
        apply filter_In. split; [|exact Ht].
        apply list_elem_of_In, list_elem_of_lookup. eauto.
      * right. exists i, j, a', b. repeat split; auto. lia.
Qed.

End OverlapCheck.

(** C2 (as amended).  When no range wraps around the 32-bit address space,
    the overlap check of the post-link resolver raises its fatal error if
    and only if two distinct patch records with the same [destAddressOv]
    have overlapping ranges [[destAddress, destAddress + size)] ([size] the
    section size of an [Over] patch, 4 otherwise); the log written before
    the error holds exactly one report per offending pair, and without an
    offending pair the check passes. *)
Theorem checkOverlappingPatches_correct (patchInfo : list GenericPatchInfo) :
  Forall rangeInAddressSpace patchInfo ->
  (snd (checkOverlappingPatches patchInfo) = Throw overlapping_patches
   <-> exists a b, offendingPair patchInfo a b)
  /\ (snd (checkOverlappingPatches patchInfo) = Ok tt
      <-> ~ exists a b, offendingPair patchInfo a b)
  /\ (forall r, In r (fst (checkOverlappingPatches patchInfo))
                <-> exists a b, offendingPair patchInfo a b
                                /\ r = mkReport a b).
Proof.
  intros Hwf. unfold checkOverlappingPatches.
  rewrite overlapOuter_closed. cbn [fst snd app orb].
  assert (Hrep : forall r, In r (reportsOf patchInfo)
                 <-> exists a b, offendingPair patchInfo a b
                                 /\ r = mkReport a b).
  { intros r. rewrite In_reportsOf. unfold offendingPair.
    rewrite Forall_lookup in Hwf. split.
    - intros (i & j & a & b & Hij & Hi & Hj & Ht & ->).
      exists a, b. split; [|reflexivity]. exists i, j.
      repeat split; auto.
      all: apply overlapTest_iff in Ht; eauto; apply Ht.
    - intros (a & b & (i & j & Hij & Hi & Hj & Ho) & ->).
      exists i, j, a, b. repeat split; auto.
      apply overlapTest_iff; eauto. }
  assert (Hany : (exists a b, offendingPair patchInfo a b)
                 <-> reportsOf patchInfo <> []).
  { split.
    - intros (a & b & Ho) Hnil.
      assert (Hin : In (mkReport a b) (reportsOf patchInfo))
        by (apply Hrep; eauto).
      rewrite Hnil in Hin. destruct Hin.
    - destruct (reportsOf patchInfo) as [|r rs] eqn:E; [congruence|].
      intros _. destruct (proj1 (Hrep r)) as (a & b & Ho & _);
        [left; reflexivity | eauto]. }
  split; [|split]; [| |exact Hrep].
  - rewrite Hany. destruct (reportsOf patchInfo); simpl; split;
      congruence.
  - rewrite Hany. destruct (reportsOf patchInfo); simpl; split.
    + intros _ H. apply H. reflexivity.
    + reflexivity.
    + discriminate.
    + intros H. exfalso. apply H. discriminate.
Qed.

(** The fourth scenario: the two [over] patches overlap, the error is
    raised and the log names the pair. *)
Lemma checkOverlappingPatches_correct_witness :
  Forall rangeInAddressSpace [OverlapScenario.over_a; OverlapScenario.over_b]
  /\ checkOverlappingPatches [OverlapScenario.over_a; OverlapScenario.over_b]
     = ([mkReport OverlapScenario.over_a OverlapScenario.over_b],
        Throw overlapping_patches)
  /\ (snd (checkOverlappingPatches
             [OverlapScenario.over_a; OverlapScenario.over_b])
      = Throw overlapping_patches
      <-> exists a b,
          offendingPair [OverlapScenario.over_a; OverlapScenario.over_b] a b)
  /\ (snd (checkOverlappingPatches
             [OverlapScenario.over_a; OverlapScenario.over_b]) = Ok tt
      <-> ~ exists a b,
            offendingPair [OverlapScenario.over_a; OverlapScenario.over_b] a b)
  /\ (forall r,
         In r (fst (checkOverlappingPatches
                      [OverlapScenario.over_a; OverlapScenario.over_b]))
         <-> exists a b,
             offendingPair [OverlapScenario.over_a; OverlapScenario.over_b] a b
             /\ r = mkReport a b).
Proof.
  assert (Hwf : Forall rangeInAddressSpace
                       [OverlapScenario.over_a; OverlapScenario.over_b]).
  { repeat constructor; unfold is_u32; cbn; lia. }
  split; [exact Hwf|]. split; [reflexivity|].
  apply (checkOverlappingPatches_correct
           [OverlapScenario.over_a; OverlapScenario.over_b] Hwf).
Defined.

(** C2 (as stated) fails when a range reaches the end of the address
    space: two jump patches at [0xFFFFFFFC] of the same destination have
    the same range [[0xFFFFFFFC, 0x100000000)], but the end computed on
    [u32] wraps to 0 and the check passes with an empty log. *)
Lemma overlap_check_counterexample :
  offendingPair [OverlapScenario.jump_top; OverlapScenario.jump_top]
                OverlapScenario.jump_top OverlapScenario.jump_top
  /\ add32 (destAddress OverlapScenario.jump_top)
           (overlapSize OverlapScenario.jump_top) = 0
  /\ checkOverlappingPatches
       [OverlapScenario.jump_top; OverlapScenario.jump_top] = ([], Ok tt)
  /\ ~ (snd (checkOverlappingPatches
               [OverlapScenario.jump_top; OverlapScenario.jump_top])
        = Throw overlapping_patches
        <-> exists a b,
            offendingPair [OverlapScenario.jump_top; OverlapScenario.jump_top]
                          a b).
Proof.
  assert (Hpair : offendingPair
                    [OverlapScenario.jump_top; OverlapScenario.jump_top]
                    OverlapScenario.jump_top OverlapScenario.jump_top).
  { exists 0%nat, 1%nat. split; [lia|]. split; [reflexivity|].
    split; [reflexivity|]. split; [reflexivity|].
    exists 0xFFFFFFFC. cbn. lia. }
  split; [exact Hpair|]. split; [reflexivity|]. split; [reflexivity|].
  intros [_ H]. assert (Hthrow := H (ex_intro _ _ (ex_intro _ _ Hpair))).
  discriminate Hthrow.
Qed.

(** ** Byte-addressed binaries *)

Section CodeBinFacts.

Lemma length_le_bytes n w : List.length (le_bytes n w) = n.
Proof. revert w. induction n; intros w; simpl; [|rewrite IHn]; reflexivity. Qed.

Lemma le_value_le_bytes n w :
  le_value (le_bytes n w) = w mod 2 ^ (8 * Z.of_nat n).
Proof.
  revert w. induction n as [|n IH]; intros w.
  - simpl. rewrite Z.mod_1_r. reflexivity.
  - cbn [le_bytes le_value]. rewrite IH. unfold wrap8.
    rewrite Z.mod_mod by lia.
    rewrite <- !Z.land_ones by lia.
    apply Z.bits_inj'. intros i Hi.
    rewrite Z.lor_spec, !Z.land_spec, Z.shiftl_spec by lia.
    rewrite !Z.testbit_ones_nonneg by lia.
    destruct (Z.ltb_spec i 8).
    + rewrite (Z.testbit_neg_r _ (i - 8)) by lia.
      rewrite orb_false_r. replace (i <? 8 * Z.of_nat (S n)) with true
        by (symmetry; apply Z.ltb_lt; lia).
      reflexivity.
    + rewrite Z.land_spec, Z.shiftr_spec by lia.
      rewrite Z.testbit_ones_nonneg by lia.
      replace (i - 8 + 8) with i by lia.
      rewrite andb_false_r. cbn [orb]. f_equal.
      destruct (Z.ltb_spec (i - 8) (8 * Z.of_nat n));
        symmetry; [apply Z.ltb_lt | apply Z.ltb_ge]; lia.
Qed.

Lemma le_value_bytes_u32 w : is_u32 w -> le_value (bytes_u32 w) = w.
Proof.
  intros Hw. unfold bytes_u32. rewrite le_value_le_bytes.
  apply Z.mod_small. exact Hw.
Qed.

Lemma lor_u32 a b : is_u32 a -> is_u32 b -> is_u32 (Z.lor a b).
Proof.
  unfold is_u32. intros [Ha Ha'] [Hb Hb'].
  assert (H0 : 0 <= Z.lor a b) by (apply Z.lor_nonneg; lia).
  split; [exact H0|].
  destruct (Z.eq_dec (Z.lor a b) 0) as [-> | Hne]; [lia|].
  apply Z.log2_lt_pow2; [lia|]. rewrite Z.log2_lor by lia.
  apply Z.max_lub_lt.
  - destruct (Z.eq_dec a 0) as [-> | ?]; [simpl; lia|].
    apply Z.log2_lt_pow2; lia.
  - destruct (Z.eq_dec b 0) as [-> | ?]; [simpl; lia|].
    apply Z.log2_lt_pow2; lia.
Qed.

Lemma makeJumpOpCode_u32 opCode fromAddr toAddr :
  is_u32 opCode -> is_u32 (makeJumpOpCode opCode fromAddr toAddr).
Proof.
  intros Hop. unfold makeJumpOpCode. apply lor_u32; [exact Hop|].
  pose proof (land_imm24_range (sub32 (Z.shiftr (sub32 toAddr fromAddr) 2) 2)).
  unfold is_u32. lia.
Qed.

Lemma CodeBin_offset_Ok bin a n off :
  CodeBin_offset bin a n = Ok off ->
  (off + n <= List.length (bin_data bin))%nat
  /\ off = Z.to_nat (sub32 a (bin_ramAddress bin)).
Proof.
  unfold CodeBin_offset.
  pose proof (wrap32_range (a - bin_ramAddress bin)) as Hr.
  fold (sub32 a (bin_ramAddress bin)) in Hr.
  destruct (Z.leb_spec (sub32 a (bin_ramAddress bin) + Z.of_nat n)
                       (Z.of_nat (List.length (bin_data bin))));
    intros [= <-]. split; [lia | reflexivity].
Qed.

Lemma length_splice off bs dat :
  (off + List.length bs <= List.length dat)%nat ->
  List.length (splice off bs dat) = List.length dat.
Proof.
  intros H. unfold splice.
  rewrite !List.length_app, length_take, length_drop. lia.
Qed.

Lemma read_splice off bs dat :
  (off + List.length bs <= List.length dat)%nat ->
  take (List.length bs) (drop off (splice off bs dat)) = bs.
Proof.
  intros H. unfold splice.
  rewrite drop_app_length'; [|rewrite length_take; lia].
  rewrite take_app_length. reflexivity.
Qed.

(** What was written is read back. *)
Lemma CodeBin_read_after_write bin a bs bin' :
  CodeBin_writeBytes bin a bs = Ok bin' ->
  CodeBin_readBytes bin' a (List.length bs) = Ok bs
  /\ bin_ramAddress bin' = bin_ramAddress bin
  /\ List.length (bin_data bin') = List.length (bin_data bin).
Proof.
  unfold CodeBin_writeBytes, CodeBin_readBytes.
  destruct (CodeBin_offset bin a (List.length bs)) as [off|e] eqn:Hoff;
    [|discriminate].
  cbn. intros [= <-]. cbn.
  destruct (CodeBin_offset_Ok _ _ _ _ Hoff) as [Hle ->].
  unfold CodeBin_offset in *. cbn.
  rewrite length_splice by exact Hle.
  destruct (_ <=? _); [|discriminate]. cbn.
  rewrite read_splice by exact Hle. auto.
Qed.

Lemma CodeBin_read_u32_after_write bin a w bin' :
  is_u32 w ->
  CodeBin_write_u32 bin a w = Ok bin' ->
  CodeBin_read_u32 bin' a = Ok w.
Proof.
  intros Hw Hwr. unfold CodeBin_write_u32 in Hwr.
  apply CodeBin_read_after_write in Hwr as [Hrd _].
  unfold CodeBin_read_u32. change 4%nat with (List.length (bytes_u32 w)).
  rewrite Hrd. cbn [mbind Result_bind].
  rewrite le_value_bytes_u32 by exact Hw. reflexivity.
Qed.

Lemma CodeBin_write_defined bin a bs off :
  CodeBin_offset bin a (List.length bs) = Ok off ->
  CodeBin_writeBytes bin a bs
  = Ok {| bin_data := splice off bs (bin_data bin);
          bin_ramAddress := bin_ramAddress bin |}.
Proof. intros H. unfold CodeBin_writeBytes. rewrite H. reflexivity. Qed.

End CodeBinFacts.

(** ** The patch applier *)

Section ApplierFacts.

Variable decompress : list Z -> list Z.

Lemma getBin_arm p pm :
  destAddressOv p = -1 ->
  getBin decompress p pm = Ok (arm_bin (m_arm pm), pm).
Proof. intros H. unfold getBin. rewrite H. reflexivity. Qed.

Lemma binOf_putBin_arm p bin pm :
  destAddressOv p = -1 -> binOf p (putBin p bin pm) = Some bin.
Proof. intros H. unfold binOf, putBin. rewrite H. reflexivity. Qed.

End ApplierFacts.

(** C7 (as amended).  For an ARM to ARM jump patch of the main binary with
    [destAddress = 0x02000000] and linked [srcAddress = 0x02020000], on a
    main binary that covers the address, the applier writes at
    [destAddress] the byte sequence [0xFE 0x7F 0x00 0xEA], the
    little-endian word [0xEA007FFE]. *)
Theorem applyPatch_jump_scenario
        (decompress : list Z -> list Z)
        (p : GenericPatchInfo) (pm : PatchMaker) (off : nat) :
  patchType p = PatchType.Jump ->
  destThumb p = false -> srcThumb p = false ->
  destAddressOv p = -1 ->
  destAddress p = 0x02000000 -> srcAddress p = 0x02020000 ->
  CodeBin_offset (arm_bin (m_arm pm)) 0x02000000 4 = Ok off ->
  exists pm' bin',
    applyPatch decompress p pm = Ok pm'
    /\ binOf p pm' = Some bin'
    /\ bin_data bin'
       = splice off [0xFE; 0x7F; 0x00; 0xEA] (bin_data (arm_bin (m_arm pm)))
    /\ CodeBin_readBytes bin' 0x02000000 4 = Ok [0xFE; 0x7F; 0x00; 0xEA]
    /\ CodeBin_read_u32 bin' 0x02000000 = Ok 0xEA007FFE.
Proof.
  intros Hty HdT HsT Hov Hdest Hsrc Hoff.
  unfold applyPatch. rewrite getBin_arm by exact Hov.
  cbn [mbind Result_bind fst snd]. rewrite Hty. cbn [N.eqb PatchType.Jump].
  unfold applyJump. rewrite HdT, HsT, Hdest, Hsrc. cbn [negb andb].
  change (makeJumpOpCode armOpcodeB 0x02000000 0x02020000) with 0xEA007FFE.
  unfold CodeBin_write_u32.
  change (bytes_u32 0xEA007FFE) with [0xFE; 0x7F; 0x00; 0xEA].
  pose proof (CodeBin_write_defined (arm_bin (m_arm pm)) 0x02000000
                [0xFE; 0x7F; 0x00; 0xEA] off Hoff) as Hwr.
  rewrite Hwr. cbn [mbind Result_bind].
  eexists _, _. split; [reflexivity|].
  split; [apply binOf_putBin_arm; exact Hov|].
  split; [reflexivity|].
  apply CodeBin_read_after_write in Hwr as (Hrd & _ & _).
  cbn [List.length] in Hrd. split; [exact Hrd|].
  unfold CodeBin_read_u32. rewrite Hrd. reflexivity.
Qed.

(** The first scenario meets the hypotheses. *)
Lemma applyPatch_jump_scenario_witness :
  exists pm' bin',
    applyPatch Scenario.identity Scenario.jump_arm_arm Scenario.pm0 = Ok pm'
    /\ binOf Scenario.jump_arm_arm pm' = Some bin'
    /\ bin_data bin'
       = splice 0 [0xFE; 0x7F; 0x00; 0xEA]
                (bin_data (arm_bin (m_arm Scenario.pm0)))
    /\ CodeBin_readBytes bin' 0x02000000 4 = Ok [0xFE; 0x7F; 0x00; 0xEA]
    /\ CodeBin_read_u32 bin' 0x02000000 = Ok 0xEA007FFE.
Proof.
  apply (applyPatch_jump_scenario Scenario.identity Scenario.jump_arm_arm
                                  Scenario.pm0 0); reflexivity.
Defined.

(** C7 (as stated) fails: in the first scenario the four bytes at
    [0x02000000] are [FE 7F 00 EA], not [00 7F FF EA]. *)
Lemma jump_scenario_counterexample :
  exists pm',
    applyPatch Scenario.identity Scenario.jump_arm_arm Scenario.pm0 = Ok pm'
    /\ CodeBin_readBytes (arm_bin (m_arm pm')) 0x02000000 4
       = Ok [0xFE; 0x7F; 0x00; 0xEA]
    /\ CodeBin_readBytes (arm_bin (m_arm pm')) 0x02000000 4
       <> Ok [0x00; 0x7F; 0xFF; 0xEA]
    /\ CodeBin_read_u32 (arm_bin (m_arm pm')) 0x02000000 <> Ok 0xEAFF7F00
    /\ makeJumpOpCode armOpcodeB 0x02000000 0x02020000 = 0xEA007FFE.
Proof.
  eexists. split; [vm_compute; reflexivity|].
  repeat split; vm_compute; congruence.
Qed.

Section ThumbJump.

Lemma wrap16_range z : 0 <= wrap16 z < 2 ^ 16.
Proof. unfold wrap16. apply Z.mod_pos_bound. lia. Qed.

(** Storing the pair of halfwords in a [u16] keeps the first one. *)
Lemma wrap16_halfword_pair hi lo :
  0 <= lo < 2 ^ 16 ->
  wrap16 (wrap32 (Z.lor (Z.shiftl hi 16) lo)) = lo.
Proof.
  intros Hlo. unfold wrap16, wrap32.
  rewrite <- (Z.mod_small lo (2 ^ 16)) at 2 by exact Hlo.
  rewrite <- !Z.land_ones by lia.
  apply Z.bits_inj'. intros i Hi.
  rewrite !Z.land_spec, Z.lor_spec, Z.shiftl_spec by lia.
  rewrite !Z.testbit_ones_nonneg by lia.
  destruct (Z.ltb_spec i 16).
  - rewrite (Z.testbit_neg_r _ (i - 16)) by lia.
    replace (i <? 32) with true by (symmetry; apply Z.ltb_lt; lia).
    cbn [orb]. rewrite andb_true_r. reflexivity.
  - rewrite !andb_false_r. reflexivity.
Qed.

Lemma wrap16_makeThumbJumpOpCode opCode fromAddr toAddr :
  wrap16 (makeThumbJumpOpCode opCode fromAddr toAddr)
  = wrap16 (Z.lor thumbOpCodeBL0
              (Z.shiftr
                 (Z.land (sub32 (Z.shiftr (sub32 toAddr fromAddr) 1) 2)
                         0x3FF800) 11)).
Proof.
  unfold makeThumbJumpOpCode. cbv zeta.
  apply wrap16_halfword_pair. apply wrap16_range.
Qed.

End ThumbJump.

(** C6.  The slot of a jump patch at THUMB code receives three halfwords,
    but the middle one is only the first halfword of the [BL]/[BLX] pair:
    the [u32] of [makeThumbJumpOpCode] is stored in a [u16], so the second
    halfword, which holds [thumbOpCodeBLX1] or [thumbOpCodeBL1] and the
    low bits of the offset, is never written, and the THUMB to ARM and the
    THUMB to THUMB patches write the same six bytes.  In the scenario the
    pair is [F01F EFFE] and the bytes written are [00 B5 1F F0 00 BD]. *)
Theorem thumb_jump_truncated :
  (forall opCode destAddr srcAddr : Z,
      thumbJumpPatchData opCode destAddr srcAddr
      = bytes_u16 thumbOpCodePushLR
        ++ bytes_u16
             (wrap16 (Z.lor thumbOpCodeBL0
                (Z.shiftr
                   (Z.land (sub32 (Z.shiftr (sub32 srcAddr destAddr) 1) 2)
                           0x3FF800) 11)))
        ++ bytes_u16 thumbOpCodePopPC)
  /\ (forall destAddr srcAddr : Z,
         thumbJumpPatchData thumbOpCodeBLX1 destAddr srcAddr
         = thumbJumpPatchData thumbOpCodeBL1 destAddr srcAddr)
  /\ makeThumbJumpOpCode thumbOpCodeBLX1 0x02000000 0x02020000 = 0xEFFEF01F
  /\ makeThumbJumpOpCode thumbOpCodeBL1 0x02000000 0x02020000 = 0xFFFEF01F
  /\ (forall srcT : bool,
         exists pm',
           applyPatch Scenario.identity (ThumbScenario.jump_from_thumb srcT)
                      Scenario.pm0 = Ok pm'
           /\ CodeBin_readBytes (arm_bin (m_arm pm')) 0x02000000 6
              = Ok [0x00; 0xB5; 0x1F; 0xF0; 0x00; 0xBD]).
Proof.
  split; [|split; [|split; [|split]]].
  - intros. unfold thumbJumpPatchData.
    rewrite wrap16_makeThumbJumpOpCode. reflexivity.
  - intros. unfold thumbJumpPatchData.
    rewrite !wrap16_makeThumbJumpOpCode. reflexivity.
  - reflexivity.
  - reflexivity.
  - intros [|]; eexists; (split; [vm_compute; reflexivity|]);
      vm_compute; reflexivity.
Qed.

Section HookFacts.

Variable decompress : list Z -> list Z.

Lemma loadOverlayBin_loaded ovID pm ov pm' :
  m_loadedOverlays pm !! ovID = None ->
  loadOverlayBin decompress ovID pm = Ok (ov, pm') ->
  m_loadedOverlays pm' !! ovID = Some ov
  /\ m_autogenDataInfoForDest pm' = m_autogenDataInfoForDest pm
  /\ m_arm pm' = m_arm pm.
Proof.
  intros Hnone. unfold loadOverlayBin. rewrite Hnone.
  destruct (m_ovtEntries pm !! N.to_nat ovID) as [ovte|]; [|discriminate].
  match goal with
  | |- context [mbind _ ?m] => destruct m as [overlay|e]
  end; [|discriminate].
  cbn [mbind Result_bind].
  match goal with
  | |- context [mbind _ ?m] => destruct m as [bak|e]
  end; [|discriminate].
  cbn [mbind Result_bind]. intros [= <- <-]. cbn.
  rewrite lookup_insert_eq. auto.
Qed.

Lemma getOverlay_loaded ovID pm ov pm' :
  getOverlay decompress ovID pm = Ok (ov, pm') ->
  m_loadedOverlays pm' !! ovID = Some ov
  /\ m_autogenDataInfoForDest pm' = m_autogenDataInfoForDest pm
  /\ m_arm pm' = m_arm pm.
Proof.
  unfold getOverlay.
  destruct (m_loadedOverlays pm !! ovID) as [ov0|] eqn:Hl.
  - intros [= <- <-]. auto.
  - apply loadOverlayBin_loaded. exact Hl.
Qed.

Lemma getBin_Ok p pm bin pm1 :
  getBin decompress p pm = Ok (bin, pm1) ->
  binOf p pm1 = Some bin
  /\ m_autogenDataInfoForDest pm1 = m_autogenDataInfoForDest pm.
Proof.
  unfold getBin, binOf. destruct (destAddressOv p =? -1).
  - intros [= <- <-]. auto.
  - destruct (getOverlay decompress _ pm) as [[ov pm']|e] eqn:Hg;
      [|discriminate].
    cbn [mbind Result_bind fst snd]. intros [= <- <-].
    apply getOverlay_loaded in Hg as (-> & -> & _). auto.
Qed.

Lemma binOf_putBin p bin0 bin pm :
  binOf p pm = Some bin0 -> binOf p (putBin p bin pm) = Some bin.
Proof.
  unfold binOf, putBin. destruct (destAddressOv p =? -1); [reflexivity|].
  cbn. rewrite lookup_alter_eq.
  destruct (m_loadedOverlays pm !! _); [reflexivity | discriminate].
Qed.

Lemma binOf_putAutogen p q info pm :
  binOf p (putAutogen q info pm) = binOf p pm.
Proof. reflexivity. Qed.

Lemma autogen_putBin p bin pm :
  m_autogenDataInfoForDest (putBin p bin pm) = m_autogenDataInfoForDest pm.
Proof. unfold putBin. destruct (_ =? _); reflexivity. Qed.

Lemma length_bytes_u32 w : List.length (bytes_u32 w) = 4%nat.
Proof. reflexivity. Qed.

Lemma length_hookBridge og d s b :
  List.length (hookBridge og d s b) = SizeOfHookBridge.
Proof. reflexivity. Qed.

Lemma length_arm2thumbJumpBridge s :
  List.length (arm2thumbJumpBridge s) = SizeOfArm2ThumbJumpBridge.
Proof. reflexivity. Qed.

End HookFacts.

(** C4.  A hook patch between ARM code and ARM code, whose binary holds a
    word at [destAddress] and whose region destination ([srcAddressOv]) has
    an autogen record, appends a 20-byte bridge at the autogen cursor of
    that destination: [PUSH {R0-R3,R12,LR}], a [BL] to [srcAddress]
    encoded from [bridge + 4], [POP {R0-R3,R12,LR}], the original opcode
    (re-targeted against [bridge + 12] when its bits 27..25 are [0b101],
    copied otherwise) and a [B] to [destAddress + 4] encoded from
    [bridge + 16]; the cursor advances by 20 and the word at
    [destAddress] becomes a [B] to the bridge.  The applier gets past a
    hook patch only in that case, and a hook patch with [srcThumb] or
    [destThumb] set raises a fatal error. *)
Theorem applyPatch_hook
        (decompress : list Z -> list Z)
        (p : GenericPatchInfo) (pm : PatchMaker) :
  patchType p = PatchType.Hook ->
  (srcThumb p = false -> destThumb p = false ->
   forall bin pm1 ogOpCode info,
     getBin decompress p pm = Ok (bin, pm1) ->
     CodeBin_read_u32 bin (destAddress p) = Ok ogOpCode ->
     m_autogenDataInfoForDest pm1 !! srcAddressOv p = Some info ->
     let bridgeAddr := curAddress info in
     let bridge :=
       bytes_u32 0xE92D500F
       ++ bytes_u32 (makeJumpOpCode armOpcodeBL (add32 bridgeAddr 4)
                                    (srcAddress p))
       ++ bytes_u32 0xE8BD500F
       ++ bytes_u32
            (if Z.land (Z.shiftr ogOpCode 25) 7 =? 5 then
               makeJumpOpCode
                 (Z.land ogOpCode 0xFF000000) (add32 bridgeAddr 12)
                 (add32 (shl32 (add32 (Z.land ogOpCode 0xFFFFFF) 2) 2)
                        (destAddress p))
             else ogOpCode)
       ++ bytes_u32 (makeJumpOpCode armOpcodeB (add32 bridgeAddr 16)
                                    (add32 (destAddress p) 4)) in
     exists pm' bin',
       applyPatch decompress p pm = Ok pm'
       /\ List.length bridge = 20%nat
       /\ m_autogenDataInfoForDest pm' !! srcAddressOv p
          = Some {| address := address info;
                    curAddress := add32 bridgeAddr 20;
                    data := data info ++ bridge |}
       /\ binOf p pm' = Some bin'
       /\ CodeBin_readBytes bin' (destAddress p) 4
          = Ok (bytes_u32 (makeJumpOpCode armOpcodeB (destAddress p) bridgeAddr))
       /\ CodeBin_read_u32 bin' (destAddress p)
          = Ok (makeJumpOpCode armOpcodeB (destAddress p) bridgeAddr))
  /\ (forall pm',
         applyPatch decompress p pm = Ok pm' ->
         srcThumb p = false /\ destThumb p = false
         /\ exists bin pm1 ogOpCode info,
             getBin decompress p pm = Ok (bin, pm1)
             /\ CodeBin_read_u32 bin (destAddress p) = Ok ogOpCode
             /\ m_autogenDataInfoForDest pm1 !! srcAddressOv p = Some info)
  /\ (srcThumb p = true \/ destThumb p = true ->
      exists e,
        applyPatch decompress p pm = Throw e
        /\ forall bin pm1,
            getBin decompress p pm = Ok (bin, pm1) ->
            e = inject_not_supported "hook" (srcThumb p) (destThumb p)
                                     (symbol p)).
Proof.
  intros Hty. split; [|split].
  - intros HsT HdT bin pm1 og info Hbin Hrd Hinfo bridgeAddr bridge.
    unfold applyPatch. rewrite Hbin. cbn [mbind Result_bind fst snd].
    rewrite Hty. cbn [N.eqb PatchType.Jump PatchType.Call PatchType.Hook
                      Pos.eqb].
    unfold applyHook. rewrite HsT, HdT. cbn [orb]. rewrite Hrd.
    cbn [mbind Result_bind]. unfold getAutogen. rewrite Hinfo.
    cbn [mbind Result_bind].
    destruct (CodeBin_read_u32 bin (destAddress p)) as [w|] eqn:Hrd';
      [|discriminate].
    assert (Hoff : exists off, CodeBin_offset bin (destAddress p) 4 = Ok off).
    { unfold CodeBin_read_u32, CodeBin_readBytes in Hrd'.
      destruct (CodeBin_offset bin (destAddress p) 4) as [off|];
        [eauto | discriminate]. }
    destruct Hoff as [off Hoff].
    set (opc := makeJumpOpCode armOpcodeB (destAddress p) (curAddress info)).
    assert (Hwr : CodeBin_write_u32 bin (destAddress p) opc
                  = Ok {| bin_data := splice off (bytes_u32 opc) (bin_data bin);
                          bin_ramAddress := bin_ramAddress bin |}).
    { apply CodeBin_write_defined. exact Hoff. }
    rewrite Hwr. cbn [mbind Result_bind].
    apply getBin_Ok in Hbin as [Hb _].
    eexists _, _. split; [reflexivity|].
    split; [reflexivity|].
    split.
    { unfold putAutogen. cbn. rewrite lookup_insert_eq.
      unfold appendBridge, hookBridge, fixupOpCode. reflexivity. }
    split.
    { rewrite binOf_putAutogen. eapply binOf_putBin. exact Hb. }
    split.
    { unfold CodeBin_write_u32 in Hwr.
      apply CodeBin_read_after_write in Hwr as (Hr & _ & _). exact Hr. }
    apply (CodeBin_read_u32_after_write bin); [|exact Hwr].
    apply makeJumpOpCode_u32. unfold is_u32, armOpcodeB. lia.
  - intros pm'. unfold applyPatch.
    destruct (getBin decompress p pm) as [[bin pm1]|e] eqn:Hbin;
      [|discriminate].
    cbn [mbind Result_bind fst snd]. rewrite Hty.
    cbn [N.eqb PatchType.Jump PatchType.Call PatchType.Hook Pos.eqb].
    unfold applyHook.
    destruct (destThumb p), (srcThumb p); cbn [orb]; try discriminate.
    destruct (CodeBin_read_u32 bin (destAddress p)) as [og|] eqn:Hrd;
      [|discriminate].
    cbn [mbind Result_bind]. unfold getAutogen.
    destruct (m_autogenDataInfoForDest pm1 !! srcAddressOv p) as [info|]
      eqn:Hinfo; [|discriminate].
    intros _. split; [reflexivity|]. split; [reflexivity|].
    exists bin, pm1, og, info. auto.
  - intros Hthumb.
    assert (Hor : destThumb p || srcThumb p = true)
      by (destruct Hthumb as [-> | ->]; [apply orb_true_r | reflexivity]).
    unfold applyPatch.
    destruct (getBin decompress p pm) as [[bin pm1]|e] eqn:Hbin.
    + cbn [mbind Result_bind fst snd]. rewrite Hty.
      cbn [N.eqb PatchType.Jump PatchType.Call PatchType.Hook Pos.eqb].
      unfold applyHook. rewrite Hor. eexists. split; [reflexivity|].
      intros. reflexivity.
    + cbn [mbind Result_bind]. eexists. split; [reflexivity|].
      intros; discriminate.
Qed.

(** The hook of the third scenario meets the hypotheses of both parts. *)
Lemma applyPatch_hook_witness :
  (exists pm' bin',
      applyPatch Scenario.identity HookScenario.hook HookScenario.pm = Ok pm'
      /\ m_autogenDataInfoForDest pm' !! (-1)
         = Some {| address := 0x02030100; curAddress := 0x02030114;
                   data := [0x0F; 0x50; 0x2D; 0xE9;
                            0xBD; 0xFF; 0xFF; 0xEB;
                            0x0F; 0x50; 0xBD; 0xE8;
                            0x00; 0x00; 0xA0; 0xE1;
                            0xBB; 0x3F; 0xFF; 0xEA] |}
      /\ binOf HookScenario.hook pm' = Some bin'
      /\ CodeBin_readBytes bin' 0x02000000 4 = Ok [0x3E; 0xC0; 0x00; 0xEA])
  /\ applyPatch Scenario.identity HookScenario.thumb_hook HookScenario.pm
     = Throw (inject_not_supported "hook" false true "ncp_thook_02000000").
Proof.
  split.
  - destruct (proj1 (applyPatch_hook Scenario.identity HookScenario.hook
                       HookScenario.pm eq_refl)
                    eq_refl eq_refl
                    (arm_bin Scenario.arm9) HookScenario.pm
                    0xE1A00000 HookScenario.autogen
                    eq_refl eq_refl eq_refl)
      as (pm' & bin' & Hap & _ & Hauto & Hbin & Hrd & _).
    exists pm', bin'. repeat split; assumption.
  - destruct (proj2 (proj2 (applyPatch_hook Scenario.identity
                              HookScenario.thumb_hook HookScenario.pm eq_refl))
                    (or_intror eq_refl))
      as (e & Hap & He).
    rewrite Hap. f_equal.
    apply (He (arm_bin Scenario.arm9) HookScenario.pm). reflexivity.
Defined.

(** ** Loading and saving overlays *)

(** C10.  When [loadOverlayBin] returns, the entry of the overlay in the
    overlay table is the former entry with its whole flag field zero, on
    the path that loads from the backup and on the path that loads from
    the ROM tree alike; and when a copy of the overlay table is held in
    memory, the entry of the overlay in the copy has its flag field zero
    too. *)
Theorem loadOverlayBin_clears_flag
        (decompress : list Z -> list Z)
        (ovID : N) (pm pm' : PatchMaker) (ov : OverlayBin) :
  loadOverlayBin decompress ovID pm = Ok (ov, pm') ->
  (exists e0,
      m_ovtEntries pm !! N.to_nat ovID = Some e0
      /\ m_ovtEntries pm' !! N.to_nat ovID = Some (Ovt.set_flag 0 e0)
      /\ Ovt.flag (Ovt.set_flag 0 e0) = 0)
  /\ (m_bakOvtEntries pm <> [] ->
      exists b0,
        m_bakOvtEntries pm !! N.to_nat ovID = Some b0
        /\ m_bakOvtEntries pm' !! N.to_nat ovID = Some (Ovt.set_flag 0 b0)
        /\ Ovt.flag (Ovt.set_flag 0 b0) = 0).
Proof.
  unfold loadOverlayBin.
  destruct (m_ovtEntries pm !! N.to_nat ovID) as [ovte|] eqn:Hovte;
    [|discriminate].
  match goal with
  | |- context [mbind _ ?m] => destruct m as [overlay|e]
  end; [|discriminate].
  cbn [mbind Result_bind].
  destruct (m_bakOvtEntries pm) as [|b bs] eqn:Hbak.
  - cbn [mbind Result_bind]. intros [= <- <-]. cbn. split.
    + exists ovte. split; [reflexivity|]. split; [|reflexivity].
      apply list_lookup_insert_eq. eapply lookup_lt_Some. exact Hovte.
    + intros H. contradiction.
  - destruct ((b :: bs) !! N.to_nat ovID) as [b0|] eqn:Hb0; [|discriminate].
    cbn [mbind Result_bind]. intros [= <- <-]. cbn. split.
    + exists ovte. split; [reflexivity|]. split; [|reflexivity].
      apply list_lookup_insert_eq. eapply lookup_lt_Some. exact Hovte.
    + intros _. exists b0. split; [reflexivity|]. split; [|reflexivity].
      apply list_lookup_insert_eq. eapply lookup_lt_Some. exact Hb0.
Qed.

(** Both paths of the scenario: from the ROM tree on the first run, from
    the backup on a later run. *)
Lemma loadOverlayBin_clears_flag_witness :
  (exists ov pm',
      loadOverlayBin Scenario.identity 0 OverlayScenario.first_run
      = Ok (ov, pm')
      /\ backupData ov = OverlayScenario.pristine
      /\ m_ovtEntries pm' !! 0%nat = Some (Ovt.set_flag 0 OverlayScenario.ovte)
      /\ m_bakOvtEntries pm' !! 0%nat
         = Some (Ovt.set_flag 0 OverlayScenario.ovte))
  /\ (exists ov pm',
         loadOverlayBin Scenario.identity 0
           (OverlayScenario.later_run
              {| rom_tree := ∅;
                 work_tree := {[ "backup/overlay9/overlay9_0.bin"%string
                                 := OverlayScenario.pristine ]} |})
         = Ok (ov, pm')
         /\ backupData ov = []
         /\ m_ovtEntries pm' !! 0%nat
            = Some (Ovt.set_flag 0 OverlayScenario.ovte)).
Proof.
  split.
  - destruct (loadOverlayBin Scenario.identity 0 OverlayScenario.first_run)
      as [[ov pm']|e] eqn:H; [|vm_compute in H; discriminate].
    exists ov, pm'. split; [reflexivity|].
    destruct (loadOverlayBin_clears_flag _ _ _ _ _ H)
      as [(e0 & He0 & Hovt & _) Hbak].
    destruct Hbak as (b0 & Hb0 & Hbak & _); [discriminate|].
    injection He0 as <-. injection Hb0 as <-.
    split; [|split; assumption].
    vm_compute in H. injection H as <- _. reflexivity.
  - match goal with
    | |- exists ov pm', ?l = _ /\ _ =>
        destruct l as [[ov pm']|e] eqn:H; [|vm_compute in H; discriminate]
    end.
    exists ov, pm'. split; [reflexivity|].
    destruct (loadOverlayBin_clears_flag _ _ _ _ _ H)
      as [(e0 & He0 & Hovt & _) _].
    injection He0 as <-. split; [|assumption].
    vm_compute in H. injection H as <- _. reflexivity.
Defined.

Section SaveOverlays.

Lemma length_append s1 s2 :
  String.length (s1 +:+ s2) = (String.length s1 + String.length s2)%nat.
Proof.
  induction s1 as [|c s1 IH]; [reflexivity|].
  change (S (String.length (s1 +:+ s2))
          = S (String.length s1 + String.length s2)).
  rewrite IH. reflexivity.
Qed.

Lemma append_inj_r s a b : a +:+ s = b +:+ s -> a = b.
Proof.
  revert b. induction a as [|x a IH]; intros [|y b] H.
  - reflexivity.
  - apply (f_equal String.length) in H.
    rewrite !length_append in H. cbn in H. lia.
  - apply (f_equal String.length) in H.
    rewrite !length_append in H. cbn in H. lia.
  - change (String x (a +:+ s) = String y (b +:+ s)) in H.
    injection H as -> H. f_equal. apply IH. exact H.
Qed.

Lemma overlayBinName_inj arm9 a b :
  overlayBinName arm9 a = overlayBinName arm9 b -> a = b.
Proof.
  unfold overlayBinName. intros H.
  repeat apply String.app_inj in H.
  apply append_inj_r in H. apply (inj pretty) in H. exact H.
Qed.

Lemma backupPath_inj pm arm9 a b :
  backupPath pm (overlayBinName arm9 a)
  = backupPath pm (overlayBinName arm9 b) -> a = b.
Proof.
  unfold backupPath. intros H. do 2 apply String.app_inj in H.
  eapply overlayBinName_inj. exact H.
Qed.

(** What [saveOverlayBins] leaves in the backup directory for an overlay
    with a first-load backup is the live buffer [data()]. *)
Lemma saveOverlayBins_backup_is_live pm ovID ov :
  m_loadedOverlays pm !! ovID = Some ov ->
  backupData ov <> [] ->
  work_tree (files (saveOverlayBins pm))
    !! backupPath pm (overlayBinName (target_arm9 pm) ovID)
  = Some (bin_data (ov_bin ov)).
Proof.
  unfold saveOverlayBins. cbn [files set_files]. revert ovID ov.
  apply (map_fold_weak_ind
           (fun fs (m : gmap N OverlayBin) =>
              forall ovID ov,
                m !! ovID = Some ov -> backupData ov <> [] ->
                work_tree fs
                  !! backupPath pm (overlayBinName (target_arm9 pm) ovID)
                = Some (bin_data (ov_bin ov)))).
  - intros ovID ov H. rewrite lookup_empty in H. discriminate.
  - intros i x m fs Hnone IH ovID ov Hlook Hbak.
    unfold saveOverlayBin.
    destruct (decide (i = ovID)) as [-> | Hne].
    + rewrite lookup_insert_eq in Hlook. injection Hlook as ->.
      destruct (backupData ov) as [|z zs]; [contradiction|].
      cbn. apply lookup_insert_eq.
    + rewrite lookup_insert_ne in Hlook by exact Hne.
      specialize (IH ovID ov Hlook Hbak).
      destruct (negb _); cbn; [|exact IH].
      rewrite lookup_insert_ne; [exact IH|].
      intros Heq. apply backupPath_inj in Heq. contradiction.
Qed.

End SaveOverlays.

(** C1.  The backup that [saveOverlayBins] writes is the live buffer, not
    the bytes captured at first load.  On the first run of the scenario
    the overlay is loaded from the ROM tree and its pristine bytes are
    captured; the jump patch rewrites its first word; the backup file
    then receives the patched bytes, and a later run, which loads the
    overlay from that backup, starts from the patched bytes instead of
    the pristine ones. *)
Theorem saveOverlayBins_backup_not_pristine :
  exists pm1 ov pm2 ov2 pm3,
    applyPatches Scenario.identity [OverlayScenario.jump]
                 OverlayScenario.first_run = Ok pm1
    /\ m_loadedOverlays pm1 !! 0%N = Some ov
    /\ backupData ov = OverlayScenario.pristine
    /\ bin_data (ov_bin ov) = OverlayScenario.patched
    /\ BackupScenario.after_first_run = Ok pm2
    /\ work_tree (files pm2) !! "backup/overlay9/overlay9_0.bin"%string
       = Some OverlayScenario.patched
    /\ OverlayScenario.patched <> OverlayScenario.pristine
    /\ loadOverlayBin Scenario.identity 0
                      (OverlayScenario.later_run (files pm2)) = Ok (ov2, pm3)
    /\ bin_data (ov_bin ov2) = OverlayScenario.patched.
Proof.
  eexists _, _, _, _, _.
  split; [vm_compute; reflexivity|].
  split; [vm_compute; reflexivity|].
  split; [vm_compute; reflexivity|].
  split; [vm_compute; reflexivity|].
  split; [vm_compute; reflexivity|].
  split; [vm_compute; reflexivity|].
  split; [vm_compute; discriminate|].
  split; [vm_compute; reflexivity|].
  vm_compute; reflexivity.
Qed.

(** ** The autogen reservation *)

Section Planner.

Lemma wrap_size_t_range z : 0 <= wrap_size_t z < 2 ^ 64.
Proof. unfold wrap_size_t. apply Z.mod_pos_bound. lia. Qed.

Lemma wrap_size_t_small z : 0 <= z < 2 ^ 64 -> wrap_size_t z = z.
Proof. intros H. unfold wrap_size_t. apply Z.mod_small. exact H. Qed.

Lemma wrap_size_t_add z n :
  wrap_size_t (wrap_size_t z + n) = wrap_size_t (z + n).
Proof. unfold wrap_size_t. apply Z.add_mod_idemp_l. lia. Qed.

Lemma list_sum_cons x l : list_sum (x :: l) = (x + list_sum l)%nat.
Proof. reflexivity. Qed.

Lemma planAll_cons info ps r :
  planAll (info :: ps) r
  = planAll ps (if (patchType info =? PatchType.Over)%N then r
                else planPatchInRegion info r).
Proof. reflexivity. Qed.

Lemma planRegionEntries_planAll regions patchInfo :
  planRegionEntries regions patchInfo
  = List.map (fun region => planAll patchInfo (newRegionEntry region)) regions.
Proof.
  unfold planRegionEntries. rewrite <- (List.map_map newRegionEntry).
  generalize (List.map newRegionEntry regions) as rs.
  induction patchInfo as [|info ps IH]; intros rs.
  - cbn. symmetry. apply List.map_id.
  - cbn [fold_left]. rewrite IH. unfold planPatch.
    destruct (patchType info =? PatchType.Over)%N eqn:Hover.
    + apply List.map_ext. intros r. rewrite planAll_cons, Hover.
      reflexivity.
    + rewrite List.map_map. apply List.map_ext. intros r.
      rewrite planAll_cons, Hover. reflexivity.
Qed.

(** One record adds its bridge size to the entry of its region. *)
Lemma planPatchInRegion_size info r :
  (patchType info =? PatchType.Over)%N = false ->
  0 <= autogenDataSize r < 2 ^ 64 ->
  dest (planPatchInRegion info r) = dest r
  /\ lds_region (planPatchInRegion info r) = lds_region r
  /\ autogenDataSize (planPatchInRegion info r)
     = wrap_size_t
         (autogenDataSize r
          + Z.of_nat (if inRegion (dest r) info then bridgeSize info
                      else 0%nat)).
Proof.
  intros Hover Hr. unfold planPatchInRegion, inRegion, bridgeSize.
  rewrite Hover. cbn [negb andb].
  destruct (dest r =? _); cbn [andb];
    [|rewrite Z.add_0_r, wrap_size_t_small by exact Hr; auto].
  destruct (patchType info =? PatchType.Hook)%N.
  - destruct (negb (sectionIdx info =? -1)); cbn; auto.
  - destruct (patchType info =? PatchType.Jump)%N; cbn [andb].
    + destruct (negb (destThumb info) && srcThumb info).
      * destruct (negb (sectionIdx info =? -1)); cbn; auto.
      * destruct (negb (sectionIdx info =? -1)); cbn;
          rewrite Z.add_0_r, wrap_size_t_small by exact Hr; auto.
    + destruct (negb (sectionIdx info =? -1)); cbn;
        rewrite Z.add_0_r, wrap_size_t_small by exact Hr; auto.
Qed.

Lemma planAll_size patchInfo r :
  0 <= autogenDataSize r < 2 ^ 64 ->
  dest (planAll patchInfo r) = dest r
  /\ lds_region (planAll patchInfo r) = lds_region r
  /\ autogenDataSize (planAll patchInfo r)
     = wrap_size_t (autogenDataSize r
                    + Z.of_nat (bridgeBytes (dest r) patchInfo)).
Proof.
  revert r. induction patchInfo as [|info ps IH]; intros r Hr.
  - cbn. rewrite Z.add_0_r, wrap_size_t_small by exact Hr. auto.
  - rewrite planAll_cons. unfold bridgeBytes. cbn [List.filter].
    destruct (patchType info =? PatchType.Over)%N eqn:Hover.
    + unfold inRegion at 1. rewrite Hover. cbn [negb andb].
      apply IH. exact Hr.
    + destruct (planPatchInRegion_size info r Hover Hr) as (Hd & Hrg & Hs).
      destruct (IH (planPatchInRegion info r)) as (Hd' & Hr' & Hs').
      { rewrite Hs. apply wrap_size_t_range. }
      rewrite Hd in Hd', Hs'. rewrite Hrg in Hr'.
      split; [exact Hd'|]. split; [exact Hr'|].
      rewrite Hs', Hs, wrap_size_t_add. f_equal.
      destruct (inRegion (dest r) info); unfold bridgeBytes;
        cbn [List.map]; rewrite ?list_sum_cons; lia.
Qed.

Lemma bridgeSize_le info : (bridgeSize info <= 20)%nat.
Proof.
  unfold bridgeSize, SizeOfHookBridge, SizeOfArm2ThumbJumpBridge.
  destruct (patchType info =? PatchType.Hook)%N; [lia|].
  destruct (_ && _); lia.
Qed.

Lemma bridgeBytes_le d patchInfo :
  (bridgeBytes d patchInfo <= 20 * List.length patchInfo)%nat.
Proof.
  unfold bridgeBytes.
  induction patchInfo as [|p ps IH]; cbn [List.filter List.length];
    [cbn; lia|].
  destruct (inRegion d p); cbn [List.map]; rewrite ?list_sum_cons;
    [pose proof (bridgeSize_le p)|]; lia.
Qed.

(** The size reserved for a region, in closed form. *)
Lemma planRegionEntries_size regions patchInfo s :
  In s (planRegionEntries regions patchInfo) ->
  In (lds_region s) regions
  /\ dest s = BuildTarget.destination (lds_region s)
  /\ autogenDataSize s
     = wrap_size_t (Z.of_nat (bridgeBytes (dest s) patchInfo)).
Proof.
  rewrite planRegionEntries_planAll, in_map_iff.
  intros (region & <- & Hin).
  destruct (planAll_size patchInfo (newRegionEntry region)) as (Hd & Hr & Hs).
  { cbn. lia. }
  rewrite Hd, Hr, Hs. cbn [newRegionEntry dest lds_region autogenDataSize].
  rewrite Z.add_0_l. auto.
Qed.

End Planner.

(** ** Records of the parser are filed in the region of their job *)

Section ParserFiling.

Variable addrToInt : string -> option Z.

Lemma parseSymbol_filed srcFileJob symbolName symbolAddr secIdx secSize p :
  parseSymbol addrToInt srcFileJob symbolName symbolAddr secIdx secSize
  = Patch p ->
  filedInRegion p.
Proof.
  unfold parseSymbol, filedInRegion. intros H.
  repeat (case_match; try discriminate);
    injection H as <-; cbn [patchType srcAddressOv job region];
    intros Hover; first [reflexivity | congruence].
Qed.

Lemma filedInRegion_set_srcThumb b p :
  filedInRegion p -> filedInRegion (set_srcThumb b p).
Proof. intros H. exact H. Qed.

Lemma record_outcome_filed o s :
  (forall p, o = Patch p -> filedInRegion p) ->
  Forall filedInRegion (patchInfoForThisObj s) ->
  Forall filedInRegion (patchInfoForThisObj (record_outcome o s)).
Proof.
  intros Ho Hs. destruct o; cbn; try exact Hs.
  apply Forall_app. split; [exact Hs|]. constructor; [|constructor].
  apply Ho. reflexivity.
Qed.

Lemma scanSections_filed srcFileJob shs idx s :
  Forall filedInRegion (patchInfoForThisObj s) ->
  Forall filedInRegion
         (patchInfoForThisObj (scanSections addrToInt srcFileJob shs idx s)).
Proof.
  revert idx s. induction shs as [|sh shs IH]; intros idx s Hs; [exact Hs|].
  cbn [scanSections]. apply IH.
  destruct (Str.starts_with ".ncp_" (sh_name sh)); [|exact Hs].
  destruct (Str.starts_with "set" _); [exact Hs|].
  apply record_outcome_filed; [|exact Hs].
  intros p Hp. eapply parseSymbol_filed. exact Hp.
Qed.

Lemma markSrcThumb_filed shndx b ps :
  Forall filedInRegion ps -> Forall filedInRegion (markSrcThumb shndx b ps).
Proof.
  induction 1 as [|p ps Hp Hps IH]; cbn; [constructor|].
  destruct (sectionIdx p =? shndx); constructor; auto.
Qed.

Lemma scanFunctions_filed syms ps :
  Forall filedInRegion ps -> Forall filedInRegion (scanFunctions syms ps).
Proof.
  unfold scanFunctions. revert ps.
  induction syms as [|sym syms IH]; intros ps Hps; [exact Hps|].
  cbn [fold_left]. apply IH.
  destruct (st_type sym =? STT_FUNC); [|exact Hps].
  apply markSrcThumb_filed. exact Hps.
Qed.

Lemma scanSymbols_filed srcFileJob syms s :
  Forall filedInRegion (patchInfoForThisObj s) ->
  Forall filedInRegion
         (patchInfoForThisObj (scanSymbols addrToInt srcFileJob syms s)).
Proof.
  unfold scanSymbols. revert s.
  induction syms as [|sym syms IH]; intros s Hs; [exact Hs|].
  cbn [fold_left]. apply IH.
  destruct (Str.starts_with "ncp_" (st_name sym)); [|exact Hs].
  destruct (negb _); [|exact Hs].
  apply record_outcome_filed; [|exact Hs].
  intros p Hp. eapply parseSymbol_filed. exact Hp.
Qed.

Lemma gatherInfoFromObject_filed j g g' :
  Forall filedInRegion (m_patchInfo g) ->
  gatherInfoFromObject addrToInt j g = Ok g' ->
  Forall filedInRegion (m_patchInfo g').
Proof.
  intros Hg. unfold gatherInfoFromObject.
  destruct (snd j) as [elf|]; [|discriminate].
  intros [= <-]. cbn [m_patchInfo]. apply Forall_app. split; [exact Hg|].
  apply scanSymbols_filed. cbn [with_patches patchInfoForThisObj].
  apply scanFunctions_filed. apply scanSections_filed. constructor.
Qed.

Lemma gatherInfoFromObjects_filed srcFileJobs g :
  gatherInfoFromObjects addrToInt srcFileJobs = Ok g ->
  Forall filedInRegion (m_patchInfo g).
Proof.
  unfold gatherInfoFromObjects.
  assert (Hgen : forall js g0 g1,
             Forall filedInRegion (m_patchInfo g0) ->
             forEach (gatherInfoFromObject addrToInt) js g0 = Ok g1 ->
             Forall filedInRegion (m_patchInfo g1)).
  { induction js as [|j js IH]; intros g0 g1 Hg0; cbn [forEach].
    - intros [= <-]. exact Hg0.
    - destruct (gatherInfoFromObject addrToInt j g0) as [g0'|e] eqn:Hj;
        [|discriminate].
      cbn [mbind Result_bind]. apply IH.
      eapply gatherInfoFromObject_filed; eassumption. }
  apply Hgen. constructor.
Qed.

End ParserFiling.

(** ** The resolver leaves the plan alone *)

Section ResolverFacts.

Variable stoi : string -> option Z.

Lemma samePlan_refl p : samePlan p p.
Proof. unfold samePlan. auto. Qed.

Lemma samePlan_trans p q r : samePlan p q -> samePlan q r -> samePlan p r.
Proof. unfold samePlan. intuition congruence. Qed.

Lemma samePlan_set_resolved a i s p : samePlan p (set_resolved a i s p).
Proof. unfold samePlan. cbn. auto. Qed.

Lemma Forall2_samePlan_refl ps : Forall2 samePlan ps ps.
Proof. induction ps; constructor; auto using samePlan_refl. Qed.

Lemma Forall2_samePlan_trans ps qs rs :
  Forall2 samePlan ps qs -> Forall2 samePlan qs rs -> Forall2 samePlan ps rs.
Proof.
  intros H. revert rs. induction H as [|p q ps qs Hpq _ IH]; intros rs Hr.
  - inversion Hr. constructor.
  - inversion Hr as [|q' r' qs' rs' Hqr Hrest]; subst.
    constructor; [eapply samePlan_trans; eassumption | apply IH; assumption].
Qed.

Lemma mapResult_samePlan (f : GenericPatchInfo -> Result GenericPatchInfo)
      ps ps' :
  (forall p p', f p = Ok p' -> samePlan p p') ->
  mapResult f ps = Ok ps' -> Forall2 samePlan ps ps'.
Proof.
  intros Hf. revert ps'. induction ps as [|p ps IH]; intros ps'; cbn.
  - intros [= <-]. constructor.
  - destruct (f p) as [p'|] eqn:Hp; [|discriminate].
    cbn [mbind Result_bind].
    destruct (mapResult f ps) as [qs|]; [|discriminate].
    cbn [mbind Result_bind]. intros [= <-].
    constructor; [apply Hf; exact Hp | apply IH; reflexivity].
Qed.

Lemma map_samePlan (f : GenericPatchInfo -> GenericPatchInfo) ps :
  (forall p, samePlan p (f p)) -> Forall2 samePlan ps (List.map f ps).
Proof. intros Hf. induction ps; cbn; constructor; auto. Qed.

Lemma resolveSymbol_samePlan sym p p' :
  resolveSymbol sym p = Ok p' -> samePlan p p'.
Proof.
  unfold resolveSymbol. intros H.
  repeat (case_match; try discriminate); injection H as <-;
    auto using samePlan_refl, samePlan_set_resolved.
Qed.

Lemma resolveOver_samePlan idx section p :
  samePlan p (resolveOver idx section p).
Proof.
  unfold resolveOver. case_match;
    auto using samePlan_refl, samePlan_set_resolved.
Qed.

Lemma readNcpSet_samePlan section p p' :
  readNcpSet section p = Ok p' -> samePlan p p'.
Proof.
  unfold readNcpSet. intros H.
  repeat (case_match; try discriminate); injection H as <-;
    auto using samePlan_refl, samePlan_set_resolved.
Qed.

Lemma resolveSymbols_spec sym st st' :
  resolveSymbols stoi sym st = Ok st' ->
  Forall2 samePlan (fst st) (fst st')
  /\ (noBridges (snd st) -> noBridges (snd st')).
Proof.
  unfold resolveSymbols.
  destruct (mapResult (resolveSymbol sym) (fst st)) as [ps|] eqn:Hps;
    [|discriminate].
  cbn [mbind Result_bind].
  pose proof (mapResult_samePlan _ _ _ (resolveSymbol_samePlan sym) Hps)
    as Hsame.
  intros H. repeat (case_match; try discriminate); injection H as <-;
    cbn [fst snd]; (split; [exact Hsame|]); try tauto.
  intros Hnb d info. rewrite lookup_insert.
  case_decide; [intros [= <-]; reflexivity | apply Hnb].
Qed.

Lemma forEach_resolveSymbols_spec syms st st' :
  forEach (resolveSymbols stoi) syms st = Ok st' ->
  Forall2 samePlan (fst st) (fst st')
  /\ (noBridges (snd st) -> noBridges (snd st')).
Proof.
  revert st. induction syms as [|sym syms IH]; intros st; cbn [forEach].
  - intros [= <-]. split; [apply Forall2_samePlan_refl | tauto].
  - destruct (resolveSymbols stoi sym st) as [st1|] eqn:H1; [|discriminate].
    cbn [mbind Result_bind]. intros H2.
    apply resolveSymbols_spec in H1 as [Ha Hb].
    apply IH in H2 as [Hc Hd].
    split; [eapply Forall2_samePlan_trans; eassumption | tauto].
Qed.

Lemma resolveSection_spec section st st' :
  resolveSection stoi section st = Ok st' ->
  Forall2 samePlan (snd st) (snd st').
Proof.
  unfold resolveSection.
  pose proof (map_samePlan (resolveOver (fst st) section) (snd st)
                           (resolveOver_samePlan (fst st) section)) as Hover.
  intros H. repeat (case_match; try discriminate).
  - destruct (mapResult _ _) as [ps|] eqn:Hps; [|discriminate].
    cbn [mbind Result_bind] in H. injection H as <-. cbn [snd].
    eapply Forall2_samePlan_trans; [exact Hover|].
    eapply mapResult_samePlan; [|exact Hps].
    apply readNcpSet_samePlan.
  - injection H as <-. exact Hover.
  - injection H as <-. exact Hover.
Qed.

Lemma forEach_resolveSection_spec sections st st' :
  forEach (resolveSection stoi) sections st = Ok st' ->
  Forall2 samePlan (snd st) (snd st').
Proof.
  revert st. induction sections as [|sec secs IH]; intros st; cbn [forEach].
  - intros [= <-]. apply Forall2_samePlan_refl.
  - destruct (resolveSection stoi sec st) as [st1|] eqn:H1; [|discriminate].
    cbn [mbind Result_bind]. intros H2.
    apply resolveSection_spec in H1. apply IH in H2.
    eapply Forall2_samePlan_trans; eassumption.
Qed.

Lemma gatherInfoFromElf_spec patchInfo pm patchInfo' pm1 :
  gatherInfoFromElf stoi patchInfo pm = Ok (patchInfo', pm1) ->
  Forall2 samePlan patchInfo patchInfo'
  /\ (noBridges (m_autogenDataInfoForDest pm) ->
      noBridges (m_autogenDataInfoForDest pm1)).
Proof.
  unfold gatherInfoFromElf.
  destruct (forEach (resolveSymbols stoi) _ _) as [st|] eqn:H1;
    [|discriminate].
  cbn [mbind Result_bind].
  destruct (forEach (resolveSection stoi) _ _) as [st'|] eqn:H2;
    [|discriminate].
  cbn [mbind Result_bind].
  destruct (snd (checkOverlappingPatches (snd st'))); [|discriminate].
  cbn [mbind Result_bind]. intros [= <- <-].
  apply forEach_resolveSymbols_spec in H1 as [Ha Hb].
  apply forEach_resolveSection_spec in H2. cbn [fst snd] in *.
  split; [eapply Forall2_samePlan_trans; eassumption | exact Hb].
Qed.

End ResolverFacts.

(** ** Bridge bytes written by the applier *)

Section ApplierBridges.

Variable decompress : list Z -> list Z.

Lemma written_putBin d p bin pm : written d (putBin p bin pm) = written d pm.
Proof. unfold written. rewrite autogen_putBin. reflexivity. Qed.

Lemma written_appendBridge d p bridge info pm :
  m_autogenDataInfoForDest pm !! srcAddressOv p = Some info ->
  written d (putAutogen p (appendBridge bridge info) pm)
  = (written d pm
     + if (srcAddressOv p =? d)%Z then List.length bridge else 0)%nat.
Proof.
  intros Hinfo. unfold written, putAutogen. cbn.
  rewrite lookup_insert. destruct (Z.eqb_spec (srcAddressOv p) d) as [<- | Hne].
  - rewrite decide_True by reflexivity. rewrite Hinfo. cbn.
    apply List.length_app.
  - rewrite decide_False by exact Hne. lia.
Qed.

Lemma getAutogen_Ok p pm info :
  getAutogen p pm = Ok info ->
  m_autogenDataInfoForDest pm !! srcAddressOv p = Some info.
Proof.
  unfold getAutogen. destruct (_ !! _); [intros [= <-]; reflexivity|].
  discriminate.
Qed.

Lemma applyJump_written p bin pm pm' d :
  patchType p = PatchType.Jump ->
  applyJump p bin pm = Ok pm' ->
  written d pm'
  = (written d pm + if (srcAddressOv p =? d)%Z then bridgeSize p else 0)%nat.
Proof.
  intros Hty. unfold applyJump, bridgeSize. rewrite Hty.
  cbn [N.eqb PatchType.Jump PatchType.Hook andb].
  destruct (destThumb p), (srcThumb p); cbn [negb andb];
    try (destruct (CodeBin_writeBytes _ _ _) as [bin'|]; [|discriminate];
         cbn [mbind Result_bind]; intros [= <-];
         rewrite written_putBin; destruct (_ =? _); lia);
    try (destruct (CodeBin_write_u32 _ _ _) as [bin'|]; [|discriminate];
         cbn [mbind Result_bind]; intros [= <-];
         rewrite written_putBin; destruct (_ =? _); lia).
  destruct (getAutogen p pm) as [info|] eqn:Hinfo; [|discriminate].
  cbn [mbind Result_bind].
  destruct (CodeBin_write_u32 _ _ _) as [bin'|]; [|discriminate].
  cbn [mbind Result_bind]. intros [= <-].
  apply getAutogen_Ok in Hinfo.
  rewrite written_appendBridge
    by (rewrite autogen_putBin; exact Hinfo).
  rewrite written_putBin. reflexivity.
Qed.

Lemma applyCall_written p bin pm pm' d :
  applyCall p bin pm = Ok pm' -> written d pm' = written d pm.
Proof.
  unfold applyCall. destruct (_ && _); [discriminate|].
  destruct (CodeBin_write_u32 _ _ _) as [bin'|]; [|discriminate].
  cbn [mbind Result_bind]. intros [= <-]. apply written_putBin.
Qed.

Lemma applyHook_written p bin pm pm' d :
  applyHook p bin pm = Ok pm' ->
  written d pm'
  = (written d pm
     + if (srcAddressOv p =? d)%Z then SizeOfHookBridge else 0)%nat.
Proof.
  unfold applyHook. destruct (_ || _); [discriminate|].
  destruct (CodeBin_read_u32 _ _) as [og|]; [|discriminate].
  cbn [mbind Result_bind].
  destruct (getAutogen p pm) as [info|] eqn:Hinfo; [|discriminate].
  cbn [mbind Result_bind].
  destruct (CodeBin_write_u32 _ _ _) as [bin'|]; [|discriminate].
  cbn [mbind Result_bind]. intros [= <-].
  apply getAutogen_Ok in Hinfo.
  rewrite written_appendBridge
    by (rewrite autogen_putBin; exact Hinfo).
  rewrite written_putBin. reflexivity.
Qed.

Lemma applyOver_written p bin pm pm' d :
  applyOver p bin pm = Ok pm' -> written d pm' = written d pm.
Proof.
  unfold applyOver. intros H.
  repeat (case_match; try discriminate).
  destruct (CodeBin_writeBytes _ _ _) as [bin'|]; [|discriminate].
  cbn [mbind Result_bind] in H. injection H as <-. apply written_putBin.
Qed.

(** One patch adds its bridge to the autogen data of its destination
    and to no other. *)
Lemma applyPatch_written p pm pm' d :
  applyPatch decompress p pm = Ok pm' ->
  written d pm'
  = (written d pm + if (srcAddressOv p =? d)%Z then bridgeSize p else 0)%nat.
Proof.
  unfold applyPatch.
  destruct (getBin decompress p pm) as [[bin pm1]|] eqn:Hbin; [|discriminate].
  cbn [mbind Result_bind fst snd].
  apply getBin_Ok in Hbin as [_ Hauto].
  assert (Hw : written d pm1 = written d pm)
    by (unfold written; rewrite Hauto; reflexivity).
  rewrite <- Hw. clear Hw Hauto.
  destruct (N.eqb_spec (patchType p) PatchType.Jump) as [Hj | Hj].
  { apply applyJump_written. exact Hj. }
  destruct (N.eqb_spec (patchType p) PatchType.Call) as [Hc | Hc].
  { intros H. apply (applyCall_written _ _ _ _ d) in H. rewrite H.
    unfold bridgeSize. rewrite Hc. cbn. destruct (_ =? _); lia. }
  destruct (N.eqb_spec (patchType p) PatchType.Hook) as [Hh | Hh].
  { intros H. apply (applyHook_written _ _ _ _ d) in H. rewrite H.
    unfold bridgeSize. rewrite Hh. reflexivity. }
  assert (Hb : bridgeSize p = 0%nat).
  { unfold bridgeSize.
    rewrite (proj2 (N.eqb_neq _ _) Hh), (proj2 (N.eqb_neq _ _) Hj).
    reflexivity. }
  rewrite Hb.
  destruct (N.eqb_spec (patchType p) PatchType.Over) as [Ho | Ho].
  { intros H. apply (applyOver_written _ _ _ _ d) in H. rewrite H.
    destruct (_ =? _); lia. }
  intros [= <-]. destruct (_ =? _); lia.
Qed.

Lemma applyPatches_written patchInfo pm pm' d :
  applyPatches decompress patchInfo pm = Ok pm' ->
  written d pm' = (written d pm + bridgesFor d patchInfo)%nat.
Proof.
  unfold applyPatches, bridgesFor. revert pm.
  induction patchInfo as [|p ps IH]; intros pm; cbn [forEach].
  - intros [= <-]. cbn. lia.
  - destruct (applyPatch decompress p pm) as [pm1|] eqn:Hp; [|discriminate].
    cbn [mbind Result_bind]. intros H. apply IH in H.
    apply (applyPatch_written _ _ _ d) in Hp.
    cbn [List.map]. rewrite list_sum_cons. lia.
Qed.

Lemma bridgesFor_app d ps qs :
  bridgesFor d (ps ++ qs) = (bridgesFor d ps + bridgesFor d qs)%nat.
Proof.
  unfold bridgesFor. rewrite List.map_app. apply list_sum_app.
Qed.

(** After linkage the bridges of a destination are those the planner
    counted for its region. *)
Lemma bridgesFor_bridgeBytes d patchInfo patchInfo' :
  Forall filedInRegion patchInfo ->
  Forall2 samePlan patchInfo patchInfo' ->
  bridgesFor d patchInfo' = bridgeBytes d patchInfo.
Proof.
  intros Hfiled Hsame. unfold bridgesFor, bridgeBytes.
  induction Hsame as [|p p' ps ps' Hp _ IH]; [reflexivity|].
  inversion Hfiled as [|? ? Hf Hfs]; subst.
  cbn [List.map List.filter]. rewrite list_sum_cons, (IH Hfs).
  destruct Hp as (Hty & HsT & HdT & Hov & Hjob).
  assert (Hb : bridgeSize p' = bridgeSize p)
    by (unfold bridgeSize; rewrite Hty, HsT, HdT; reflexivity).
  rewrite Hb, Hov. unfold inRegion. unfold filedInRegion in Hf.
  destruct (patchType p =? PatchType.Over)%N eqn:Hover; cbn [negb andb].
  - assert (Hz : bridgeSize p = 0%nat).
    { unfold bridgeSize. apply N.eqb_eq in Hover. rewrite Hover.
      reflexivity. }
    rewrite Hz. destruct (_ =? _); reflexivity.
  - rewrite (Hf eq_refl), (Z.eqb_sym d).
    destruct (_ =? _); cbn [List.map]; rewrite ?list_sum_cons; lia.
Qed.

End ApplierBridges.

(** C3.  For the patch records gathered from the objects, the
    [autogenDataSize] reserved in the linker script for a region is 20
    bytes per [Hook] record plus 8 bytes per [Jump] record with
    [destThumb = false] and [srcThumb = true] among the records of that
    region; and once the linked ELF is resolved, whatever prefix of the
    patches the applier has gone through, the bridge bytes in the autogen
    buffer of that destination do not exceed the reserved size (they
    equal it when all patches are applied).  The [std::size_t] counter
    is taken not to wrap: [20 * |m_patchInfo| < 2^64]. *)
Theorem autogen_reservation_covers_bridges
        (addrToInt stoi : string -> option Z)
        (decompress : list Z -> list Z)
        (srcFileJobs : list (SourceFileJob * option Elf32))
        (g : PatchGathering)
        (orderedRegions : list BuildTarget.Region)
        (s : LDSRegionEntry) :
  gatherInfoFromObjects addrToInt srcFileJobs = Ok g ->
  20 * Z.of_nat (List.length (m_patchInfo g)) < 2 ^ 64 ->
  In s (planRegionEntries orderedRegions (m_patchInfo g)) ->
  autogenDataSize s
  = Z.of_nat
      (list_sum
         (List.map
            (fun info =>
               if (patchType info =? PatchType.Hook)%N then 20%nat
               else if (patchType info =? PatchType.Jump)%N
                       && negb (destThumb info) && srcThumb info then 8%nat
               else 0%nat)
            (List.filter (inRegion (dest s)) (m_patchInfo g))))
  /\ forall pm patchInfo pm1 applied rest pm' info,
      m_autogenDataInfoForDest pm = ∅ ->
      gatherInfoFromElf stoi (m_patchInfo g) pm = Ok (patchInfo, pm1) ->
      patchInfo = applied ++ rest ->
      applyPatches decompress applied pm1 = Ok pm' ->
      m_autogenDataInfoForDest pm' !! dest s = Some info ->
      Z.of_nat (List.length (data info)) <= autogenDataSize s
      /\ (rest = [] -> Z.of_nat (List.length (data info)) = autogenDataSize s).
Proof.
  intros Hgather Hsize Hin.
  apply planRegionEntries_size in Hin as (_ & _ & Hs).
  pose proof (bridgeBytes_le (dest s) (m_patchInfo g)) as Hle.
  rewrite wrap_size_t_small in Hs by lia.
  split; [exact Hs|].
  intros pm patchInfo pm1 applied rest pm' info Hempty Hres -> Hap Hinfo.
  apply gatherInfoFromElf_spec in Hres as [Hsame Hnb].
  assert (Hnb1 : noBridges (m_autogenDataInfoForDest pm1)).
  { apply Hnb. rewrite Hempty. intros d i Hd.
    rewrite lookup_empty in Hd. discriminate. }
  apply (applyPatches_written _ _ _ _ (dest s)) in Hap.
  assert (Hw0 : written (dest s) pm1 = 0%nat).
  { unfold written.
    destruct (m_autogenDataInfoForDest pm1 !! dest s) as [i|] eqn:Hi;
      [|reflexivity].
    rewrite (Hnb1 _ _ Hi). reflexivity. }
  assert (Hw : written (dest s) pm' = List.length (data info))
    by (unfold written; rewrite Hinfo; reflexivity).
  apply gatherInfoFromObjects_filed in Hgather.
  pose proof (bridgesFor_bridgeBytes (dest s) _ _ Hgather Hsame) as Hall.
  rewrite bridgesFor_app in Hall.
  rewrite Hs. split; [lia|].
  intros ->. unfold bridgesFor at 2 in Hall. cbn in Hall. lia.
Qed.

(** A hook and a jump from ARM code to a THUMB function in one object of
    the main region: 28 bytes are reserved and 28 bytes are written. *)
Lemma autogen_reservation_covers_bridges_witness :
  exists g s patchInfo pm1 pm' info,
    gatherInfoFromObjects addrToInt_hex
      [(Scenario.patch_job, Some AutogenScenario.object)] = Ok g
    /\ 20 * Z.of_nat (List.length (m_patchInfo g)) < 2 ^ 64
    /\ In s (planRegionEntries [Scenario.arm_region] (m_patchInfo g))
    /\ gatherInfoFromElf AutogenScenario.no_stoi (m_patchInfo g)
                         AutogenScenario.pm = Ok (patchInfo, pm1)
    /\ applyPatches Scenario.identity patchInfo pm1 = Ok pm'
    /\ dest s = -1
    /\ m_autogenDataInfoForDest pm' !! (-1) = Some info
    /\ autogenDataSize s = 28
    /\ Z.of_nat (List.length (data info)) <= autogenDataSize s
    /\ Z.of_nat (List.length (data info)) = autogenDataSize s.
Proof.
  destruct (gatherInfoFromObjects addrToInt_hex
              [(Scenario.patch_job, Some AutogenScenario.object)])
    as [g|e] eqn:Hg; [|vm_compute in Hg; discriminate].
  assert (Hlen : List.length (m_patchInfo g) = 2%nat)
    by (vm_compute in Hg; injection Hg as <-; reflexivity).
  assert (Hsz : 20 * Z.of_nat (List.length (m_patchInfo g)) < 2 ^ 64)
    by (rewrite Hlen; reflexivity).
  destruct (planRegionEntries [Scenario.arm_region] (m_patchInfo g))
    as [|s rs] eqn:Hplan;
    [vm_compute in Hg; injection Hg as <-; vm_compute in Hplan; discriminate|].
  assert (Hin : In s (planRegionEntries [Scenario.arm_region] (m_patchInfo g)))
    by (rewrite Hplan; left; reflexivity).
  assert (Hd : dest s = -1)
    by (vm_compute in Hg; injection Hg as <-; vm_compute in Hplan;
        injection Hplan as <- _; reflexivity).
  destruct (gatherInfoFromElf AutogenScenario.no_stoi (m_patchInfo g)
                              AutogenScenario.pm)
    as [[patchInfo pm1]|e] eqn:Hres;
    [|vm_compute in Hg; injection Hg as <-; vm_compute in Hres; discriminate].
  destruct (applyPatches Scenario.identity patchInfo pm1) as [pm'|e] eqn:Hap;
    [|vm_compute in Hg; injection Hg as <-; vm_compute in Hres;
      injection Hres as <- <-; vm_compute in Hap; discriminate].
  destruct (m_autogenDataInfoForDest pm' !! (-1)) as [info|] eqn:Hinfo;
    [|vm_compute in Hg; injection Hg as <-; vm_compute in Hres;
      injection Hres as <- <-; vm_compute in Hap; injection Hap as <-;
      vm_compute in Hinfo; discriminate].
  destruct (autogen_reservation_covers_bridges
              addrToInt_hex AutogenScenario.no_stoi Scenario.identity
              _ g [Scenario.arm_region] s Hg Hsz Hin) as [Hres_size Hbound].
  assert (Hinfo' : m_autogenDataInfoForDest pm' !! dest s = Some info)
    by (rewrite Hd; exact Hinfo).
  assert (Happ : patchInfo = patchInfo ++ []) by (symmetry; apply app_nil_r).
  destruct (Hbound AutogenScenario.pm patchInfo pm1 patchInfo [] pm' info
                   eq_refl Hres Happ Hap Hinfo') as [Hle Heq].
  exists g, s, patchInfo, pm1, pm', info.
  repeat split; try assumption; try (apply Heq; reflexivity).
  rewrite Hres_size.
  vm_compute in Hg. injection Hg as <-. rewrite Hd. reflexivity.
Defined.

(** * Further properties *)

(** ** The opcode encoders *)

Section EncoderFacts.

(** The offset field of [makeJumpOpCode], for all integers. *)
Lemma encoded_imm24_general F T :
  Z.land (sub32 (Z.shiftr (sub32 T F) 2) 2) 0xFFFFFF
  = ((T - F) / 4 - 2) mod 2 ^ 24.
Proof.
  unfold sub32, wrap32.
  change 0xFFFFFF with (Z.ones 24). rewrite Z.land_ones by lia.
  rewrite Z.shiftr_div_pow2 by lia.
  change (2 ^ 32) with 4294967296. change (2 ^ 24) with 16777216.
  change (2 ^ 2) with 4.
  Z.to_euclidean_division_equations. lia.
Qed.

Lemma split_top_byte op :
  is_u32 op ->
  Z.lor (Z.land op 0xFF000000) (Z.land op 0xFFFFFF) = op.
Proof.
  intros Hop. rewrite <- Z.land_lor_distr_r.
  change (Z.lor 0xFF000000 0xFFFFFF) with (Z.ones 32).
  rewrite Z.land_ones by lia. apply Z.mod_small. exact Hop.
Qed.

Lemma signed_imm24_lor base m :
  Z.land base 0xFFFFFF = 0 -> - 2 ^ 23 <= m < 2 ^ 23 ->
  signed_imm24 (Z.lor base (m mod 2 ^ 24)) = m.
Proof.
  intros Hbase Hm. unfold signed_imm24.
  assert (Hr : 0 <= m mod 2 ^ 24 < 2 ^ 24) by (apply Z.mod_pos_bound; lia).
  rewrite land_lor_imm24 by assumption.
  rewrite testbit23_imm24 by exact Hr.
  change (2 ^ 24) with 16777216 in *. change (2 ^ 23) with 8388608 in *.
  destruct (Z.leb_spec 8388608 (m mod 16777216));
    Z.to_euclidean_division_equations; lia.
Qed.

End EncoderFacts.

(** X1.  Re-targeting an opcode from an address to the same address gives
    the opcode back, whatever the opcode and the address. *)
Theorem fixupOpCode_same_address (opCode addr : Z) :
  is_u32 opCode ->
  fixupOpCode opCode addr addr = opCode.
Proof.
  intros Hop. unfold fixupOpCode.
  destruct (Z.land (Z.shiftr opCode 25) 7 =? 5); [|reflexivity].
  cbv zeta. unfold makeJumpOpCode. rewrite encoded_imm24_general.
  pose proof (land_imm24_range opCode) as Himm.
  set (imm := Z.land opCode 0xFFFFFF) in *.
  replace (((add32 (shl32 (add32 imm 2) 2) addr - addr) / 4 - 2) mod 2 ^ 24)
    with imm.
  { apply split_top_byte. exact Hop. }
  unfold add32, shl32, wrap32. rewrite Z.shiftl_mul_pow2 by lia.
  change (2 ^ 32) with 4294967296. change (2 ^ 24) with 16777216 in *.
  change (2 ^ 2) with 4.
  Z.to_euclidean_division_equations. lia.
Qed.

Lemma fixupOpCode_same_address_witness :
  fixupOpCode 0xEBFFFFFE 0x02000000 0x02000000 = 0xEBFFFFFE.
Proof.
  apply (fixupOpCode_same_address 0xEBFFFFFE 0x02000000).
  unfold is_u32. lia.
Defined.

(** X2.  Re-targeting keeps the branch: when the opcode is of the branch
    family, the addresses are word-aligned and the target of the original
    branch lies in the address space and within reach of the new address,
    the re-targeted opcode read at the new address has the target of the
    original opcode read at the original address, and the same top byte. *)
Theorem fixupOpCode_keeps_target (opCode ogAddr newAddr : Z) :
  Z.land (Z.shiftr opCode 25) 7 = 5 ->
  is_u32 ogAddr -> is_u32 newAddr ->
  ogAddr mod 4 = 0 -> newAddr mod 4 = 0 ->
  is_u32 (decodeBranchTarget opCode ogAddr) ->
  - 2 ^ 25 + 8 <= decodeBranchTarget opCode ogAddr - newAddr <= 2 ^ 25 + 4 ->
  decodeBranchTarget (fixupOpCode opCode ogAddr newAddr) newAddr
  = decodeBranchTarget opCode ogAddr
  /\ Z.land (fixupOpCode opCode ogAddr newAddr) 0xFF000000
     = Z.land opCode 0xFF000000.
Proof.
  intros Hbr Hog Hnew Hoga Hnewa HT Hreach.
  unfold fixupOpCode. rewrite Hbr. cbn [Z.eqb Pos.eqb]. cbv zeta.
  unfold makeJumpOpCode. rewrite encoded_imm24_general.
  pose proof (land_imm24_range opCode) as Himm.
  unfold decodeBranchTarget in *.
  set (T := Z.shiftl (signed_imm24 opCode + 2) 2 + ogAddr) in *.
  assert (Hfield :
            ((add32 (shl32 (add32 (Z.land opCode 0xFFFFFF) 2) 2) ogAddr
              - newAddr) / 4 - 2) mod 2 ^ 24
            = ((T - newAddr) / 4 - 2) mod 2 ^ 24).
  { subst T. unfold signed_imm24.
    rewrite testbit23_imm24 by exact Himm.
    set (imm := Z.land opCode 0xFFFFFF) in *.
    unfold add32, shl32, wrap32, is_u32 in *.
    rewrite !Z.shiftl_mul_pow2 by lia.
    change (2 ^ 32) with 4294967296 in *. change (2 ^ 24) with 16777216 in *.
    change (2 ^ 23) with 8388608. change (2 ^ 2) with 4.
    destruct (Z.leb_spec 8388608 imm);
      Z.to_euclidean_division_equations; lia. }
  rewrite Hfield. split.
  - rewrite signed_imm24_lor.
    + rewrite Z.shiftl_mul_pow2 by lia. change (2 ^ 2) with 4.
      assert (Hdiv : (T - newAddr) mod 4 = 0).
      { subst T. rewrite Z.shiftl_mul_pow2 by lia. change (2 ^ 2) with 4.
        Z.to_euclidean_division_equations. lia. }
      Z.to_euclidean_division_equations. lia.
    + rewrite <- Z.land_assoc. change (Z.land 0xFF000000 0xFFFFFF) with 0.
      apply Z.land_0_r.
    + change (2 ^ 25) with 33554432 in Hreach. change (2 ^ 23) with 8388608.
      Z.to_euclidean_division_equations. lia.
  - rewrite Z.land_lor_distr_l.
    replace (Z.land (((T - newAddr) / 4 - 2) mod 2 ^ 24) 0xFF000000) with 0.
    + rewrite Z.lor_0_r, <- Z.land_assoc. reflexivity.
    + rewrite <- (Z.land_ones _ 24) by lia. rewrite <- Z.land_assoc.
      change (Z.land (Z.ones 24) 0xFF000000) with 0. symmetry.
      apply Z.land_0_r.
Qed.

(** A [BL] at [0x02000000] to [0x02000100], moved into a bridge at
    [0x02030010]. *)
Lemma fixupOpCode_keeps_target_witness :
  decodeBranchTarget (fixupOpCode 0xEB00003E 0x02000000 0x02030010) 0x02030010
  = decodeBranchTarget 0xEB00003E 0x02000000
  /\ Z.land (fixupOpCode 0xEB00003E 0x02000000 0x02030010) 0xFF000000
     = Z.land 0xEB00003E 0xFF000000.
Proof.
  apply (fixupOpCode_keeps_target 0xEB00003E 0x02000000 0x02030010);
    unfold is_u32; try reflexivity; vm_compute; split; congruence.
Defined.

Section ThumbPair.

Lemma land_low11 z : Z.land z 0x7FF = z mod 2 ^ 11.
Proof. change 0x7FF with (Z.ones 11). apply Z.land_ones. lia. Qed.

Lemma wrap16_low11 z : Z.land (wrap16 z) 0x7FF = Z.land z 0x7FF.
Proof.
  rewrite !land_low11. unfold wrap16.
  change (2 ^ 16) with 65536. change (2 ^ 11) with 2048.
  Z.to_euclidean_division_equations. lia.
Qed.

Lemma shiftr_wrap32_16 z : Z.shiftr (wrap32 z) 16 = wrap16 (Z.shiftr z 16).
Proof.
  unfold wrap32, wrap16. rewrite !Z.shiftr_div_pow2 by lia.
  change (2 ^ 32) with 4294967296. change (2 ^ 16) with 65536.
  Z.to_euclidean_division_equations. lia.
Qed.

Lemma land_wrap32_16 z : Z.land (wrap32 z) 0xFFFF = wrap16 (wrap32 z).
Proof. change 0xFFFF with (Z.ones 16). apply Z.land_ones. lia. Qed.

(** The halfwords of the pair. *)
Lemma first_halfword opCode fromAddr toAddr :
  Z.land (makeThumbJumpOpCode opCode fromAddr toAddr) 0xFFFF
  = wrap16 (Z.lor thumbOpCodeBL0
              (Z.shiftr
                 (Z.land (sub32 (Z.shiftr (sub32 toAddr fromAddr) 1) 2)
                         0x3FF800) 11)).
Proof.
  unfold makeThumbJumpOpCode. cbv zeta. rewrite land_wrap32_16.
  apply wrap16_halfword_pair. apply wrap16_range.
Qed.

Lemma second_halfword opCode fromAddr toAddr :
  Z.shiftr (makeThumbJumpOpCode opCode fromAddr toAddr) 16
  = wrap16 (Z.lor opCode
              (Z.land (sub32 (Z.shiftr (sub32 toAddr fromAddr) 1) 2) 0x7FF)).
Proof.
  unfold makeThumbJumpOpCode. cbv zeta. rewrite shiftr_wrap32_16.
  rewrite Z.shiftr_lor, Z.shiftr_shiftl_l by lia.
  change (16 - 16) with 0. rewrite Z.shiftl_0_r.
  match goal with
  | |- context [Z.shiftr (wrap16 ?x) 16] =>
      replace (Z.shiftr (wrap16 x) 16) with 0
  end.
  - rewrite Z.lor_0_r. unfold wrap16. apply Z.mod_mod. lia.
  - match goal with
    | |- 0 = Z.shiftr (wrap16 ?x) 16 => pose proof (wrap16_range x) as Hr
    end.
    rewrite Z.shiftr_div_pow2 by lia. symmetry. apply Z.div_small.
    exact Hr.
Qed.

Lemma high11 offset :
  Z.land (wrap16 (Z.lor thumbOpCodeBL0
                    (Z.shiftr (Z.land offset 0x3FF800) 11))) 0x7FF
  = (offset / 2 ^ 11) mod 2 ^ 11.
Proof.
  rewrite wrap16_low11, Z.land_lor_distr_l.
  change (Z.land thumbOpCodeBL0 0x7FF) with 0. rewrite Z.lor_0_l.
  rewrite Z.shiftr_land. change (Z.shiftr 0x3FF800 11) with 0x7FF.
  rewrite <- Z.land_assoc. change (Z.land 0x7FF 0x7FF) with 0x7FF.
  rewrite land_low11, Z.shiftr_div_pow2 by lia. reflexivity.
Qed.

Lemma low11 opCode offset :
  Z.land opCode 0x7FF = 0 ->
  Z.land (wrap16 (Z.lor opCode (Z.land offset 0x7FF))) 0x7FF
  = offset mod 2 ^ 11.
Proof.
  intros Hop. rewrite wrap16_low11, Z.land_lor_distr_l, Hop, Z.lor_0_l.
  rewrite <- Z.land_assoc. change (Z.land 0x7FF 0x7FF) with 0x7FF.
  apply land_low11.
Qed.

Lemma lor_shiftl_add hi lo n :
  0 <= n -> 0 <= lo < 2 ^ n ->
  Z.lor (Z.shiftl hi n) lo = hi * 2 ^ n + lo.
Proof.
  intros Hn Hlo. rewrite <- Z.shiftl_mul_pow2 by exact Hn.
  assert (Hdisj : Z.land (Z.shiftl hi n) lo = 0).
  { rewrite <- (Z.mod_small lo (2 ^ n)) by exact Hlo.
    rewrite <- Z.land_ones by exact Hn.
    apply Z.bits_inj'. intros i Hi.
    rewrite !Z.land_spec, Z.shiftl_spec, Z.bits_0 by exact Hi.
    rewrite Z.testbit_ones_nonneg by lia.
    destruct (Z.ltb_spec i n).
    - rewrite (Z.testbit_neg_r _ (i - n)) by lia. reflexivity.
    - rewrite !andb_false_r. reflexivity. }
  rewrite <- Z.lxor_lor by exact Hdisj.
  symmetry. apply Z.add_nocarry_lxor. exact Hdisj.
Qed.

Lemma testbit21_off x :
  0 <= x < 2 ^ 22 -> Z.testbit x 21 = (2 ^ 21 <=? x).
Proof.
  intros Hx. rewrite Z.testbit_eqb by lia.
  change (2 ^ 22) with 4194304 in Hx. change (2 ^ 21) with 2097152.
  destruct (Z.leb_spec 2097152 x);
    [apply Z.eqb_eq | apply Z.eqb_neq];
    Z.to_euclidean_division_equations; lia.
Qed.

End ThumbPair.

(** X3.  For a second-halfword opcode whose low 11 bits are clear (as
    [thumbOpCodeBL1] and [thumbOpCodeBLX1] are) and 32-bit addresses [F]
    and [T] at an even distance with [-4 MiB + 4 <= T - F <= 4 MiB + 2],
    the pair that [makeThumbJumpOpCode] builds, read as the processor
    reads a [BL] pair at [F], has target [T]. *)
Theorem decode_makeThumbJumpOpCode (opCode F T : Z) :
  Z.land opCode 0x7FF = 0 ->
  is_u32 F -> is_u32 T -> (T - F) mod 2 = 0 ->
  - 2 ^ 22 + 4 <= T - F <= 2 ^ 22 + 2 ->
  decodeThumbTarget (makeThumbJumpOpCode opCode F T) F = T.
Proof.
  intros Hop HF HT Heven Hrange.
  unfold decodeThumbTarget, thumbPairOffset. cbv zeta.
  rewrite first_halfword, second_halfword.
  set (offset := sub32 (Z.shiftr (sub32 T F) 1) 2).
  rewrite high11, low11 by exact Hop.
  rewrite lor_shiftl_add by (try lia; apply Z.mod_pos_bound; lia).
  set (off := offset / 2 ^ 11 mod 2 ^ 11 * 2 ^ 11 + offset mod 2 ^ 11).
  assert (Hoff : off = ((T - F) / 2 - 2) mod 2 ^ 22).
  { subst off offset. unfold sub32, wrap32, is_u32 in *.
    rewrite Z.shiftr_div_pow2 by lia.
    change (2 ^ 32) with 4294967296 in *. change (2 ^ 22) with 4194304.
    change (2 ^ 11) with 2048. change (2 ^ 1) with 2.
    Z.to_euclidean_division_equations. lia. }
  assert (Hr : 0 <= off < 2 ^ 22)
    by (rewrite Hoff; apply Z.mod_pos_bound; lia).
  rewrite testbit21_off by exact Hr. rewrite Hoff in *.
  change (2 ^ 22) with 4194304 in *. change (2 ^ 21) with 2097152.
  destruct (Z.leb_spec 2097152 (((T - F) / 2 - 2) mod 4194304));
    Z.to_euclidean_division_equations; lia.
Qed.

(** The pair of the THUMB scenario. *)
Lemma decode_makeThumbJumpOpCode_witness :
  decodeThumbTarget (makeThumbJumpOpCode thumbOpCodeBL1 0x02000000 0x02020000)
                    0x02000000 = 0x02020000.
Proof.
  apply (decode_makeThumbJumpOpCode thumbOpCodeBL1 0x02000000 0x02020000);
    unfold is_u32; try reflexivity; lia.
Defined.

(** X4.  No offset alters the instruction class of the pair: the first
    halfword always has the top five bits of [thumbOpCodeBL0], and for a
    16-bit second-halfword opcode whose low 11 bits are clear the second
    halfword has the top five bits of that opcode. *)
Theorem makeThumbJumpOpCode_class_bits (opCode fromAddr toAddr : Z) :
  Z.land opCode 0xF800 = opCode ->
  Z.land (Z.land (makeThumbJumpOpCode opCode fromAddr toAddr) 0xFFFF) 0xF800
  = thumbOpCodeBL0
  /\ Z.land (Z.shiftr (makeThumbJumpOpCode opCode fromAddr toAddr) 16) 0xF800
     = opCode.
Proof.
  intros Hop. rewrite first_halfword, second_halfword.
  set (offset := sub32 (Z.shiftr (sub32 toAddr fromAddr) 1) 2).
  assert (Hw : forall z, Z.land (wrap16 z) 0xF800 = Z.land z 0xF800).
  { intros z. unfold wrap16. rewrite <- Z.land_ones by lia.
    rewrite <- Z.land_assoc. reflexivity. }
  rewrite !Hw, !Z.land_lor_distr_l. split.
  - change (Z.land thumbOpCodeBL0 0xF800) with thumbOpCodeBL0.
    rewrite Z.shiftr_land. change (Z.shiftr 0x3FF800 11) with 0x7FF.
    rewrite <- Z.land_assoc. change (Z.land 0x7FF 0xF800) with 0.
    rewrite Z.land_0_r. apply Z.lor_0_r.
  - rewrite Hop, <- Z.land_assoc. change (Z.land 0x7FF 0xF800) with 0.
    rewrite Z.land_0_r. apply Z.lor_0_r.
Qed.

Lemma makeThumbJumpOpCode_class_bits_witness :
  Z.land (Z.land (makeThumbJumpOpCode thumbOpCodeBLX1 0x02000000 0x02020000)
                 0xFFFF) 0xF800 = thumbOpCodeBL0
  /\ Z.land (Z.shiftr (makeThumbJumpOpCode thumbOpCodeBLX1 0x02000000
                                           0x02020000) 16) 0xF800
     = thumbOpCodeBLX1.
Proof.
  apply (makeThumbJumpOpCode_class_bits thumbOpCodeBLX1). reflexivity.
Defined.

(** ** The directive parser *)

Section ParserRecords.

Variable addrToInt : string -> option Z.

Lemma Util_indexOf_from_bound name names i k :
  Util_indexOf_from name names i = Some k ->
  (i <= k < i + N.of_nat (List.length names))%N.
Proof.
  revert i. induction names as [|n names IH]; intros i; cbn.
  - discriminate.
  - destruct (String.eqb name n).
    + intros [= <-]. lia.
    + intros H. apply IH in H. lia.
Qed.

Lemma Util_indexOf_patchType name k :
  Util_indexOf name s_patchTypeNames = Some k -> (k < 14)%N.
Proof.
  unfold Util_indexOf. intros H.
  apply Util_indexOf_from_bound in H. cbn in H. lia.
Qed.

Lemma land_even_u32 a : is_u32 (Z.land a 0xFFFFFFFE).
Proof.
  unfold is_u32. split.
  - apply Z.land_nonneg. right. lia.
  - assert (H : Z.land a 0xFFFFFFFE = Z.land (Z.land a 0xFFFFFFFE) (Z.ones 32)).
    { rewrite <- Z.land_assoc. reflexivity. }
    rewrite H, Z.land_ones by lia. apply Z.mod_pos_bound. lia.
Qed.

Lemma to_int_range z : - 2 ^ 31 <= to_int z < 2 ^ 31.
Proof.
  unfold to_int. pose proof (Z.mod_pos_bound (z + 2 ^ 31) (2 ^ 32)). lia.
Qed.

(** What every record built by [parseSymbol] looks like. *)
Lemma parseSymbol_record srcFileJob symbolName symbolAddr secIdx secSize p :
  parseSymbol addrToInt srcFileJob symbolName symbolAddr secIdx secSize
  = Patch p ->
  (patchType p <= PatchType.Over)%N
  /\ (isNcpSet p = true -> (patchType p <= PatchType.Hook)%N)
  /\ (patchType p = PatchType.Over ->
      secIdx <> -1 /\ srcAddressOv p = destAddressOv p)
  /\ sectionIdx p = secIdx /\ sectionSize p = secSize
  /\ symbol p = symbolName /\ job p = srcFileJob
  /\ srcAddress p = 0
  /\ is_u32 (destAddress p) /\ Z.land (destAddress p) 1 = 0
  /\ - 2 ^ 31 <= destAddressOv p < 2 ^ 31.
Proof.
  unfold parseSymbol. intros H.
  destruct (Str.find Str.underscore _ 0%nat) as [e|]; [|discriminate].
  destruct (Util_indexOf _ _) as [k|] eqn:Hk; [|discriminate].
  apply Util_indexOf_patchType in Hk.
  unfold PatchType.Over, PatchType.RtRepl, PatchType.TJump, PatchType.THook,
    PatchType.TSetJump, PatchType.TSetHook, PatchType.SetJump,
    PatchType.SetHook, PatchType.Jump, PatchType.Hook in *.
  repeat (case_match; try discriminate); simplify_eq;
    cbn [patchType isNcpSet srcAddressOv destAddressOv sectionIdx
         sectionSize symbol job srcAddress destAddress];
    repeat match goal with
           | H : (_ && _) = true |- _ => apply andb_true_iff in H as [? ?]
           | H : (_ && _) = false |- _ => apply andb_false_iff in H as [H | H]
           | H : (_ <=? _)%N = true |- _ => apply N.leb_le in H
           | H : (_ <=? _)%N = false |- _ => apply N.leb_gt in H
           | H : (_ =? _)%N = true |- _ => apply N.eqb_eq in H
           | H : (_ =? _)%N = false |- _ => apply N.eqb_neq in H
           | H : (_ =? _) = true |- _ => apply Z.eqb_eq in H
           | H : (_ =? _) = false |- _ => apply Z.eqb_neq in H
           end;
    pose proof (to_int_range 0);
    (split; [lia|]); (split; [intros; try discriminate; lia|]);
    (split; [intros; split; [lia | reflexivity || lia]|]);
    repeat (split; [reflexivity|]);
    (split; [apply land_even_u32|]);
    (split; [apply low_bit_cleared|]);
    first [apply to_int_range | lia].
Qed.

End ParserRecords.

Section GatherInvariant.

Variable addrToInt : string -> option Z.
Variable P : GenericPatchInfo -> Prop.

Hypothesis P_set_srcThumb : forall b p, P p -> P (set_srcThumb b p).
Hypothesis P_parseSymbol :
  forall srcFileJob symbolName symbolAddr secIdx secSize p,
    parseSymbol addrToInt srcFileJob symbolName symbolAddr secIdx secSize
    = Patch p -> P p.

Lemma record_outcome_inv o s :
  (forall p, o = Patch p -> P p) ->
  Forall P (patchInfoForThisObj s) ->
  Forall P (patchInfoForThisObj (record_outcome o s)).
Proof.
  intros Ho Hs. destruct o; cbn; try exact Hs.
  apply Forall_app. split; [exact Hs|]. constructor; [|constructor].
  apply Ho. reflexivity.
Qed.

Lemma scanSections_inv srcFileJob shs idx s :
  Forall P (patchInfoForThisObj s) ->
  Forall P (patchInfoForThisObj (scanSections addrToInt srcFileJob shs idx s)).
Proof.
  revert idx s. induction shs as [|sh shs IH]; intros idx s Hs; [exact Hs|].
  cbn [scanSections]. apply IH.
  destruct (Str.starts_with ".ncp_" (sh_name sh)); [|exact Hs].
  destruct (Str.starts_with "set" _); [exact Hs|].
  apply record_outcome_inv; [|exact Hs].
  intros p Hp. eapply P_parseSymbol. exact Hp.
Qed.

Lemma markSrcThumb_inv shndx b ps :
  Forall P ps -> Forall P (markSrcThumb shndx b ps).
Proof.
  induction 1 as [|p ps Hp Hps IH]; cbn; [constructor|].
  destruct (sectionIdx p =? shndx); constructor; auto.
Qed.

Lemma scanFunctions_inv syms ps :
  Forall P ps -> Forall P (scanFunctions syms ps).
Proof.
  unfold scanFunctions. revert ps.
  induction syms as [|sym syms IH]; intros ps Hps; [exact Hps|].
  cbn [fold_left]. apply IH.
  destruct (st_type sym =? STT_FUNC); [|exact Hps].
  apply markSrcThumb_inv. exact Hps.
Qed.

Lemma scanSymbols_inv srcFileJob syms s :
  Forall P (patchInfoForThisObj s) ->
  Forall P (patchInfoForThisObj (scanSymbols addrToInt srcFileJob syms s)).
Proof.
  unfold scanSymbols. revert s.
  induction syms as [|sym syms IH]; intros s Hs; [exact Hs|].
  cbn [fold_left]. apply IH.
  destruct (Str.starts_with "ncp_" (st_name sym)); [|exact Hs].
  destruct (negb _); [|exact Hs].
  apply record_outcome_inv; [|exact Hs].
  intros p Hp. eapply P_parseSymbol. exact Hp.
Qed.

Lemma gatherInfoFromObject_inv j g g' :
  Forall P (m_patchInfo g) ->
  gatherInfoFromObject addrToInt j g = Ok g' ->
  Forall P (m_patchInfo g').
Proof.
  intros Hg. unfold gatherInfoFromObject.
  destruct (snd j) as [elf|]; [|discriminate].
  intros [= <-]. cbn [m_patchInfo]. apply Forall_app. split; [exact Hg|].
  apply scanSymbols_inv. cbn [with_patches patchInfoForThisObj].
  apply scanFunctions_inv. apply scanSections_inv. constructor.
Qed.

Lemma forEach_gatherInfoFromObject_inv js g0 g1 :
  Forall P (m_patchInfo g0) ->
  forEach (gatherInfoFromObject addrToInt) js g0 = Ok g1 ->
  Forall P (m_patchInfo g1).
Proof.
  revert g0. induction js as [|j js IH]; intros g0 Hg0; cbn [forEach].
  - intros [= <-]. exact Hg0.
  - destruct (gatherInfoFromObject addrToInt j g0) as [g0'|e] eqn:Hj;
      [|discriminate].
    cbn [mbind Result_bind]. apply IH.
    eapply gatherInfoFromObject_inv; eassumption.
Qed.

Lemma gatherInfoFromObjects_inv srcFileJobs g :
  gatherInfoFromObjects addrToInt srcFileJobs = Ok g ->
  Forall P (m_patchInfo g).
Proof.
  unfold gatherInfoFromObjects. apply forEach_gatherInfoFromObject_inv.
  constructor.
Qed.

End GatherInvariant.

(** X5.  The records gathered from the objects carry one of the four
    kinds that the applier handles ([Jump], [Call], [Hook], [Over]): the
    [t] and [set] prefixes are folded into the flags and [rtrepl] never
    makes a record; and a set-style record is a [Jump], [Call] or
    [Hook]. *)
Theorem gathered_kinds
        (addrToInt : string -> option Z)
        (srcFileJobs : list (SourceFileJob * option Elf32))
        (g : PatchGathering) :
  gatherInfoFromObjects addrToInt srcFileJobs = Ok g ->
  Forall (fun p =>
            (patchType p = PatchType.Jump \/ patchType p = PatchType.Call
             \/ patchType p = PatchType.Hook \/ patchType p = PatchType.Over)
            /\ (isNcpSet p = true -> patchType p <> PatchType.Over))
         (m_patchInfo g).
Proof.
  apply gatherInfoFromObjects_inv.
  - intros b p H. exact H.
  - intros j name addr idx size p Hp.
    apply parseSymbol_record in Hp as (Hk & Hset & _).
    unfold PatchType.Jump, PatchType.Call, PatchType.Hook, PatchType.Over in *.
    split; [lia|]. intros Hs. specialize (Hset Hs). lia.
Qed.

Lemma gathered_kinds_witness :
  exists g,
    gatherInfoFromObjects addrToInt_hex
      [(Scenario.patch_job, Some AutogenScenario.object)] = Ok g
    /\ Forall (fun p =>
                 (patchType p = PatchType.Jump \/ patchType p = PatchType.Call
                  \/ patchType p = PatchType.Hook
                  \/ patchType p = PatchType.Over)
                 /\ (isNcpSet p = true -> patchType p <> PatchType.Over))
              (m_patchInfo g).
Proof.
  destruct (gatherInfoFromObjects addrToInt_hex
              [(Scenario.patch_job, Some AutogenScenario.object)])
    as [g|e] eqn:Hg; [|vm_compute in Hg; discriminate].
  exists g. split; [reflexivity|].
  apply (gathered_kinds addrToInt_hex _ g Hg).
Defined.

(** X6.  Among the gathered records an [Over] patch is always declared by
    a section and has the overlay of its destination as the overlay of
    its source; every other record has the destination of the region of
    its job as the overlay of its source. *)
Theorem gathered_over_records
        (addrToInt : string -> option Z)
        (srcFileJobs : list (SourceFileJob * option Elf32))
        (g : PatchGathering) :
  gatherInfoFromObjects addrToInt srcFileJobs = Ok g ->
  Forall (fun p =>
            (patchType p = PatchType.Over ->
             sectionIdx p <> -1 /\ srcAddressOv p = destAddressOv p)
            /\ (patchType p <> PatchType.Over ->
                srcAddressOv p = BuildTarget.destination (region (job p))))
         (m_patchInfo g).
Proof.
  apply gatherInfoFromObjects_inv.
  - intros b p H. exact H.
  - intros j name addr idx size p Hp.
    pose proof (parseSymbol_filed _ _ _ _ _ _ _ Hp) as Hfiled.
    apply parseSymbol_record in Hp as (_ & _ & Hover & Hidx & _).
    split.
    + intros Ho. rewrite Hidx. apply Hover. exact Ho.
    + intros Hno. apply Hfiled. apply N.eqb_neq. exact Hno.
Qed.

(** An object of the region of overlay 5 with an [Over] section for
    overlay 3 and a jump label for overlay 2: the [Over] record is
    declared by section 1 and has overlay 3 as the overlay of its source,
    not the destination 5 of its region; the jump has the destination 5
    of its region as the overlay of its source, not overlay 2. *)
Lemma gathered_over_records_witness :
  exists g,
    gatherInfoFromObjects addrToInt_hex
      [(GatherScenario.ov5_job, Some GatherScenario.object)] = Ok g
    /\ m_patchInfo g = [GatherScenario.over; GatherScenario.jump]
    /\ Forall (fun p =>
                 (patchType p = PatchType.Over ->
                  sectionIdx p <> -1 /\ srcAddressOv p = destAddressOv p)
                 /\ (patchType p <> PatchType.Over ->
                     srcAddressOv p
                     = BuildTarget.destination (region (job p))))
              (m_patchInfo g)
    /\ patchType GatherScenario.over = PatchType.Over
    /\ sectionIdx GatherScenario.over = 1
    /\ srcAddressOv GatherScenario.over = 3
    /\ destAddressOv GatherScenario.over = 3
    /\ BuildTarget.destination (region (job GatherScenario.over)) = 5
    /\ patchType GatherScenario.jump = PatchType.Jump
    /\ srcAddressOv GatherScenario.jump = 5
    /\ destAddressOv GatherScenario.jump = 2
    /\ BuildTarget.destination (region (job GatherScenario.jump)) = 5.
Proof.
  destruct (gatherInfoFromObjects addrToInt_hex
              [(GatherScenario.ov5_job, Some GatherScenario.object)])
    as [g|e] eqn:Hg; [|vm_compute in Hg; discriminate].
  exists g. split; [reflexivity|].
  split; [vm_compute in Hg; injection Hg as <-; reflexivity|].
  split; [apply (gathered_over_records addrToInt_hex _ g Hg)|].
  repeat split.
Defined.

(** X7.  Every gathered record has an even 32-bit destination address (its
    low bit lives in [destThumb]), an overlay number that fits an [int],
    and the source address 0 until the linked ELF is read. *)
Theorem gathered_addresses
        (addrToInt : string -> option Z)
        (srcFileJobs : list (SourceFileJob * option Elf32))
        (g : PatchGathering) :
  gatherInfoFromObjects addrToInt srcFileJobs = Ok g ->
  Forall (fun p =>
            is_u32 (destAddress p) /\ Z.land (destAddress p) 1 = 0
            /\ - 2 ^ 31 <= destAddressOv p < 2 ^ 31
            /\ srcAddress p = 0)
         (m_patchInfo g).
Proof.
  apply gatherInfoFromObjects_inv.
  - intros b p H. exact H.
  - intros j name addr idx size p Hp.
    apply parseSymbol_record in Hp. tauto.
Qed.

Lemma gathered_addresses_witness :
  exists g,
    gatherInfoFromObjects addrToInt_hex
      [(Scenario.patch_job, Some AutogenScenario.object)] = Ok g
    /\ Forall (fun p =>
                 is_u32 (destAddress p) /\ Z.land (destAddress p) 1 = 0
                 /\ - 2 ^ 31 <= destAddressOv p < 2 ^ 31
                 /\ srcAddress p = 0)
              (m_patchInfo g).
Proof.
  destruct (gatherInfoFromObjects addrToInt_hex
              [(Scenario.patch_job, Some AutogenScenario.object)])
    as [g|e] eqn:Hg; [|vm_compute in Hg; discriminate].
  exists g. split; [reflexivity|].
  apply (gathered_addresses addrToInt_hex _ g Hg).
Defined.

Section GatherExterns.

Variable addrToInt : string -> option Z.

Lemma filter_isLabel_app ps qs :
  List.filter isLabelPatch (ps ++ qs)
  = List.filter isLabelPatch ps ++ List.filter isLabelPatch qs.
Proof. apply List.filter_app. Qed.

Lemma forEach_gatherInfoFromObject_externs js g0 g1 :
  m_externSymbols g0
  = List.map symbol (List.filter isLabelPatch (m_patchInfo g0)) ->
  forEach (gatherInfoFromObject addrToInt) js g0 = Ok g1 ->
  m_externSymbols g1
  = List.map symbol (List.filter isLabelPatch (m_patchInfo g1)).
Proof.
  revert g0. induction js as [|j js IH]; intros g0 Hg0; cbn [forEach].
  - intros [= <-]. exact Hg0.
  - destruct (gatherInfoFromObject addrToInt j g0) as [g0'|e] eqn:Hj;
      [|discriminate].
    cbn [mbind Result_bind]. apply IH.
    unfold gatherInfoFromObject in Hj.
    destruct (snd j) as [elf|]; [|discriminate].
    injection Hj as <-. cbn [m_externSymbols m_patchInfo].
    rewrite filter_isLabel_app, List.map_app, Hg0. reflexivity.
Qed.

End GatherExterns.

(** X8.  The symbols listed for [EXTERN] are exactly the symbols of the
    label-declared records, in the order of the records. *)
Theorem gathered_extern_symbols
        (addrToInt : string -> option Z)
        (srcFileJobs : list (SourceFileJob * option Elf32))
        (g : PatchGathering) :
  gatherInfoFromObjects addrToInt srcFileJobs = Ok g ->
  m_externSymbols g
  = List.map symbol (List.filter isLabelPatch (m_patchInfo g)).
Proof.
  unfold gatherInfoFromObjects.
  apply forEach_gatherInfoFromObject_externs. reflexivity.
Qed.

Lemma gathered_extern_symbols_witness :
  exists g,
    gatherInfoFromObjects addrToInt_hex
      [(Scenario.patch_job, Some AutogenScenario.object)] = Ok g
    /\ m_externSymbols g
       = List.map symbol (List.filter isLabelPatch (m_patchInfo g))
    /\ m_externSymbols g
       = ["ncp_hook_02000000"; "ncp_jump_02000004"]%string.
Proof.
  destruct (gatherInfoFromObjects addrToInt_hex
              [(Scenario.patch_job, Some AutogenScenario.object)])
    as [g|e] eqn:Hg; [|vm_compute in Hg; discriminate].
  exists g. split; [reflexivity|].
  split; [apply (gathered_extern_symbols addrToInt_hex _ g Hg)|].
  vm_compute in Hg. injection Hg as <-. reflexivity.
Defined.

Section GatherErrors.

Variable addrToInt : string -> option Z.

Lemma gatherInfoFromObject_Ok j g :
  snd j <> None -> exists g', gatherInfoFromObject addrToInt j g = Ok g'.
Proof.
  unfold gatherInfoFromObject. destruct (snd j); [eauto | congruence].
Qed.

Lemma forEach_gatherInfoFromObject_outcome js g0 :
  match forEach (gatherInfoFromObject addrToInt) js g0 with
  | Ok _ => Forall (fun j => snd j <> None) js
  | Throw e =>
      exists pre j post,
        js = pre ++ j :: post
        /\ Forall (fun j => snd j <> None) pre
        /\ snd j = None
        /\ e = file_error (objFilePath (fst j))
  end.
Proof.
  revert g0. induction js as [|j js IH]; intros g0; cbn [forEach].
  - constructor.
  - destruct (snd j) as [elf|] eqn:Hj.
    + destruct (gatherInfoFromObject_Ok j g0) as [g' Hg']; [congruence|].
      rewrite Hg'. cbn [mbind Result_bind]. specialize (IH g').
      destruct (forEach _ js g').
      * constructor; [congruence | exact IH].
      * destruct IH as (pre & j' & post & -> & Hpre & Hnone & ->).
        exists (j :: pre), j', post. repeat split; auto.
        constructor; [congruence | exact Hpre].
    + unfold gatherInfoFromObject. rewrite Hj. cbn [mbind Result_bind].
      exists [], j, js. repeat split; auto.
Qed.

End GatherErrors.

(** X9.  The scan of the objects fails exactly when an object file is
    missing or unreadable, and the error then names the first such
    object; the objects after it are not looked at. *)
Theorem gatherInfoFromObjects_errors
        (addrToInt : string -> option Z)
        (srcFileJobs : list (SourceFileJob * option Elf32)) :
  ((exists g, gatherInfoFromObjects addrToInt srcFileJobs = Ok g)
   <-> Forall (fun j => snd j <> None) srcFileJobs)
  /\ (forall e,
         gatherInfoFromObjects addrToInt srcFileJobs = Throw e <->
         exists pre j post,
           srcFileJobs = pre ++ j :: post
           /\ Forall (fun j => snd j <> None) pre
           /\ snd j = None
           /\ e = file_error (objFilePath (fst j))).
Proof.
  unfold gatherInfoFromObjects.
  pose proof (forEach_gatherInfoFromObject_outcome addrToInt srcFileJobs
                no_patches) as H.
  destruct (forEach _ srcFileJobs no_patches) as [g|e0].
  - split.
    + split; [intros _; exact H | eauto].
    + intros e. split; [discriminate|].
      intros (pre & j & post & -> & _ & Hnone & _).
      apply Forall_app in H as [_ H]. inversion H; subst. contradiction.
  - destruct H as (pre & j & post & -> & Hpre & Hnone & ->). split.
    + split; [intros [g Hg]; discriminate|].
      intros H. apply Forall_app in H as [_ H]. inversion H; subst.
      contradiction.
    + intros e. split.
      * intros [= <-]. exists pre, j, post. auto.
      * intros (pre' & j' & post' & Heq & Hpre' & Hnone' & ->).
        f_equal. f_equal. f_equal.
        (* the first missing object is determined by the list *)
        revert pre' Heq Hpre'. induction pre as [|x pre IH];
          intros [|x' pre'] Heq Hpre'.
        -- injection Heq as -> _. reflexivity.
        -- injection Heq as -> _. inversion Hpre'; subst. contradiction.
        -- injection Heq as <- _. inversion Hpre; subst. contradiction.
        -- injection Heq as -> Heq. inversion Hpre; inversion Hpre'; subst.
           eapply IH; eassumption.
Qed.

Section ParserDestination.

Lemma low_bit_odd x : negb (Z.land x 1 =? 0) = Z.odd x.
Proof.
  change 1 with (Z.ones 1) at 1. rewrite Z.land_ones by lia.
  rewrite <- Z.bit0_odd, Z.bit0_eqb. change (2 ^ 1) with 2.
  pose proof (Z.mod_pos_bound x 2).
  destruct (Z.eqb_spec (x mod 2) 0) as [-> | Hne]; [reflexivity|].
  symmetry. apply Z.eqb_eq. lia.
Qed.

Lemma low_bit_odd_lor x : negb (Z.land (Z.lor x 1) 1 =? 0) = true.
Proof. rewrite low_bit_lor. reflexivity. Qed.

End ParserDestination.

(** X10.  What a directive name decides about the record, for every kind:
    the record has the kind without its [t] and [set] prefixes, is
    set-style exactly for the [set] and [tset] kinds, holds the address of
    the name with its low bit cleared, has [destThumb] on exactly when the
    kind carries the [t] prefix or the address of the name is odd, and
    takes [srcThumb] from the low bit of the value of the declaring
    symbol. *)
Theorem parseSymbol_destination
        (addrToInt : string -> option Z) (srcFileJob : SourceFileJob)
        (symbolName : string) (symbolAddr secIdx secSize : Z)
        (k : N) (a : Z) (p : GenericPatchInfo) :
  directiveKind symbolName secIdx = Some k ->
  directiveAddress addrToInt symbolName secIdx = Some a ->
  parseSymbol addrToInt srcFileJob symbolName symbolAddr secIdx secSize
  = Patch p ->
  patchType p = underlyingKind k
  /\ isNcpSet p
     = ((PatchType.SetJump <=? k)%N && (k <=? PatchType.SetHook)%N
        || (PatchType.TSetJump <=? k)%N)
  /\ destAddress p = Z.land (wrap32 a) 0xFFFFFFFE
  /\ destThumb p = ((PatchType.TJump <=? k)%N || Z.odd (wrap32 a))
  /\ srcThumb p = Z.odd symbolAddr.
Proof.
  unfold directiveKind, directiveAddress, parseSymbol.
  destruct (Str.find Str.underscore _ 0%nat) as [e|]; [|discriminate].
  intros Hk. rewrite Hk.
  assert (Hcases : (k = 0 \/ k = 1 \/ k = 2 \/ k = 3 \/ k = 4 \/ k = 5
                    \/ k = 6 \/ k = 7 \/ k = 8 \/ k = 9 \/ k = 10 \/ k = 11
                    \/ k = 12 \/ k = 13)%N)
    by (apply Util_indexOf_patchType in Hk; lia).
  clear Hk.
  destruct Hcases
    as [-> | [-> | [-> | [-> | [-> | [-> | [-> | [-> | [-> | [-> | [->
        | [-> | [-> | ->]]]]]]]]]]]]];
    cbv beta iota zeta delta
        [PatchType.Over PatchType.RtRepl PatchType.TJump PatchType.THook
         PatchType.TSetJump PatchType.TSetHook PatchType.SetJump
         PatchType.SetHook PatchType.Jump N.eqb N.leb N.compare N.sub
         Pos.eqb Pos.compare Pos.compare_cont Pos.sub_mask Pos.double_mask
         Pos.succ_double_mask Pos.double_pred_mask Pos.pred_double
         andb orb underlyingKind PatchType.TCall PatchType.TSetCall
         PatchType.SetCall PatchType.Call PatchType.Hook];
    try (destruct (secIdx =? -1); cbn [negb]; discriminate);
    try (destruct (secIdx =? -1); [discriminate|]);
    (destruct (Str.find Str.underscore _ (S e)) as [e'|];
     intros Ha; rewrite Ha; cbv beta iota zeta;
     [ destruct (Str.starts_with _ _); cbn [negb]; [|discriminate];
       match goal with
       | |- context [match addrToInt ?x with _ => _ end] =>
           destruct (addrToInt x) as [ov|]; [|discriminate]
       end
     | ];
     intros [= <-]; cbn [patchType isNcpSet destThumb destAddress srcThumb];
     rewrite ?low_bit_odd_lor, ?clear_low_bit_lor, ?low_bit_odd;
     repeat split).
Qed.

(** The label [ncp_sethook_02000101_ov3]: a set-style hook of overlay 3 at
    an odd address. *)
Lemma parseSymbol_destination_witness :
  exists p,
    directiveKind "ncp_sethook_02000101_ov3" (-1) = Some PatchType.SetHook
    /\ directiveAddress addrToInt_hex "ncp_sethook_02000101_ov3" (-1)
       = Some 0x02000101
    /\ parseSymbol addrToInt_hex Scenario.patch_job "ncp_sethook_02000101_ov3"
                   0x02020000 (-1) 0 = Patch p
    /\ patchType p = PatchType.Hook
    /\ isNcpSet p = true
    /\ destAddress p = 0x02000100
    /\ destAddressOv p = 3
    /\ destThumb p = true
    /\ srcThumb p = false.
Proof.
  destruct (parseSymbol addrToInt_hex Scenario.patch_job
              "ncp_sethook_02000101_ov3" 0x02020000 (-1) 0)
    as [| | | |p] eqn:Hp; try (vm_compute in Hp; discriminate).
  exists p.
  destruct (parseSymbol_destination addrToInt_hex Scenario.patch_job
              "ncp_sethook_02000101_ov3" 0x02020000 (-1) 0
              PatchType.SetHook 0x02000101 p eq_refl eq_refl Hp)
    as (Hty & Hset & Hdest & HdT & HsT).
  repeat split; try assumption.
  vm_compute in Hp. injection Hp as <-. reflexivity.
Defined.

Section PlannerEntries.

Lemma bridgeBytes_cons d info ps :
  bridgeBytes d (info :: ps)
  = ((if inRegion d info then bridgeSize info else 0%nat)
     + bridgeBytes d ps)%nat.
Proof.
  unfold bridgeBytes. cbn [List.filter].
  destruct (inRegion d info); reflexivity.
Qed.

Lemma planPatchInRegion_closed info r :
  (patchType info =? PatchType.Over)%N = false ->
  0 <= autogenDataSize r < 2 ^ 64 ->
  planPatchInRegion info r
  = {| dest := dest r; lds_region := lds_region r;
       autogenDataSize :=
         wrap_size_t
           (autogenDataSize r
            + Z.of_nat (if inRegion (dest r) info then bridgeSize info
                        else 0%nat));
       sectionPatches :=
         sectionPatches r
         ++ (if collectedBy (dest r) info then [info] else []) |}.
Proof.
  intros Hover Hr.
  unfold planPatchInRegion, collectedBy, inRegion, bridgeSize,
    add_autogenDataSize, add_sectionPatch.
  rewrite Hover. destruct r as [d reg sz sp]. cbn in Hr |- *.
  destruct (d =? _); cbn [negb andb];
    [|rewrite Z.add_0_r, wrap_size_t_small, app_nil_r by exact Hr;
      reflexivity].
  destruct (sectionIdx info =? -1); cbn [negb];
    rewrite ?app_nil_r;
    destruct (patchType info =? PatchType.Hook)%N; try reflexivity;
    destruct (patchType info =? PatchType.Jump)%N; cbn [andb];
    try (rewrite Z.add_0_r, wrap_size_t_small by exact Hr; reflexivity);
    destruct (negb (destThumb info) && srcThumb info); try reflexivity;
    rewrite Z.add_0_r, wrap_size_t_small by exact Hr; reflexivity.
Qed.

Lemma planAll_closed ps r :
  0 <= autogenDataSize r < 2 ^ 64 ->
  planAll ps r
  = {| dest := dest r; lds_region := lds_region r;
       autogenDataSize :=
         wrap_size_t (autogenDataSize r
                      + Z.of_nat (bridgeBytes (dest r) ps));
       sectionPatches :=
         sectionPatches r ++ List.filter (collectedBy (dest r)) ps |}.
Proof.
  revert r. induction ps as [|info ps IH]; intros r Hr.
  - cbn. rewrite Z.add_0_r, wrap_size_t_small, app_nil_r by exact Hr.
    destruct r; reflexivity.
  - rewrite planAll_cons, bridgeBytes_cons. cbn [List.filter].
    destruct (patchType info =? PatchType.Over)%N eqn:Hover.
    + rewrite IH by exact Hr. unfold collectedBy, inRegion.
      rewrite Hover. reflexivity.
    + rewrite (planPatchInRegion_closed info r Hover Hr).
      rewrite IH by (cbn; apply wrap_size_t_range). cbn.
      rewrite wrap_size_t_add, <- app_assoc. f_equal.
      * f_equal. lia.
      * destruct (collectedBy (dest r) info); reflexivity.
Qed.

End PlannerEntries.

Section RegionOrder.

Lemma regionBefore_total : Total regionBefore.
Proof. intros a b. unfold regionBefore. lia. Qed.

Lemma regionBefore_trans : Transitive regionBefore.
Proof. intros a b c. unfold regionBefore. lia. Qed.

Lemma sortRegions_sorted regions :
  StronglySorted regionBefore (sortRegions regions).
Proof.
  apply (StronglySorted_merge_sort regionBefore
           (Transitive0 := regionBefore_trans)
           (Total0 := regionBefore_total)).
Qed.

(** Whatever the sort does with regions of one destination, the
    destinations come out in one order. *)
Lemma sorted_destinations (l1 l2 : list BuildTarget.Region) :
  l1 ≡ₚ l2 ->
  StronglySorted regionBefore l1 -> StronglySorted regionBefore l2 ->
  List.map BuildTarget.destination l1 = List.map BuildTarget.destination l2.
Proof.
  intros Hp H1 H2.
  assert (Ha : AntiSymm eq (fun x y : Z => y <= x))
    by (intros x y Hxy Hyx; lia).
  apply (@StronglySorted_unique _ (fun x y : Z => y <= x) Ha).
  - apply (StronglySorted_fmap _ regionBefore); [auto | exact H1].
  - apply (StronglySorted_fmap _ regionBefore); [auto | exact H2].
  - apply fmap_Permutation. exact Hp.
Qed.

End RegionOrder.

(** X11.  The region entries the layout planner hands to the linker
    script, from the regions of the target as they are declared.  The
    regions are first sorted by descending destination, so that the
    overlays come before the main binary; there is one entry per region,
    in the sorted order.  Each entry holds, in the order of the patch
    list, exactly the records declared by a section that are not [Over]
    patches and whose job belongs to a region of the same destination (a
    label patch and an [Over] patch are collected by no entry), and its
    autogen size is the bridge bytes of the records of its destination,
    counted in [std::size_t].  [std::sort] leaves the order among regions
    of one destination open: for every order it may leave, the entries
    are those of the regions in that order, and their destinations are in
    the order computed here. *)
Theorem regionEntries_closed
        (regions : list BuildTarget.Region)
        (patchInfo : list GenericPatchInfo) :
  regionEntries regions patchInfo
  = List.map (regionEntryOf patchInfo) (sortRegions regions)
  /\ sortRegions regions ≡ₚ regions
  /\ StronglySorted regionBefore (sortRegions regions)
  /\ (forall orderedRegions,
         orderedRegions ≡ₚ regions ->
         StronglySorted regionBefore orderedRegions ->
         planRegionEntries orderedRegions patchInfo
         = List.map (regionEntryOf patchInfo) orderedRegions
         /\ List.map dest (planRegionEntries orderedRegions patchInfo)
            = List.map dest (regionEntries regions patchInfo)).
Proof.
  assert (Hclosed : forall rs,
             planRegionEntries rs patchInfo
             = List.map (regionEntryOf patchInfo) rs).
  { intros rs. rewrite planRegionEntries_planAll. apply List.map_ext.
    intros region. rewrite planAll_closed by (cbn; lia). reflexivity. }
  split; [apply Hclosed|].
  split; [apply merge_sort_Permutation|].
  split; [apply sortRegions_sorted|].
  intros orderedRegions Hperm Hsorted.
  split; [apply Hclosed|].
  unfold regionEntries. rewrite !Hclosed, !List.map_map. cbn [dest regionEntryOf].
  apply sorted_destinations;
    [|exact Hsorted | apply sortRegions_sorted].
  rewrite Hperm. symmetry. apply merge_sort_Permutation.
Qed.

(** A target that declares the main binary before overlay 3: the entry of
    the overlay comes first. *)
Lemma regionEntries_closed_witness :
  List.map dest
    (regionEntries [Scenario.arm_region; AppendScenario.region]
                   [HookScenario.hook])
  = [3; -1]
  /\ List.map autogenDataSize
       (regionEntries [Scenario.arm_region; AppendScenario.region]
                      [HookScenario.hook])
     = [0; 20]
  /\ sortRegions [Scenario.arm_region; AppendScenario.region]
     = [AppendScenario.region; Scenario.arm_region]
  /\ [AppendScenario.region; Scenario.arm_region]
     ≡ₚ [Scenario.arm_region; AppendScenario.region]
  /\ StronglySorted regionBefore
       [AppendScenario.region; Scenario.arm_region]
  /\ List.map dest
       (planRegionEntries [AppendScenario.region; Scenario.arm_region]
                          [HookScenario.hook])
     = List.map dest
         (regionEntries [Scenario.arm_region; AppendScenario.region]
                        [HookScenario.hook]).
Proof.
  assert (Hperm : [AppendScenario.region; Scenario.arm_region]
                  ≡ₚ [Scenario.arm_region; AppendScenario.region])
    by apply perm_swap.
  assert (Hsorted : StronglySorted regionBefore
                      [AppendScenario.region; Scenario.arm_region]).
  { repeat constructor. vm_compute. discriminate. }
  destruct (regionEntries_closed
              [Scenario.arm_region; AppendScenario.region]
              [HookScenario.hook]) as (Heq & _ & _ & Hany).
  destruct (Hany _ Hperm Hsorted) as (_ & Hdest).
  split; [rewrite Heq; reflexivity|].
  split; [rewrite Heq; reflexivity|].
  split; [reflexivity|].
  split; [exact Hperm|].
  split; [exact Hsorted|].
  exact Hdest.
Defined.

(** ** The post-link resolver: what it keeps *)

Section ResolverInvariant.

Variable stoi : string -> option Z.

Variable R : GenericPatchInfo -> GenericPatchInfo -> Prop.
Hypothesis R_refl : forall p, R p p.
Hypothesis R_trans : forall p q r, R p q -> R q r -> R p r.
Hypothesis R_set_resolved : forall a i s p, R p (set_resolved a i s p).

Lemma Forall2_R_refl ps : Forall2 R ps ps.
Proof. induction ps; constructor; auto. Qed.

Lemma Forall2_R_trans ps qs rs :
  Forall2 R ps qs -> Forall2 R qs rs -> Forall2 R ps rs.
Proof.
  intros H. revert rs. induction H as [|p q ps qs Hpq _ IH]; intros rs Hq.
  - inversion Hq. constructor.
  - inversion Hq as [|q' r qs' rs' Hqr Hrest]; subst.
    constructor; [eapply R_trans; eassumption | apply IH; assumption].
Qed.

Lemma mapResult_rel (f : GenericPatchInfo -> Result GenericPatchInfo)
      ps ps' :
  (forall p p', f p = Ok p' -> R p p') ->
  mapResult f ps = Ok ps' -> Forall2 R ps ps'.
Proof.
  intros Hf. revert ps'. induction ps as [|p ps IH]; intros ps'; cbn.
  - intros [= <-]. constructor.
  - destruct (f p) as [p'|] eqn:Hp; [|discriminate].
    cbn [mbind Result_bind].
    destruct (mapResult f ps) as [qs|]; [|discriminate].
    cbn [mbind Result_bind]. intros [= <-].
    constructor; [apply Hf; exact Hp | apply IH; reflexivity].
Qed.

Lemma map_rel (f : GenericPatchInfo -> GenericPatchInfo) ps :
  (forall p, R p (f p)) -> Forall2 R ps (List.map f ps).
Proof. intros Hf. induction ps; cbn; constructor; auto. Qed.

Lemma resolveSymbol_rel sym p p' : resolveSymbol sym p = Ok p' -> R p p'.
Proof.
  unfold resolveSymbol. intros H.
  repeat (case_match; try discriminate); injection H as <-; auto.
Qed.

Lemma resolveOver_rel idx section p : R p (resolveOver idx section p).
Proof. unfold resolveOver. case_match; auto. Qed.

Lemma readNcpSet_rel section p p' : readNcpSet section p = Ok p' -> R p p'.
Proof.
  unfold readNcpSet. intros H.
  repeat (case_match; try discriminate); injection H as <-; auto.
Qed.

Lemma resolveSymbols_rel sym st st' :
  resolveSymbols stoi sym st = Ok st' -> Forall2 R (fst st) (fst st').
Proof.
  unfold resolveSymbols.
  destruct (mapResult (resolveSymbol sym) (fst st)) as [ps|] eqn:Hps;
    [|discriminate].
  cbn [mbind Result_bind].
  pose proof (mapResult_rel _ _ _ (resolveSymbol_rel sym) Hps) as Hrel.
  intros H. repeat (case_match; try discriminate); injection H as <-;
    exact Hrel.
Qed.

Lemma forEach_resolveSymbols_rel syms st st' :
  forEach (resolveSymbols stoi) syms st = Ok st' ->
  Forall2 R (fst st) (fst st').
Proof.
  revert st. induction syms as [|sym syms IH]; intros st; cbn [forEach].
  - intros [= <-]. apply Forall2_R_refl.
  - destruct (resolveSymbols stoi sym st) as [st1|] eqn:H1; [|discriminate].
    cbn [mbind Result_bind]. intros H2.
    apply resolveSymbols_rel in H1. apply IH in H2.
    eapply Forall2_R_trans; eassumption.
Qed.

Lemma resolveSection_rel section st st' :
  resolveSection stoi section st = Ok st' -> Forall2 R (snd st) (snd st').
Proof.
  unfold resolveSection.
  pose proof (map_rel (resolveOver (fst st) section) (snd st)
                      (resolveOver_rel (fst st) section)) as Hover.
  intros H. repeat (case_match; try discriminate).
  - destruct (mapResult _ _) as [ps|] eqn:Hps; [|discriminate].
    cbn [mbind Result_bind] in H. injection H as <-. cbn [snd].
    eapply Forall2_R_trans; [exact Hover|].
    eapply mapResult_rel; [|exact Hps].
    apply readNcpSet_rel.
  - injection H as <-. exact Hover.
  - injection H as <-. exact Hover.
Qed.

Lemma forEach_resolveSection_rel sections st st' :
  forEach (resolveSection stoi) sections st = Ok st' ->
  Forall2 R (snd st) (snd st').
Proof.
  revert st. induction sections as [|sec secs IH]; intros st; cbn [forEach].
  - intros [= <-]. apply Forall2_R_refl.
  - destruct (resolveSection stoi sec st) as [st1|] eqn:H1; [|discriminate].
    cbn [mbind Result_bind]. intros H2.
    apply resolveSection_rel in H1. apply IH in H2.
    eapply Forall2_R_trans; eassumption.
Qed.

Lemma gatherInfoFromElf_rel patchInfo pm patchInfo' pm1 :
  gatherInfoFromElf stoi patchInfo pm = Ok (patchInfo', pm1) ->
  Forall2 R patchInfo patchInfo'
  /\ snd (checkOverlappingPatches patchInfo') = Ok tt.
Proof.
  unfold gatherInfoFromElf.
  destruct (forEach (resolveSymbols stoi) _ _) as [st|] eqn:H1;
    [|discriminate].
  cbn [mbind Result_bind].
  destruct (forEach (resolveSection stoi) _ _) as [st'|] eqn:H2;
    [|discriminate].
  cbn [mbind Result_bind].
  destruct (snd (checkOverlappingPatches (snd st'))) as [[]|] eqn:Hc;
    [|discriminate].
  cbn [mbind Result_bind]. intros [= <- <-].
  apply forEach_resolveSymbols_rel in H1.
  apply forEach_resolveSection_rel in H2. cbn [fst snd] in *.
  split; [eapply Forall2_R_trans; eassumption | exact Hc].
Qed.

End ResolverInvariant.

Section ResolvedFrom.

Lemma resolvedFrom_refl p : resolvedFrom p p.
Proof. destruct p; reflexivity. Qed.

Lemma resolvedFrom_trans p q r :
  resolvedFrom p q -> resolvedFrom q r -> resolvedFrom p r.
Proof.
  unfold resolvedFrom. intros Hq Hr. rewrite Hr at 1. rewrite Hq.
  reflexivity.
Qed.

Lemma resolvedFrom_set_resolved a i s p :
  resolvedFrom p (set_resolved a i s p).
Proof. reflexivity. Qed.

Lemma resolvedFrom_overlapTest a a' b b' :
  resolvedFrom a a' -> resolvedFrom b b' ->
  overlapTest a' b' = overlapTest a b.
Proof. intros -> ->. reflexivity. Qed.

Lemma resolvedFrom_filter a a' ps ps' :
  resolvedFrom a a' -> Forall2 resolvedFrom ps ps' ->
  List.length (List.filter (overlapTest a') ps')
  = List.length (List.filter (overlapTest a) ps).
Proof.
  intros Ha H. induction H as [|b b' ps ps' Hb _ IH]; [reflexivity|].
  cbn [List.filter]. rewrite (resolvedFrom_overlapTest _ _ _ _ Ha Hb).
  destruct (overlapTest a b); cbn [List.length]; rewrite IH; reflexivity.
Qed.

Lemma resolvedFrom_reportsOf ps ps' :
  Forall2 resolvedFrom ps ps' ->
  List.length (reportsOf ps') = List.length (reportsOf ps).
Proof.
  intros H. induction H as [|a a' ps ps' Ha Hps IH]; [reflexivity|].
  cbn [reportsOf]. rewrite !List.length_app, !List.length_map, IH.
  rewrite (resolvedFrom_filter _ _ _ _ Ha Hps). reflexivity.
Qed.

Lemma resolvedFrom_check ps ps' :
  Forall2 resolvedFrom ps ps' ->
  snd (checkOverlappingPatches ps') = snd (checkOverlappingPatches ps).
Proof.
  intros H. unfold checkOverlappingPatches. cbn [snd].
  rewrite !overlapOuter_closed. cbn [snd orb].
  rewrite (resolvedFrom_reportsOf _ _ H). reflexivity.
Qed.

End ResolvedFrom.

(** X12.  When the post-link resolver succeeds, the records come out one
    for one and in order, and each differs from the gathered record at
    most in its source address, its section index and its symbol name:
    the kind, the destination address and overlay, the region, the
    section size, the flags and the job are those the parser set. *)
Theorem gatherInfoFromElf_keeps_directives
        (stoi : string -> option Z)
        (patchInfo patchInfo' : list GenericPatchInfo) (pm pm1 : PatchMaker) :
  gatherInfoFromElf stoi patchInfo pm = Ok (patchInfo', pm1) ->
  Forall2 resolvedFrom patchInfo patchInfo'.
Proof.
  intros H.
  apply (gatherInfoFromElf_rel stoi resolvedFrom resolvedFrom_refl
           resolvedFrom_trans resolvedFrom_set_resolved) in H.
  apply H.
Qed.

(** The hook of the scenario, gathered at address 0 and resolved at
    [0x02030000]. *)
Lemma gatherInfoFromElf_keeps_directives_witness :
  exists ps' pm1,
    gatherInfoFromElf AutogenScenario.no_stoi
      [Scenario.patch PatchType.Hook 0x02000000 0 false false
                      "ncp_hook_02000000"]
      AutogenScenario.pm = Ok (ps', pm1)
    /\ Forall2 resolvedFrom
         [Scenario.patch PatchType.Hook 0x02000000 0 false false
                         "ncp_hook_02000000"]
         ps'.
Proof.
  destruct (gatherInfoFromElf AutogenScenario.no_stoi
              [Scenario.patch PatchType.Hook 0x02000000 0 false false
                              "ncp_hook_02000000"]
              AutogenScenario.pm) as [[ps' pm1]|e] eqn:H;
    [|vm_compute in H; discriminate].
  exists ps', pm1. split; [reflexivity|].
  apply (gatherInfoFromElf_keeps_directives _ _ _ _ _ H).
Defined.

(** X13.  Whether the patches overlap is settled by the directives alone:
    the overlap check gives the same outcome on the resolved records as
    on the gathered ones, so that the resolver succeeds only on gathered
    records that pass the check, and what it returns passes it too. *)
Theorem gatherInfoFromElf_no_overlap
        (stoi : string -> option Z)
        (patchInfo patchInfo' : list GenericPatchInfo) (pm pm1 : PatchMaker) :
  gatherInfoFromElf stoi patchInfo pm = Ok (patchInfo', pm1) ->
  snd (checkOverlappingPatches patchInfo) = Ok tt
  /\ snd (checkOverlappingPatches patchInfo') = Ok tt.
Proof.
  intros H.
  apply (gatherInfoFromElf_rel stoi resolvedFrom resolvedFrom_refl
           resolvedFrom_trans resolvedFrom_set_resolved) in H
    as [Hrel Hcheck].
  split; [|exact Hcheck].
  rewrite <- (resolvedFrom_check _ _ Hrel). exact Hcheck.
Qed.

Lemma gatherInfoFromElf_no_overlap_witness :
  exists ps' pm1,
    gatherInfoFromElf AutogenScenario.no_stoi
      [Scenario.patch PatchType.Hook 0x02000000 0 false false
                      "ncp_hook_02000000";
       Scenario.patch PatchType.Jump 0x02000004 0 true false
                      "ncp_jump_02000004"]
      AutogenScenario.pm = Ok (ps', pm1)
    /\ snd (checkOverlappingPatches
              [Scenario.patch PatchType.Hook 0x02000000 0 false false
                              "ncp_hook_02000000";
               Scenario.patch PatchType.Jump 0x02000004 0 true false
                              "ncp_jump_02000004"]) = Ok tt
    /\ snd (checkOverlappingPatches ps') = Ok tt.
Proof.
  destruct (gatherInfoFromElf AutogenScenario.no_stoi
              [Scenario.patch PatchType.Hook 0x02000000 0 false false
                              "ncp_hook_02000000";
               Scenario.patch PatchType.Jump 0x02000004 0 true false
                              "ncp_jump_02000004"]
              AutogenScenario.pm) as [[ps' pm1]|e] eqn:H;
    [|vm_compute in H; discriminate].
  exists ps', pm1. split; [reflexivity|].
  apply (gatherInfoFromElf_no_overlap _ _ _ _ _ H).
Defined.

(** ** The post-link resolver: the autogen records *)

Section ResolverAutogen.

Variable stoi : string -> option Z.
Variable elf : Elf32.

Lemma extendsAutogen_refl m : extendsAutogen elf m m.
Proof. split; auto. Qed.

Lemma extendsAutogen_trans m1 m2 m3 :
  extendsAutogen elf m1 m2 -> extendsAutogen elf m2 m3 -> extendsAutogen elf m1 m3.
Proof.
  intros [Ha Hb] [Hc Hd]. split; [auto|].
  intros d info H. apply Hd in H as [H | H]; auto.
Qed.

Lemma resolveSymbols_autogen sym st st' :
  In sym (elf_symbols elf) ->
  resolveSymbols stoi sym st = Ok st' ->
  extendsAutogen elf (snd st) (snd st').
Proof.
  intros Hin. unfold resolveSymbols.
  destruct (mapResult (resolveSymbol sym) (fst st)) as [ps|];
    [|discriminate].
  cbn [mbind Result_bind].
  destruct (Str.starts_with "ncp_autogendata" (st_name sym)) eqn:Hname;
    [|intros [= <-]; apply extendsAutogen_refl].
  destruct (destOfName stoi 15 (st_name sym)) as [d0|];
    [|intros [= <-]; apply extendsAutogen_refl].
  destruct (snd st !! d0) as [old|] eqn:Hold;
    intros [= <-]; cbn [snd]; [apply extendsAutogen_refl|].
  split; intros d info.
  - intros H. rewrite lookup_insert_ne; [exact H|].
    intros <-. rewrite Hold in H. discriminate.
  - rewrite lookup_insert. case_decide.
    + intros [= <-]. right. repeat split. exists sym. auto.
    + auto.
Qed.

Lemma forEach_resolveSymbols_autogen syms st st' :
  incl syms (elf_symbols elf) ->
  forEach (resolveSymbols stoi) syms st = Ok st' ->
  extendsAutogen elf (snd st) (snd st').
Proof.
  revert st. induction syms as [|sym syms IH]; intros st Hincl;
    cbn [forEach].
  - intros [= <-]. apply extendsAutogen_refl.
  - destruct (resolveSymbols stoi sym st) as [st1|] eqn:H1; [|discriminate].
    cbn [mbind Result_bind]. intros H2.
    apply resolveSymbols_autogen in H1; [|apply Hincl; left; reflexivity].
    apply IH in H2; [|intros x Hx; apply Hincl; right; exact Hx].
    eapply extendsAutogen_trans; eassumption.
Qed.

End ResolverAutogen.

(** X14.  The resolver changes nothing of the patch maker but the autogen
    records, and of these it only adds: a record that was there is kept as
    it was (a second [ncp_autogendata] symbol of a destination is
    ignored), and a record that was not there is fresh, with no byte
    written and its cursor at the value of an [ncp_autogendata] symbol of
    the ELF. *)
Theorem gatherInfoFromElf_autogen
        (stoi : string -> option Z)
        (patchInfo patchInfo' : list GenericPatchInfo) (pm pm1 : PatchMaker) :
  gatherInfoFromElf stoi patchInfo pm = Ok (patchInfo', pm1) ->
  pm1 = set_autogen (m_autogenDataInfoForDest pm1) pm
  /\ extendsAutogen (m_elf pm) (m_autogenDataInfoForDest pm)
                    (m_autogenDataInfoForDest pm1).
Proof.
  unfold gatherInfoFromElf.
  destruct (forEach (resolveSymbols stoi) _ _) as [st|] eqn:H1;
    [|discriminate].
  cbn [mbind Result_bind].
  destruct (forEach (resolveSection stoi) _ _) as [st'|]; [|discriminate].
  cbn [mbind Result_bind].
  destruct (snd (checkOverlappingPatches (snd st'))); [|discriminate].
  cbn [mbind Result_bind]. intros [= _ <-].
  split; [reflexivity|].
  apply forEach_resolveSymbols_autogen with (elf := m_elf pm) in H1;
    [exact H1 | apply incl_refl].
Qed.

(** The linked ELF of the scenario declares [ncp_autogendata] at
    [0x02030100]; the patch maker starts without autogen records. *)
Lemma gatherInfoFromElf_autogen_witness :
  exists ps' pm1,
    gatherInfoFromElf AutogenScenario.no_stoi [] AutogenScenario.pm
    = Ok (ps', pm1)
    /\ pm1 = set_autogen (m_autogenDataInfoForDest pm1) AutogenScenario.pm
    /\ extendsAutogen AutogenScenario.linked ∅
                      (m_autogenDataInfoForDest pm1)
    /\ m_autogenDataInfoForDest pm1 !! (-1)
       = Some {| address := 0x02030100; curAddress := 0x02030100;
                 data := [] |}.
Proof.
  destruct (gatherInfoFromElf AutogenScenario.no_stoi [] AutogenScenario.pm)
    as [[ps' pm1]|e] eqn:H; [|vm_compute in H; discriminate].
  exists ps', pm1. split; [reflexivity|].
  destruct (gatherInfoFromElf_autogen _ _ _ _ _ H) as [Hpm Hext].
  split; [exact Hpm|]. split; [exact Hext|].
  vm_compute in H. injection H as _ <-. reflexivity.
Defined.

(** ** The branches the applier writes *)

Section BranchFacts.

Lemma decodeBranchTarget_makeJumpOpCode base F T :
  Z.land base 0xFFFFFF = 0 ->
  (T - F) mod 4 = 0 ->
  - 2 ^ 25 + 8 <= T - F <= 2 ^ 25 + 4 ->
  decodeBranchTarget (makeJumpOpCode base F T) F = T.
Proof.
  intros Hbase Hal Hreach. unfold decodeBranchTarget, makeJumpOpCode.
  rewrite encoded_imm24_general, signed_imm24_lor.
  - rewrite Z.shiftl_mul_pow2 by lia. change (2 ^ 2) with 4.
    Z.to_euclidean_division_equations. lia.
  - exact Hbase.
  - change (2 ^ 25) with 33554432 in Hreach. change (2 ^ 23) with 8388608.
    Z.to_euclidean_division_equations. lia.
Qed.

Lemma top_byte_makeJumpOpCode base F T :
  Z.shiftr (makeJumpOpCode base F T) 24 = Z.shiftr base 24.
Proof.
  unfold makeJumpOpCode. rewrite Z.shiftr_lor, shiftr_imm24.
  apply Z.lor_0_r.
Qed.

Lemma wordAt_here w rest :
  is_u32 w -> wordAt 0 (bytes_u32 w ++ rest) = w.
Proof.
  intros Hw. unfold wordAt. change (4 * 0)%nat with 0%nat. rewrite drop_0.
  change 4%nat with (List.length (bytes_u32 w)) at 1.
  rewrite take_app_length. apply le_value_bytes_u32. exact Hw.
Qed.

Lemma wordAt_next k w rest :
  wordAt (S k) (bytes_u32 w ++ rest) = wordAt k rest.
Proof.
  unfold wordAt.
  replace (4 * S k)%nat with (List.length (bytes_u32 w) + 4 * k)%nat
    by (rewrite length_bytes_u32; lia).
  rewrite drop_app_add. reflexivity.
Qed.

Lemma land_u32 a b : 0 <= a -> is_u32 b -> is_u32 (Z.land a b).
Proof.
  unfold is_u32. intros Ha [Hb Hb'].
  assert (H0 : 0 <= Z.land a b) by (apply Z.land_nonneg; lia).
  split; [exact H0|].
  destruct (Z.eq_dec (Z.land a b) 0) as [-> | Hne]; [lia|].
  apply Z.log2_lt_pow2; [lia|].
  pose proof (Z.log2_land a b Ha Hb) as Hlog.
  destruct (Z.eq_dec b 0) as [-> | Hb0];
    [rewrite Z.land_0_r in Hne; contradiction|].
  assert (Z.log2 b < 32) by (apply Z.log2_lt_pow2; lia).
  lia.
Qed.

Lemma add32_small a b : 0 <= a + b < 2 ^ 32 -> add32 a b = a + b.
Proof. intros H. unfold add32. apply wrap32_small. exact H. Qed.

End BranchFacts.

(** X15.  The hook bridge as machine code.  For a bridge at a
    word-aligned address [bridge] of the address space, a word-aligned
    hooked address and a word-aligned hook function, both within reach of
    the bridge: the five words of the bridge are [PUSH {R0-R3,R12,LR}], a
    [BL] that read at [bridge + 4] goes to the hook function,
    [POP {R0-R3,R12,LR}], the original opcode re-targeted to
    [bridge + 12] (the opcode itself when it is not of the branch
    family), and a [B] that read at [bridge + 16] goes back to the
    instruction after the hooked one. *)
Theorem hookBridge_control_flow (ogOpCode destAddr srcAddr bridge : Z) :
  is_u32 ogOpCode ->
  0 <= bridge -> bridge + 20 <= 2 ^ 32 ->
  0 <= destAddr -> destAddr + 4 < 2 ^ 32 ->
  bridge mod 4 = 0 -> destAddr mod 4 = 0 -> srcAddr mod 4 = 0 ->
  - 2 ^ 25 + 8 <= srcAddr - (bridge + 4) <= 2 ^ 25 + 4 ->
  - 2 ^ 25 + 8 <= destAddr + 4 - (bridge + 16) <= 2 ^ 25 + 4 ->
  wordAt 0 (hookBridge ogOpCode destAddr srcAddr bridge) = 0xE92D500F
  /\ Z.shiftr (wordAt 1 (hookBridge ogOpCode destAddr srcAddr bridge)) 24
     = 0xEB
  /\ decodeBranchTarget
       (wordAt 1 (hookBridge ogOpCode destAddr srcAddr bridge)) (bridge + 4)
     = srcAddr
  /\ wordAt 2 (hookBridge ogOpCode destAddr srcAddr bridge) = 0xE8BD500F
  /\ wordAt 3 (hookBridge ogOpCode destAddr srcAddr bridge)
     = fixupOpCode ogOpCode destAddr (bridge + 12)
  /\ (Z.land (Z.shiftr ogOpCode 25) 7 <> 5 ->
      wordAt 3 (hookBridge ogOpCode destAddr srcAddr bridge) = ogOpCode)
  /\ Z.shiftr (wordAt 4 (hookBridge ogOpCode destAddr srcAddr bridge)) 24
     = 0xEA
  /\ decodeBranchTarget
       (wordAt 4 (hookBridge ogOpCode destAddr srcAddr bridge)) (bridge + 16)
     = destAddr + 4.
Proof.
  intros Hog Hb0 Hb1 Hd0 Hd1 Hba Hda Hsa Hsrc Hback.
  unfold hookBridge.
  rewrite !add32_small by lia.
  assert (Hfix : is_u32 (fixupOpCode ogOpCode destAddr (bridge + 12))).
  { unfold fixupOpCode. destruct (_ =? 5); [|exact Hog].
    apply makeJumpOpCode_u32.
    apply land_u32; [apply Hog | unfold is_u32; lia]. }
  assert (Hpush : is_u32 armHookPush) by (unfold is_u32, armHookPush; lia).
  assert (Hpop : is_u32 armHookPop) by (unfold is_u32, armHookPop; lia).
  assert (Hbl : is_u32 (makeJumpOpCode armOpcodeBL (bridge + 4) srcAddr))
    by (apply makeJumpOpCode_u32; unfold is_u32, armOpcodeBL; lia).
  assert (Hbk : is_u32 (makeJumpOpCode armOpcodeB (bridge + 16)
                                       (destAddr + 4)))
    by (apply makeJumpOpCode_u32; unfold is_u32, armOpcodeB; lia).
  rewrite !wordAt_next.
  rewrite (wordAt_here _ _ Hpush), (wordAt_here _ _ Hbl),
    (wordAt_here _ _ Hpop), (wordAt_here _ _ Hfix).
  change (bytes_u32 (makeJumpOpCode armOpcodeB (bridge + 16) (destAddr + 4)))
    with (bytes_u32 (makeJumpOpCode armOpcodeB (bridge + 16) (destAddr + 4))
          ++ []) at 1.
  rewrite ?app_nil_r.
  replace (wordAt 0 (bytes_u32 (makeJumpOpCode armOpcodeB (bridge + 16)
                                               (destAddr + 4))))
    with (makeJumpOpCode armOpcodeB (bridge + 16) (destAddr + 4))
    by (rewrite <- (app_nil_r (bytes_u32 _)), wordAt_here;
        [reflexivity | exact Hbk]).
  rewrite !top_byte_makeJumpOpCode.
  repeat split; try reflexivity.
  - apply decodeBranchTarget_makeJumpOpCode; [reflexivity| |exact Hsrc].
    Z.to_euclidean_division_equations. lia.
  - intros Hne. unfold fixupOpCode.
    destruct (Z.eqb_spec (Z.land (Z.shiftr ogOpCode 25) 7) 5);
      [contradiction | reflexivity].
  - apply decodeBranchTarget_makeJumpOpCode; [reflexivity| |exact Hback].
    Z.to_euclidean_division_equations. lia.
Qed.

(** A hook at [0x02000000] over [MOV R0, R0], the hook function at
    [0x02030000], the bridge at [0x02030100]. *)
Lemma hookBridge_control_flow_witness :
  wordAt 0 (hookBridge 0xE1A00000 0x02000000 0x02030000 0x02030100)
  = 0xE92D500F
  /\ Z.shiftr (wordAt 1 (hookBridge 0xE1A00000 0x02000000 0x02030000
                                    0x02030100)) 24 = 0xEB
  /\ decodeBranchTarget
       (wordAt 1 (hookBridge 0xE1A00000 0x02000000 0x02030000 0x02030100))
       (0x02030100 + 4) = 0x02030000
  /\ wordAt 2 (hookBridge 0xE1A00000 0x02000000 0x02030000 0x02030100)
     = 0xE8BD500F
  /\ wordAt 3 (hookBridge 0xE1A00000 0x02000000 0x02030000 0x02030100)
     = fixupOpCode 0xE1A00000 0x02000000 (0x02030100 + 12)
  /\ (Z.land (Z.shiftr 0xE1A00000 25) 7 <> 5 ->
      wordAt 3 (hookBridge 0xE1A00000 0x02000000 0x02030000 0x02030100)
      = 0xE1A00000)
  /\ Z.shiftr (wordAt 4 (hookBridge 0xE1A00000 0x02000000 0x02030000
                                    0x02030100)) 24 = 0xEA
  /\ decodeBranchTarget
       (wordAt 4 (hookBridge 0xE1A00000 0x02000000 0x02030000 0x02030100))
       (0x02030100 + 16) = 0x02000000 + 4.
Proof.
  apply (hookBridge_control_flow 0xE1A00000 0x02000000 0x02030000 0x02030100);
    unfold is_u32; repeat split;
    first [reflexivity | vm_compute; discriminate].
Defined.

(** ** The patch applier: one step *)

Section ApplierStep.

Variable decompress : list Z -> list Z.

Lemma CodeBin_writeBytes_Ok bin a bs bin' :
  CodeBin_writeBytes bin a bs = Ok bin' ->
  exists off,
    CodeBin_offset bin a (List.length bs) = Ok off
    /\ bin' = {| bin_data := splice off bs (bin_data bin);
                 bin_ramAddress := bin_ramAddress bin |}.
Proof.
  unfold CodeBin_writeBytes.
  destruct (CodeBin_offset bin a (List.length bs)) as [off|]; [|discriminate].
  cbn [mbind Result_bind]. intros [= <-]. eauto.
Qed.

Lemma CodeBin_write_u32_Ok bin a w bin' :
  CodeBin_write_u32 bin a w = Ok bin' ->
  exists off,
    CodeBin_offset bin a (List.length (bytes_u32 w)) = Ok off
    /\ bin' = {| bin_data := splice off (bytes_u32 w) (bin_data bin);
                 bin_ramAddress := bin_ramAddress bin |}.
Proof. apply CodeBin_writeBytes_Ok. Qed.

(** The shape of every successful step of the loop: the binary of the
    record is fetched; then either nothing is written (a record of
    another kind), or [footprint p] bytes are spliced in at
    [destAddress] and, for a bridged patch, a bridge is appended to the
    autogen record of the region of the record. *)
Lemma applyPatch_step p pm pm' :
  applyPatch decompress p pm = Ok pm' ->
  exists bin pm1,
    getBin decompress p pm = Ok (bin, pm1)
    /\ (pm' = pm1
        \/ exists bs off,
            CodeBin_offset bin (destAddress p) (List.length bs) = Ok off
            /\ List.length bs = footprint p
            /\ (pm' = putBin p
                        {| bin_data := splice off bs (bin_data bin);
                           bin_ramAddress := bin_ramAddress bin |} pm1
                \/ exists info bridge,
                    m_autogenDataInfoForDest pm1 !! srcAddressOv p
                    = Some info
                    /\ List.length bridge = bridgeSize p
                    /\ pm' = putAutogen p (appendBridge bridge info)
                               (putBin p
                                  {| bin_data :=
                                       splice off bs (bin_data bin);
                                     bin_ramAddress := bin_ramAddress bin |}
                                  pm1))).
Proof.
  unfold applyPatch.
  destruct (getBin decompress p pm) as [[bin pm1]|e] eqn:Hbin;
    [|discriminate].
  cbn [mbind Result_bind fst snd]. intros H.
  exists bin, pm1. split; [reflexivity|].
  unfold footprint, bridgeSize.
  destruct (patchType p =? PatchType.Jump)%N eqn:Hj.
  { right. unfold applyJump in H.
    destruct (destThumb p) eqn:HdT, (srcThumb p) eqn:HsT;
      cbn [negb andb] in H.
    - destruct (CodeBin_writeBytes _ _ _) as [bin'|] eqn:Hw; [|discriminate].
      cbn [mbind Result_bind] in H. injection H as <-.
      apply CodeBin_writeBytes_Ok in Hw as (off & Hoff & ->).
      eexists _, off. split; [exact Hoff|]. split; [reflexivity|].
      left. reflexivity.
    - destruct (CodeBin_writeBytes _ _ _) as [bin'|] eqn:Hw; [|discriminate].
      cbn [mbind Result_bind] in H. injection H as <-.
      apply CodeBin_writeBytes_Ok in Hw as (off & Hoff & ->).
      eexists _, off. split; [exact Hoff|]. split; [reflexivity|].
      left. reflexivity.
    - destruct (getAutogen p pm1) as [info|] eqn:Hinfo; [|discriminate].
      cbn [mbind Result_bind] in H.
      destruct (CodeBin_write_u32 _ _ _) as [bin'|] eqn:Hw; [|discriminate].
      cbn [mbind Result_bind] in H. injection H as <-.
      apply CodeBin_write_u32_Ok in Hw as (off & Hoff & ->).
      apply getAutogen_Ok in Hinfo.
      eexists _, off. split; [exact Hoff|]. split; [reflexivity|].
      right. exists info, (arm2thumbJumpBridge (srcAddress p)).
      split; [exact Hinfo|]. split; [|reflexivity].
      apply N.eqb_eq in Hj. rewrite Hj. reflexivity.
    - destruct (CodeBin_write_u32 _ _ _) as [bin'|] eqn:Hw; [|discriminate].
      cbn [mbind Result_bind] in H. injection H as <-.
      apply CodeBin_write_u32_Ok in Hw as (off & Hoff & ->).
      eexists _, off. split; [exact Hoff|]. split; [reflexivity|].
      left. reflexivity. }
  destruct (patchType p =? PatchType.Call)%N eqn:Hc.
  { right. unfold applyCall in H.
    destruct (negb (Bool.eqb (destThumb p) (srcThumb p))
              && negb (target_arm9 pm1)); [discriminate|].
    destruct (CodeBin_write_u32 _ _ _) as [bin'|] eqn:Hw; [|discriminate].
    cbn [mbind Result_bind] in H. injection H as <-.
    apply CodeBin_write_u32_Ok in Hw as (off & Hoff & ->).
    eexists _, off. split; [exact Hoff|]. split; [reflexivity|].
    left. reflexivity. }
  destruct (patchType p =? PatchType.Hook)%N eqn:Hh.
  { right. unfold applyHook in H.
    destruct (destThumb p || srcThumb p); [discriminate|].
    destruct (CodeBin_read_u32 _ _) as [og|]; [|discriminate].
    cbn [mbind Result_bind] in H.
    destruct (getAutogen p pm1) as [info|] eqn:Hinfo; [|discriminate].
    cbn [mbind Result_bind] in H.
    destruct (CodeBin_write_u32 _ _ _) as [bin'|] eqn:Hw; [|discriminate].
    cbn [mbind Result_bind] in H. injection H as <-.
    apply CodeBin_write_u32_Ok in Hw as (off & Hoff & ->).
    apply getAutogen_Ok in Hinfo.
    eexists _, off. split; [exact Hoff|]. split; [reflexivity|].
    right. eexists info, _. split; [exact Hinfo|].
    split; [|reflexivity]. reflexivity. }
  destruct (patchType p =? PatchType.Over)%N eqn:Ho.
  { right. unfold applyOver in H.
    destruct (sectionIdx p <? 0); [discriminate|].
    destruct (elf_sections (m_elf pm1) !! _) as [section|]; [|discriminate].
    destruct (Z.leb_spec 0 (sectionSize p)) as [H0 | ?];
      cbn [andb] in H; [|discriminate].
    destruct (Z.leb_spec (sectionSize p)
                         (Z.of_nat (List.length (sh_data section))))
      as [H1 | ?]; [|discriminate].
    destruct (CodeBin_writeBytes _ _ _) as [bin'|] eqn:Hw; [|discriminate].
    cbn [mbind Result_bind] in H. injection H as <-.
    apply CodeBin_writeBytes_Ok in Hw as (off & Hoff & ->).
    eexists _, off. split; [exact Hoff|].
    split; [rewrite length_take; lia|]. left. reflexivity. }
  left. injection H as <-. reflexivity.
Qed.

End ApplierStep.

Section ApplierInvariant.

Variable decompress : list Z -> list Z.

Variable R : PatchMaker -> PatchMaker -> Prop.
Hypothesis R_refl : forall pm, R pm pm.
Hypothesis R_trans : forall a b c, R a b -> R b c -> R a c.
Hypothesis R_getBin :
  forall p pm bin pm1, getBin decompress p pm = Ok (bin, pm1) -> R pm pm1.
Hypothesis R_putBin :
  forall p pm bin off bs,
    binOf p pm = Some bin ->
    CodeBin_offset bin (destAddress p) (List.length bs) = Ok off ->
    R pm (putBin p {| bin_data := splice off bs (bin_data bin);
                      bin_ramAddress := bin_ramAddress bin |} pm).
Hypothesis R_putAutogen :
  forall p pm info bridge,
    m_autogenDataInfoForDest pm !! srcAddressOv p = Some info ->
    R pm (putAutogen p (appendBridge bridge info) pm).

Lemma applyPatch_inv p pm pm' :
  applyPatch decompress p pm = Ok pm' -> R pm pm'.
Proof.
  intros H.
  apply applyPatch_step in H
    as (bin & pm1 & Hbin & [-> | (bs & off & Hoff & _ & Hpm')]).
  { eapply R_getBin. exact Hbin. }
  pose proof (R_getBin _ _ _ _ Hbin) as H1.
  apply getBin_Ok in Hbin as [Hb _].
  pose proof (R_putBin p pm1 bin off bs Hb Hoff) as H2.
  destruct Hpm' as [-> | (info & bridge & Hinfo & _ & ->)].
  - eapply R_trans; eassumption.
  - eapply R_trans; [exact H1|]. eapply R_trans; [exact H2|].
    apply R_putAutogen. rewrite autogen_putBin. exact Hinfo.
Qed.

Lemma applyPatches_inv ps pm pm' :
  applyPatches decompress ps pm = Ok pm' -> R pm pm'.
Proof.
  unfold applyPatches. revert pm.
  induction ps as [|p ps IH]; intros pm; cbn [forEach].
  - intros [= <-]. apply R_refl.
  - destruct (applyPatch decompress p pm) as [pm1|] eqn:H1; [|discriminate].
    cbn [mbind Result_bind]. intros H2.
    eapply R_trans; [eapply applyPatch_inv; exact H1 | apply IH; exact H2].
Qed.

End ApplierInvariant.

Section ApplierFrame.

Variable decompress : list Z -> list Z.

Lemma sameShape_refl b : sameShape b b.
Proof. split; reflexivity. Qed.

Lemma sameShape_trans a b c : sameShape a b -> sameShape b c -> sameShape a c.
Proof. unfold sameShape. intros [? ?] [? ?]. split; congruence. Qed.

Lemma sameShape_splice bin a bs off :
  CodeBin_offset bin a (List.length bs) = Ok off ->
  sameShape bin {| bin_data := splice off bs (bin_data bin);
                   bin_ramAddress := bin_ramAddress bin |}.
Proof.
  intros Hoff. apply CodeBin_offset_Ok in Hoff as [Hle _].
  split; [reflexivity|]. cbn. apply length_splice. exact Hle.
Qed.

Lemma keptByPatching_refl pm : keptByPatching pm pm.
Proof.
  unfold keptByPatching. repeat split; try reflexivity.
  intros id ov H. exists ov. repeat split; try reflexivity. exact H.
Qed.

Lemma keptByPatching_trans a b c :
  keptByPatching a b -> keptByPatching b c -> keptByPatching a c.
Proof.
  intros (A1 & A2 & A3 & A4 & A5 & A6 & A7)
         (B1 & B2 & B3 & B4 & B5 & B6 & B7).
  unfold keptByPatching.
  repeat split; try congruence.
  - destruct A5, B5; congruence.
  - destruct A5, B5; congruence.
  - intros id ov H.
    apply A7 in H as (ov1 & H1 & Ha & Hb & Hc).
    apply B7 in H1 as (ov2 & H2 & Hd & He & Hf).
    exists ov2. repeat split; try congruence.
    + destruct Hc, Hf; congruence.
    + destruct Hc, Hf; congruence.
Qed.

Lemma loadOverlayBin_kept ovID pm ov pm' :
  loadOverlayBin decompress ovID pm = Ok (ov, pm') ->
  keptByPatching pm pm'
  /\ m_autogenDataInfoForDest pm' = m_autogenDataInfoForDest pm.
Proof.
  unfold loadOverlayBin.
  destruct (m_ovtEntries pm !! N.to_nat ovID) as [ovte|]; [|discriminate].
  match goal with
  | |- context [mbind _ ?m] => destruct m as [overlay|e]
  end; [|discriminate].
  cbn [mbind Result_bind].
  match goal with
  | |- context [mbind _ ?m] => destruct m as [bak|e]
  end; [|discriminate].
  cbn [mbind Result_bind]. intros [= <- <-].
  split; [|reflexivity].
  unfold keptByPatching. cbn.
  repeat split; try reflexivity.
  - apply length_insert.
  - intros id ov0 H. exists ov0.
    repeat split; try reflexivity.
    destruct (m_loadedOverlays pm !! ovID) as [old|] eqn:Hold; [exact H|].
    rewrite lookup_insert_ne; [exact H|].
    intros <-. rewrite Hold in H. discriminate.
Qed.

Lemma getBin_kept p pm bin pm1 :
  getBin decompress p pm = Ok (bin, pm1) ->
  keptByPatching pm pm1
  /\ m_autogenDataInfoForDest pm1 = m_autogenDataInfoForDest pm.
Proof.
  unfold getBin. destruct (destAddressOv p =? -1).
  - intros [= <- <-]. split; [apply keptByPatching_refl | reflexivity].
  - destruct (getOverlay decompress _ pm) as [[ov pm']|e] eqn:Hg;
      [|discriminate].
    cbn [mbind Result_bind fst snd]. intros [= <- <-].
    unfold getOverlay in Hg.
    destruct (m_loadedOverlays pm !! _) as [ov0|].
    + injection Hg as <- <-.
      split; [apply keptByPatching_refl | reflexivity].
    + eapply loadOverlayBin_kept. exact Hg.
Qed.

Lemma putBin_kept p pm bin bin' :
  binOf p pm = Some bin -> sameShape bin bin' ->
  keptByPatching pm (putBin p bin' pm).
Proof.
  unfold binOf, putBin. intros Hb Hs.
  destruct (destAddressOv p =? -1).
  - injection Hb as <-. unfold keptByPatching. cbn.
    repeat split; try reflexivity; try apply Hs.
    intros id ov H. exists ov. repeat split; try reflexivity. exact H.
  - unfold keptByPatching. cbn.
    repeat split; try reflexivity.
    intros id ov H.
    destruct (decide (id = size_t_of_int (destAddressOv p))) as [-> | Hne].
    + rewrite H in Hb. injection Hb as <-.
      exists (set_ov_bin bin' ov). rewrite lookup_alter_eq, H.
      repeat split; try reflexivity; apply Hs.
    + exists ov. rewrite lookup_alter_ne by congruence.
      repeat split; try reflexivity. exact H.
Qed.

Lemma applyPatches_kept ps pm pm' :
  applyPatches decompress ps pm = Ok pm' -> keptByPatching pm pm'.
Proof.
  apply (applyPatches_inv decompress keptByPatching).
  - apply keptByPatching_refl.
  - apply keptByPatching_trans.
  - intros p pm0 bin pm1 H. eapply getBin_kept. exact H.
  - intros p pm0 bin off bs Hb Hoff.
    apply (putBin_kept p pm0 bin); [exact Hb|].
    eapply sameShape_splice. exact Hoff.
  - intros p pm0 info bridge _. unfold keptByPatching. cbn.
    repeat split; try reflexivity.
    intros id ov H. exists ov. repeat split; try reflexivity. exact H.
Qed.

End ApplierFrame.

(** X16.  What the loop over the patches leaves alone, however many
    patches it applies and whichever overlays it loads on the way: it
    writes no file and keeps the target and the ELF; the main binary and
    every overlay that was loaded stay where they are and keep their
    length (patches overwrite, they never insert); the bytes captured at
    the first load of an overlay are not touched; the overlay table keeps
    its number of entries. *)
Theorem applyPatches_frame
        (decompress : list Z -> list Z)
        (patchInfo : list GenericPatchInfo) (pm pm' : PatchMaker) :
  applyPatches decompress patchInfo pm = Ok pm' ->
  keptByPatching pm pm'.
Proof. apply applyPatches_kept. Qed.

(** The jump into overlay 0 of the overlay scenario. *)
Lemma applyPatches_frame_witness :
  exists pm',
    applyPatches Scenario.identity [OverlayScenario.jump]
                 OverlayScenario.first_run = Ok pm'
    /\ keptByPatching OverlayScenario.first_run pm'.
Proof.
  destruct (applyPatches Scenario.identity [OverlayScenario.jump]
                         OverlayScenario.first_run) as [pm'|e] eqn:H;
    [|vm_compute in H; discriminate].
  exists pm'. split; [reflexivity|].
  apply (applyPatches_frame _ _ _ _ H).
Defined.

Section ApplierAutogen.

Variable decompress : list Z -> list Z.

Lemma autogenGrows_refl pm : autogenGrows pm pm.
Proof.
  split; [|auto]. intros d info H. exists info, [].
  rewrite app_nil_r. auto.
Qed.

Lemma autogenGrows_trans a b c :
  autogenGrows a b -> autogenGrows b c -> autogenGrows a c.
Proof.
  intros [A1 A2] [B1 B2]. split; [|auto].
  intros d info H.
  apply A1 in H as (i1 & s1 & H1 & Ha & Hd).
  apply B1 in H1 as (i2 & s2 & H2 & Hb & He).
  exists i2, (s1 ++ s2). split; [exact H2|].
  split; [congruence|]. rewrite He, Hd, app_assoc. reflexivity.
Qed.

Lemma autogenGrows_same pm pm' :
  m_autogenDataInfoForDest pm' = m_autogenDataInfoForDest pm ->
  autogenGrows pm pm'.
Proof.
  intros H. unfold autogenGrows. rewrite H.
  apply autogenGrows_refl.
Qed.

Lemma autogenGrows_putAutogen p pm info bridge :
  m_autogenDataInfoForDest pm !! srcAddressOv p = Some info ->
  autogenGrows pm (putAutogen p (appendBridge bridge info) pm).
Proof.
  intros Hinfo. unfold autogenGrows, putAutogen. cbn. split.
  - intros d info0 H. rewrite lookup_insert. case_decide as Hd.
    + subst d. rewrite Hinfo in H. injection H as <-.
      exists (appendBridge bridge info), bridge. auto.
    + exists info0, []. rewrite app_nil_r. auto.
  - intros d H. rewrite lookup_insert_ne; [exact H|].
    intros <-. rewrite Hinfo in H. discriminate.
Qed.

Lemma applyPatches_grows ps pm pm' :
  applyPatches decompress ps pm = Ok pm' -> autogenGrows pm pm'.
Proof.
  apply (applyPatches_inv decompress autogenGrows).
  - apply autogenGrows_refl.
  - apply autogenGrows_trans.
  - intros p pm0 bin pm1 H. apply autogenGrows_same.
    eapply getBin_Ok. exact H.
  - intros p pm0 bin off bs _ _. apply autogenGrows_same.
    apply autogen_putBin.
  - intros p pm0 info bridge H. apply autogenGrows_putAutogen. exact H.
Qed.

Lemma cursorAtEnd_appendBridge bridge info :
  cursorAtEnd info -> cursorAtEnd (appendBridge bridge info).
Proof.
  unfold cursorAtEnd, appendBridge, add32, wrap32. cbn. intros H.
  rewrite List.length_app, Nat2Z.inj_add.
  rewrite Z.mod_mod by lia.
  rewrite <- Z.add_mod_idemp_l by lia. rewrite H.
  rewrite Z.add_mod_idemp_l by lia. f_equal. lia.
Qed.

Lemma applyPatches_cursors ps pm pm' :
  applyPatches decompress ps pm = Ok pm' ->
  cursorsAtEnd (m_autogenDataInfoForDest pm) ->
  cursorsAtEnd (m_autogenDataInfoForDest pm').
Proof.
  apply (applyPatches_inv decompress
           (fun a b => cursorsAtEnd (m_autogenDataInfoForDest a) ->
                       cursorsAtEnd (m_autogenDataInfoForDest b))).
  - auto.
  - auto.
  - intros p pm0 bin pm1 H. apply getBin_Ok in H as [_ ->]. auto.
  - intros p pm0 bin off bs _ _. rewrite autogen_putBin. auto.
  - intros p pm0 info bridge Hinfo Hc d info0. unfold putAutogen. cbn.
    rewrite lookup_insert. case_decide.
    + intros [= <-]. apply cursorAtEnd_appendBridge.
      eapply Hc. exact Hinfo.
    + apply Hc.
Qed.

End ApplierAutogen.

(** X17.  The autogen records through the loop over the patches: no
    destination gains or loses its record, a record keeps its address and
    the bytes already written (bridges are only appended), and when every
    cursor stood at the end of the bytes written before the loop, so it
    does after it: the next bridge is always placed right after the last
    one. *)
Theorem applyPatches_autogen
        (decompress : list Z -> list Z)
        (patchInfo : list GenericPatchInfo) (pm pm' : PatchMaker) :
  applyPatches decompress patchInfo pm = Ok pm' ->
  autogenGrows pm pm'
  /\ (cursorsAtEnd (m_autogenDataInfoForDest pm) ->
      cursorsAtEnd (m_autogenDataInfoForDest pm')).
Proof.
  intros H. split.
  - eapply applyPatches_grows. exact H.
  - eapply applyPatches_cursors. exact H.
Qed.

(** The hook of the hook scenario. *)
Lemma applyPatches_autogen_witness :
  exists pm',
    applyPatches Scenario.identity [HookScenario.hook] HookScenario.pm
    = Ok pm'
    /\ autogenGrows HookScenario.pm pm'
    /\ (cursorsAtEnd (m_autogenDataInfoForDest HookScenario.pm) ->
        cursorsAtEnd (m_autogenDataInfoForDest pm')).
Proof.
  destruct (applyPatches Scenario.identity [HookScenario.hook]
                         HookScenario.pm) as [pm'|e] eqn:H;
    [|vm_compute in H; discriminate].
  exists pm'. split; [reflexivity|].
  apply (applyPatches_autogen _ _ _ _ H).
Defined.

(** ** The patch applier: jumps, calls and replaced ranges *)

Section ApplierKinds.

Variable decompress : list Z -> list Z.

Lemma CodeBin_read_offset bin a n bs :
  CodeBin_readBytes bin a n = Ok bs ->
  exists off, CodeBin_offset bin a n = Ok off.
Proof.
  unfold CodeBin_readBytes.
  destruct (CodeBin_offset bin a n) as [off|]; [eauto | discriminate].
Qed.

Lemma lookup_splice_outside off bs dat (i : nat) :
  (off + List.length bs <= List.length dat)%nat ->
  (i < off \/ off + List.length bs <= i)%nat ->
  splice off bs dat !! i = dat !! i.
Proof.
  intros Hle Hi. unfold splice.
  assert (Hlt : List.length (take off dat) = off)
    by (rewrite length_take; lia).
  destruct Hi as [Hi | Hi].
  - rewrite lookup_app_l by lia. apply lookup_take_lt. exact Hi.
  - rewrite lookup_app_r by lia. rewrite Hlt.
    rewrite lookup_app_r by lia. rewrite lookup_drop. f_equal. lia.
Qed.

Lemma getBin_target p pm bin pm1 :
  getBin decompress p pm = Ok (bin, pm1) ->
  target_arm9 pm1 = target_arm9 pm /\ m_elf pm1 = m_elf pm.
Proof.
  intros H. apply getBin_kept in H as [(Ht & _ & He & _) _]. auto.
Qed.

Lemma callOpcode_u32 p :
  is_u32
    (if negb (destThumb p) && negb (srcThumb p) then
       makeJumpOpCode armOpcodeBL (destAddress p) (srcAddress p)
     else if negb (destThumb p) && srcThumb p then
       makeJumpOpCode
         (Z.lor armOpCodeBLX (shl32 (Z.shiftr (srcAddress p mod 4) 1) 23))
         (destAddress p) (srcAddress p)
     else if destThumb p && negb (srcThumb p) then
       makeThumbJumpOpCode thumbOpCodeBLX1 (destAddress p) (srcAddress p)
     else
       makeThumbJumpOpCode thumbOpCodeBL1 (destAddress p) (srcAddress p)).
Proof.
  destruct (destThumb p), (srcThumb p); cbn [negb andb].
  - unfold makeThumbJumpOpCode. apply wrap32_range.
  - unfold makeThumbJumpOpCode. apply wrap32_range.
  - apply makeJumpOpCode_u32. apply lor_u32.
    + unfold is_u32, armOpCodeBLX. lia.
    + unfold shl32. apply wrap32_range.
  - apply makeJumpOpCode_u32. unfold is_u32, armOpcodeBL. lia.
Qed.

End ApplierKinds.

(** X18.  A jump patch from ARM code to a THUMB function goes through a
    bridge.  When the binary holds four bytes at [destAddress] and the
    region of the record has an autogen record, the applier appends the
    eight bytes [LDR PC, [PC,#-4]] and [srcAddress | 1] at the cursor of
    that record, advances the cursor by eight, and rewrites the word at
    [destAddress] to a [B] which, for a word-aligned bridge within reach,
    goes to the bridge.  Without an autogen record of the region the loop
    stops with a fatal error. *)
Theorem applyPatch_jump_arm_to_thumb
        (decompress : list Z -> list Z)
        (p : GenericPatchInfo) (pm : PatchMaker)
        (bin : CodeBin) (pm1 : PatchMaker) :
  patchType p = PatchType.Jump ->
  destThumb p = false -> srcThumb p = true ->
  is_u32 (srcAddress p) ->
  getBin decompress p pm = Ok (bin, pm1) ->
  (forall old info,
      CodeBin_readBytes bin (destAddress p) 4 = Ok old ->
      m_autogenDataInfoForDest pm1 !! srcAddressOv p = Some info ->
      exists pm' bin',
        applyPatch decompress p pm = Ok pm'
        /\ m_autogenDataInfoForDest pm' !! srcAddressOv p
           = Some {| address := address info;
                     curAddress := add32 (curAddress info) 8;
                     data := data info
                             ++ arm2thumbJumpBridge (srcAddress p) |}
        /\ wordAt 0 (arm2thumbJumpBridge (srcAddress p)) = 0xE51FF004
        /\ wordAt 1 (arm2thumbJumpBridge (srcAddress p))
           = Z.lor (srcAddress p) 1
        /\ binOf p pm' = Some bin'
        /\ CodeBin_read_u32 bin' (destAddress p)
           = Ok (makeJumpOpCode armOpcodeB (destAddress p) (curAddress info))
        /\ ((curAddress info - destAddress p) mod 4 = 0 ->
            - 2 ^ 25 + 8 <= curAddress info - destAddress p <= 2 ^ 25 + 4 ->
            decodeBranchTarget
              (makeJumpOpCode armOpcodeB (destAddress p) (curAddress info))
              (destAddress p) = curAddress info))
  /\ (m_autogenDataInfoForDest pm1 !! srcAddressOv p = None ->
      applyPatch decompress p pm = Throw unexpected_autogen_dest).
Proof.
  intros Hty HdT HsT Hsrc Hbin.
  assert (Hstep : applyPatch decompress p pm = applyJump p bin pm1).
  { unfold applyPatch. rewrite Hbin. cbn [mbind Result_bind fst snd].
    rewrite Hty. reflexivity. }
  rewrite Hstep. unfold applyJump. rewrite HdT, HsT. cbn [negb andb].
  unfold getAutogen. split.
  - intros old info Hrd Hinfo. rewrite Hinfo. cbn [mbind Result_bind].
    apply CodeBin_read_offset in Hrd as [off Hoff].
    set (opc := makeJumpOpCode armOpcodeB (destAddress p) (curAddress info)).
    assert (Hwr : CodeBin_write_u32 bin (destAddress p) opc
                  = Ok {| bin_data := splice off (bytes_u32 opc) (bin_data bin);
                          bin_ramAddress := bin_ramAddress bin |}).
    { apply CodeBin_write_defined. exact Hoff. }
    rewrite Hwr. cbn [mbind Result_bind].
    apply getBin_Ok in Hbin as [Hb _].
    eexists _, _. split; [reflexivity|].
    split.
    { unfold putAutogen. cbn. rewrite lookup_insert_eq. reflexivity. }
    unfold arm2thumbJumpBridge.
    split.
    { apply wordAt_here. unfold is_u32. lia. }
    split.
    { rewrite wordAt_next, <- (app_nil_r (bytes_u32 _)).
      apply wordAt_here. apply lor_u32; [exact Hsrc | unfold is_u32; lia]. }
    split.
    { rewrite binOf_putAutogen. eapply binOf_putBin. exact Hb. }
    split.
    { apply (CodeBin_read_u32_after_write bin); [|exact Hwr].
      apply makeJumpOpCode_u32. unfold is_u32, armOpcodeB. lia. }
    intros Hal Hreach.
    apply decodeBranchTarget_makeJumpOpCode; [reflexivity | exact Hal | exact Hreach].
  - intros Hnone. rewrite Hnone. reflexivity.
Qed.

(** The jump to a THUMB function at [0x02030041], with the autogen region
    of the hook scenario at [0x02030100]; and the same jump with no
    autogen record. *)
Lemma applyPatch_jump_arm_to_thumb_witness :
  (exists pm' bin',
      applyPatch Scenario.identity
        (Scenario.patch PatchType.Jump 0x02000004 0x02030041 true false
                        "ncp_jump_02000004")
        HookScenario.pm = Ok pm'
      /\ m_autogenDataInfoForDest pm' !! (-1)
         = Some {| address := 0x02030100; curAddress := 0x02030108;
                   data := [0x04; 0xF0; 0x1F; 0xE5;
                            0x41; 0x00; 0x03; 0x02] |}
      /\ binOf (Scenario.patch PatchType.Jump 0x02000004 0x02030041 true false
                               "ncp_jump_02000004") pm' = Some bin'
      /\ CodeBin_read_u32 bin' 0x02000004 = Ok 0xEA00C03D
      /\ decodeBranchTarget 0xEA00C03D 0x02000004 = 0x02030100)
  /\ applyPatch Scenario.identity
       (Scenario.patch PatchType.Jump 0x02000004 0x02030041 true false
                       "ncp_jump_02000004")
       Scenario.pm0 = Throw unexpected_autogen_dest.
Proof.
  split.
  - destruct (proj1 (applyPatch_jump_arm_to_thumb Scenario.identity
                       (Scenario.patch PatchType.Jump 0x02000004 0x02030041
                                       true false "ncp_jump_02000004")
                       HookScenario.pm (arm_bin Scenario.arm9) HookScenario.pm
                       eq_refl eq_refl eq_refl
                       ltac:(unfold is_u32; vm_compute; split; congruence)
                       eq_refl)
                    [0; 0; 0; 0] HookScenario.autogen eq_refl eq_refl)
      as (pm' & bin' & Hpm & Hinfo & _ & _ & Hb & Hrd & Hdec).
    exists pm', bin'. split; [exact Hpm|].
    split; [exact Hinfo|]. split; [exact Hb|]. split; [exact Hrd|].
    apply Hdec; vm_compute; [reflexivity | split; congruence].
  - apply (proj2 (applyPatch_jump_arm_to_thumb Scenario.identity
                    (Scenario.patch PatchType.Jump 0x02000004 0x02030041
                                    true false "ncp_jump_02000004")
                    Scenario.pm0 (arm_bin Scenario.arm9) Scenario.pm0
                    eq_refl eq_refl eq_refl
                    ltac:(unfold is_u32; vm_compute; split; congruence)
                    eq_refl)).
    reflexivity.
Defined.

(** X19.  A call patch.  Between ARM and THUMB code in either direction
    it needs [BLX], and on an ARM7 target the loop stops with a fatal
    error.  Otherwise, when the binary holds four bytes at [destAddress],
    the word there becomes: between ARM and ARM a [BL] (top byte [0xEB])
    which, for word-aligned addresses within reach, goes to
    [srcAddress]; from ARM to THUMB an opcode with top byte [0xFA]; out
    of THUMB code the whole pair of [makeThumbJumpOpCode], both
    halfwords.  No bridge is written. *)
Theorem applyPatch_call
        (decompress : list Z -> list Z)
        (p : GenericPatchInfo) (pm : PatchMaker)
        (bin : CodeBin) (pm1 : PatchMaker) :
  patchType p = PatchType.Call ->
  getBin decompress p pm = Ok (bin, pm1) ->
  (destThumb p <> srcThumb p -> target_arm9 pm = false ->
   applyPatch decompress p pm
   = Throw (blx_not_supported_on_armv4 (symbol p)))
  /\ (forall old,
         destThumb p = srcThumb p \/ target_arm9 pm = true ->
         CodeBin_readBytes bin (destAddress p) 4 = Ok old ->
         exists pm' bin' w,
           applyPatch decompress p pm = Ok pm'
           /\ m_autogenDataInfoForDest pm' = m_autogenDataInfoForDest pm
           /\ binOf p pm' = Some bin'
           /\ CodeBin_read_u32 bin' (destAddress p) = Ok w
           /\ (destThumb p = false -> srcThumb p = false ->
               w = makeJumpOpCode armOpcodeBL (destAddress p) (srcAddress p)
               /\ Z.shiftr w 24 = 0xEB
               /\ ((srcAddress p - destAddress p) mod 4 = 0 ->
                   - 2 ^ 25 + 8 <= srcAddress p - destAddress p
                   <= 2 ^ 25 + 4 ->
                   decodeBranchTarget w (destAddress p) = srcAddress p))
           /\ (destThumb p = false -> srcThumb p = true ->
               Z.shiftr w 24 = 0xFA)
           /\ (destThumb p = true ->
               w = makeThumbJumpOpCode
                     (if srcThumb p then thumbOpCodeBL1 else thumbOpCodeBLX1)
                     (destAddress p) (srcAddress p))).
Proof.
  intros Hty Hbin.
  assert (Hstep : applyPatch decompress p pm = applyCall p bin pm1).
  { unfold applyPatch. rewrite Hbin. cbn [mbind Result_bind fst snd].
    rewrite Hty. reflexivity. }
  rewrite Hstep. unfold applyCall.
  destruct (getBin_target decompress _ _ _ _ Hbin) as [Ht _]. rewrite Ht.
  split.
  - intros Hne Harm7. rewrite Harm7.
    destruct (destThumb p), (srcThumb p); try reflexivity; contradiction.
  - intros old Hok Hrd.
    assert (Hguard : negb (Bool.eqb (destThumb p) (srcThumb p))
                     && negb (target_arm9 pm) = false).
    { destruct Hok as [-> | ->].
      - rewrite Bool.eqb_reflx. reflexivity.
      - apply andb_false_r. }
    rewrite Hguard.
    pose proof (callOpcode_u32 p) as Hu.
    set (w := if negb (destThumb p) && negb (srcThumb p) then _ else _) in *.
    apply CodeBin_read_offset in Hrd as [off Hoff].
    assert (Hwr : CodeBin_write_u32 bin (destAddress p) w
                  = Ok {| bin_data := splice off (bytes_u32 w) (bin_data bin);
                          bin_ramAddress := bin_ramAddress bin |}).
    { apply CodeBin_write_defined. exact Hoff. }
    rewrite Hwr. cbn [mbind Result_bind].
    apply getBin_Ok in Hbin as [Hb Hauto].
    eexists _, _, w. split; [reflexivity|].
    split; [rewrite autogen_putBin; exact Hauto|].
    split; [eapply binOf_putBin; exact Hb|].
    split; [apply (CodeBin_read_u32_after_write bin); assumption|].
    subst w. split; [|split].
    + intros -> ->. cbn [negb andb]. split; [reflexivity|].
      split; [apply top_byte_makeJumpOpCode|].
      intros Hal Hreach.
      apply decodeBranchTarget_makeJumpOpCode;
        [reflexivity | exact Hal | exact Hreach].
    + intros -> ->. cbn [negb andb]. rewrite top_byte_makeJumpOpCode.
      rewrite Z.shiftr_lor.
      replace (Z.shiftr (shl32 (Z.shiftr (srcAddress p mod 4) 1) 23) 24)
        with 0; [reflexivity|].
      unfold shl32, wrap32.
      rewrite !Z.shiftr_div_pow2, Z.shiftl_mul_pow2 by lia.
      change (2 ^ 32) with 4294967296. change (2 ^ 24) with 16777216.
      change (2 ^ 23) with 8388608. change (2 ^ 1) with 2.
      Z.to_euclidean_division_equations. lia.
    + intros ->. destruct (srcThumb p); reflexivity.
Qed.

(** An ARM to ARM call on the 16-byte main binary, and a call from ARM
    code to a THUMB function on an ARM7 target. *)
Lemma applyPatch_call_witness :
  (exists pm' bin',
      applyPatch Scenario.identity
        (Scenario.patch PatchType.Call 0x02000000 0x02020000 false false
                        "ncp_call_02000000")
        Scenario.pm0 = Ok pm'
      /\ binOf (Scenario.patch PatchType.Call 0x02000000 0x02020000 false
                               false "ncp_call_02000000") pm' = Some bin'
      /\ CodeBin_read_u32 bin' 0x02000000 = Ok 0xEB007FFE
      /\ decodeBranchTarget 0xEB007FFE 0x02000000 = 0x02020000)
  /\ applyPatch Scenario.identity
       (Scenario.patch PatchType.Call 0x02000000 0x02020001 true false
                       "ncp_call_02000000")
       Arm7Scenario.pm
     = Throw (blx_not_supported_on_armv4 "ncp_call_02000000").
Proof.
  split.
  - destruct (proj2 (applyPatch_call Scenario.identity
                       (Scenario.patch PatchType.Call 0x02000000 0x02020000
                                       false false "ncp_call_02000000")
                       Scenario.pm0 (arm_bin Scenario.arm9) Scenario.pm0
                       eq_refl eq_refl)
                    [0; 0; 0xA0; 0xE1] (or_introl eq_refl) eq_refl)
      as (pm' & bin' & w & Hpm & _ & Hb & Hrd & Harm & _ & _).
    destruct (Harm eq_refl eq_refl) as (Hw & _ & Hdec).
    exists pm', bin'. split; [exact Hpm|]. split; [exact Hb|].
    rewrite Hw in Hrd, Hdec. split; [exact Hrd|].
    apply Hdec; vm_compute; [reflexivity | split; congruence].
  - apply (proj1 (applyPatch_call Scenario.identity
                    (Scenario.patch PatchType.Call 0x02000000 0x02020001
                                    true false "ncp_call_02000000")
                    Arm7Scenario.pm (arm_bin Scenario.arm9) Arm7Scenario.pm
                    eq_refl eq_refl));
      [discriminate | reflexivity].
Defined.

(** X20.  An [Over] patch copies the first [sectionSize] bytes of its
    section over the binary at [destAddress]: when the section exists,
    holds that many bytes, and the binary holds that many bytes at
    [destAddress], these bytes are read back from the binary afterwards;
    the binary keeps its place and its length, and no bridge is
    written. *)
Theorem applyPatch_over
        (decompress : list Z -> list Z)
        (p : GenericPatchInfo) (pm : PatchMaker)
        (bin : CodeBin) (pm1 : PatchMaker)
        (section : Elf32_Shdr) (old : list Z) :
  patchType p = PatchType.Over ->
  getBin decompress p pm = Ok (bin, pm1) ->
  0 <= sectionIdx p ->
  elf_sections (m_elf pm) !! Z.to_nat (sectionIdx p) = Some section ->
  0 <= sectionSize p <= Z.of_nat (List.length (sh_data section)) ->
  CodeBin_readBytes bin (destAddress p) (Z.to_nat (sectionSize p)) = Ok old ->
  exists pm' bin',
    applyPatch decompress p pm = Ok pm'
    /\ m_autogenDataInfoForDest pm' = m_autogenDataInfoForDest pm
    /\ binOf p pm' = Some bin'
    /\ sameShape bin bin'
    /\ CodeBin_readBytes bin' (destAddress p) (Z.to_nat (sectionSize p))
       = Ok (take (Z.to_nat (sectionSize p)) (sh_data section)).
Proof.
  intros Hty Hbin Hidx Hsec Hsize Hrd.
  assert (Hstep : applyPatch decompress p pm = applyOver p bin pm1).
  { unfold applyPatch. rewrite Hbin. cbn [mbind Result_bind fst snd].
    rewrite Hty. reflexivity. }
  rewrite Hstep. unfold applyOver.
  destruct (getBin_target decompress _ _ _ _ Hbin) as [_ He]. rewrite He.
  destruct (Z.ltb_spec (sectionIdx p) 0); [lia|].
  rewrite Hsec.
  destruct (Z.leb_spec 0 (sectionSize p)); [|lia].
  destruct (Z.leb_spec (sectionSize p)
                       (Z.of_nat (List.length (sh_data section)))); [|lia].
  cbn [andb].
  set (bs := take (Z.to_nat (sectionSize p)) (sh_data section)).
  assert (Hlen : List.length bs = Z.to_nat (sectionSize p))
    by (subst bs; rewrite length_take; lia).
  apply CodeBin_read_offset in Hrd as [off Hoff].
  rewrite <- Hlen in Hoff.
  rewrite (CodeBin_write_defined bin _ bs off Hoff).
  cbn [mbind Result_bind].
  apply getBin_Ok in Hbin as [Hb Hauto].
  eexists _, _. split; [reflexivity|].
  split; [rewrite autogen_putBin; exact Hauto|].
  split; [eapply binOf_putBin; exact Hb|].
  split; [eapply sameShape_splice; exact Hoff|].
  rewrite <- Hlen.
  eapply CodeBin_read_after_write.
  apply CodeBin_write_defined. exact Hoff.
Qed.

(** Section 1 of the object of the parser scenario (eight zero bytes)
    over the first eight bytes of the 16-byte main binary. *)
Lemma applyPatch_over_witness :
  exists pm' bin',
    applyPatch Scenario.identity
      (OverlapScenario.over 0x02000000 8 ".ncp_over_02000000")
      (OverScenario.pm) = Ok pm'
    /\ binOf (OverlapScenario.over 0x02000000 8 ".ncp_over_02000000") pm'
       = Some bin'
    /\ sameShape (arm_bin Scenario.arm9) bin'
    /\ CodeBin_readBytes bin' 0x02000000 8 = Ok [0; 0; 0; 0; 0; 0; 0; 0].
Proof.
  destruct (applyPatch_over Scenario.identity
              (OverlapScenario.over 0x02000000 8 ".ncp_over_02000000")
              OverScenario.pm (arm_bin Scenario.arm9) OverScenario.pm
              {| sh_name := ".text"; sh_addr := 0; sh_size := 8;
                 sh_addralign := 4; sh_data := repeat 0 8 |}
              [0; 0; 0xA0; 0xE1; 0; 0; 0; 0]
              eq_refl eq_refl ltac:(vm_compute; discriminate) eq_refl
              ltac:(vm_compute; split; discriminate) eq_refl)
    as (pm' & bin' & Hpm & _ & Hb & Hs & Hrd).
  exists pm', bin'. auto.
Defined.

(** X21.  The bytes a patch may change.  After a successful step of the
    loop, the binary the record addresses has the place and the length it
    had when it was fetched, and every byte of it that differs lies in
    the [footprint] of the record at [destAddress]: four bytes for a jump
    out of ARM code, a call and a hook, six bytes for a jump out of THUMB
    code, the section size for an [Over] patch. *)
Theorem applyPatch_footprint
        (decompress : list Z -> list Z)
        (p : GenericPatchInfo) (pm pm' : PatchMaker) :
  applyPatch decompress p pm = Ok pm' ->
  exists bin pm1 bin',
    getBin decompress p pm = Ok (bin, pm1)
    /\ binOf p pm' = Some bin'
    /\ sameShape bin bin'
    /\ forall i : nat,
        bin_data bin' !! i <> bin_data bin !! i ->
        (Z.to_nat (sub32 (destAddress p) (bin_ramAddress bin)) <= i
         < Z.to_nat (sub32 (destAddress p) (bin_ramAddress bin))
           + footprint p)%nat.
Proof.
  intros H.
  apply applyPatch_step in H
    as (bin & pm1 & Hbin & [-> | (bs & off & Hoff & Hlen & Hpm')]).
  { exists bin, pm1, bin. split; [exact Hbin|].
    apply getBin_Ok in Hbin as [Hb _].
    split; [exact Hb|]. split; [apply sameShape_refl|].
    intros i Hne. contradiction. }
  exists bin, pm1. eexists. split; [exact Hbin|].
  apply getBin_Ok in Hbin as [Hb _].
  split.
  { destruct Hpm' as [-> | (info & bridge & _ & _ & ->)];
      [|rewrite binOf_putAutogen]; eapply binOf_putBin; exact Hb. }
  split; [eapply sameShape_splice; exact Hoff|].
  cbn [bin_data]. intros i Hne.
  destruct (CodeBin_offset_Ok _ _ _ _ Hoff) as [Hle Heq].
  rewrite <- Heq, <- Hlen.
  destruct (Nat.lt_ge_cases i off) as [Hlt | Hge].
  { exfalso. apply Hne. apply lookup_splice_outside; [exact Hle | lia]. }
  destruct (Nat.lt_ge_cases i (off + List.length bs)) as [Hlt | Hge'];
    [lia|].
  exfalso. apply Hne. apply lookup_splice_outside; [exact Hle | lia].
Qed.

(** The jump of the first scenario: only the first four bytes of the main
    binary may differ. *)
Lemma applyPatch_footprint_witness :
  exists pm' bin',
    applyPatch Scenario.identity Scenario.jump_arm_arm Scenario.pm0 = Ok pm'
    /\ binOf Scenario.jump_arm_arm pm' = Some bin'
    /\ sameShape (arm_bin Scenario.arm9) bin'
    /\ forall i : nat,
        bin_data bin' !! i <> bin_data (arm_bin Scenario.arm9) !! i ->
        (0 <= i < 4)%nat.
Proof.
  destruct (applyPatch Scenario.identity Scenario.jump_arm_arm Scenario.pm0)
    as [pm'|e] eqn:H; [|vm_compute in H; discriminate].
  destruct (applyPatch_footprint _ _ _ _ H)
    as (bin & pm1 & bin' & Hbin & Hb & Hs & Hfoot).
  injection Hbin as <- <-.
  exists pm', bin'. split; [reflexivity|]. split; [exact Hb|].
  split; [exact Hs|]. exact Hfoot.
Defined.

(** ** Overlays: the cache and the files *)

(** X22.  The overlays are cached: once [getOverlay] has returned an
    overlay, asking for it again returns the same overlay and changes
    nothing, so that an overlay is read from the files at most once and
    every patch of an overlay works on the same buffer. *)
Theorem getOverlay_cached
        (decompress : list Z -> list Z)
        (ovID : N) (pm pm1 : PatchMaker) (ov : OverlayBin) :
  getOverlay decompress ovID pm = Ok (ov, pm1) ->
  getOverlay decompress ovID pm1 = Ok (ov, pm1).
Proof.
  intros H. apply getOverlay_loaded in H as (Hl & _ & _).
  unfold getOverlay. rewrite Hl. reflexivity.
Qed.

Lemma getOverlay_cached_witness :
  exists ov pm1,
    getOverlay Scenario.identity 0 OverlayScenario.first_run = Ok (ov, pm1)
    /\ getOverlay Scenario.identity 0 pm1 = Ok (ov, pm1).
Proof.
  destruct (getOverlay Scenario.identity 0 OverlayScenario.first_run)
    as [[ov pm1]|e] eqn:H; [|vm_compute in H; discriminate].
  exists ov, pm1. split; [reflexivity|].
  apply (getOverlay_cached _ _ _ _ _ H).
Defined.

Section SaveFiles.

Lemma saveOverlayBins_rom pm ovID ov :
  m_loadedOverlays pm !! ovID = Some ov ->
  rom_tree (files (saveOverlayBins pm))
    !! overlayBinName (target_arm9 pm) ovID
  = Some (bin_data (ov_bin ov)).
Proof.
  unfold saveOverlayBins. cbn [files set_files]. revert ovID ov.
  apply (map_fold_weak_ind
           (fun fs (m : gmap N OverlayBin) =>
              forall ovID ov,
                m !! ovID = Some ov ->
                rom_tree fs !! overlayBinName (target_arm9 pm) ovID
                = Some (bin_data (ov_bin ov)))).
  - intros ovID ov H. rewrite lookup_empty in H. discriminate.
  - intros i x m fs Hnone IH ovID ov Hlook.
    assert (Hrom : rom_tree (saveOverlayBin pm i x fs)
                   = <[overlayBinName (target_arm9 pm) i
                       := bin_data (ov_bin x)]> (rom_tree fs)).
    { unfold saveOverlayBin. destruct (negb _); reflexivity. }
    rewrite Hrom.
    destruct (decide (i = ovID)) as [-> | Hne].
    + rewrite lookup_insert_eq in Hlook. injection Hlook as ->.
      apply lookup_insert_eq.
    + rewrite lookup_insert_ne in Hlook by exact Hne.
      rewrite lookup_insert_ne; [apply IH; exact Hlook|].
      intros Heq. apply overlayBinName_inj in Heq. contradiction.
Qed.

Lemma saveOverlayBins_rom_other pm path :
  (forall ovID ov, m_loadedOverlays pm !! ovID = Some ov ->
                   path <> overlayBinName (target_arm9 pm) ovID) ->
  rom_tree (files (saveOverlayBins pm)) !! path
  = rom_tree (files pm) !! path.
Proof.
  unfold saveOverlayBins. cbn [files set_files].
  apply (map_fold_weak_ind
           (fun fs (m : gmap N OverlayBin) =>
              (forall ovID ov, m !! ovID = Some ov ->
                               path <> overlayBinName (target_arm9 pm) ovID) ->
              rom_tree fs !! path = rom_tree (files pm) !! path)).
  - reflexivity.
  - intros i x m fs Hnone IH Hpath.
    assert (Hrom : rom_tree (saveOverlayBin pm i x fs)
                   = <[overlayBinName (target_arm9 pm) i
                       := bin_data (ov_bin x)]> (rom_tree fs)).
    { unfold saveOverlayBin. destruct (negb _); reflexivity. }
    rewrite Hrom, lookup_insert_ne.
    + apply IH. intros ovID ov H. apply (Hpath ovID ov).
      rewrite lookup_insert_ne; [exact H|].
      intros <-. rewrite Hnone in H. discriminate.
    + intros Heq. apply (Hpath i x); [apply lookup_insert_eq | auto].
Qed.

Lemma saveOverlayBins_work_other pm path :
  (forall ovID ov, m_loadedOverlays pm !! ovID = Some ov ->
                   backupData ov <> [] ->
                   path <> backupPath pm
                             (overlayBinName (target_arm9 pm) ovID)) ->
  work_tree (files (saveOverlayBins pm)) !! path
  = work_tree (files pm) !! path.
Proof.
  unfold saveOverlayBins. cbn [files set_files].
  apply (map_fold_weak_ind
           (fun fs (m : gmap N OverlayBin) =>
              (forall ovID ov, m !! ovID = Some ov ->
                               backupData ov <> [] ->
                               path <> backupPath pm
                                         (overlayBinName (target_arm9 pm)
                                                         ovID)) ->
              work_tree fs !! path = work_tree (files pm) !! path)).
  - reflexivity.
  - intros i x m fs Hnone IH Hpath.
    assert (Hrest : work_tree fs !! path = work_tree (files pm) !! path).
    { apply IH. intros ovID ov H. apply (Hpath ovID ov).
      rewrite lookup_insert_ne; [exact H|].
      intros <-. rewrite Hnone in H. discriminate. }
    unfold saveOverlayBin.
    destruct (backupData x) as [|z zs] eqn:Hbak; cbn; [exact Hrest|].
    rewrite lookup_insert_ne; [exact Hrest|].
    intros Heq. apply (Hpath i x); [apply lookup_insert_eq | | auto].
    rewrite Hbak. discriminate.
Qed.

End SaveFiles.

(** X23.  What [saveOverlayBins] does to the files.  It changes nothing
    of the patch maker but the files; in the ROM tree the file of every
    loaded overlay holds the live bytes of that overlay and every other
    file is as it was; in the work tree the only files that may change
    are the backup files of the loaded overlays that hold bytes captured
    at a first load. *)
Theorem saveOverlayBins_files (pm : PatchMaker) :
  saveOverlayBins pm = set_files (files (saveOverlayBins pm)) pm
  /\ (forall ovID ov,
         m_loadedOverlays pm !! ovID = Some ov ->
         rom_tree (files (saveOverlayBins pm))
           !! overlayBinName (target_arm9 pm) ovID
         = Some (bin_data (ov_bin ov)))
  /\ (forall path,
         (forall ovID ov, m_loadedOverlays pm !! ovID = Some ov ->
                          path <> overlayBinName (target_arm9 pm) ovID) ->
         rom_tree (files (saveOverlayBins pm)) !! path
         = rom_tree (files pm) !! path)
  /\ (forall path,
         (forall ovID ov, m_loadedOverlays pm !! ovID = Some ov ->
                          backupData ov <> [] ->
                          path <> backupPath pm
                                    (overlayBinName (target_arm9 pm) ovID)) ->
         work_tree (files (saveOverlayBins pm)) !! path
         = work_tree (files pm) !! path).
Proof.
  split; [reflexivity|].
  split; [apply saveOverlayBins_rom|].
  split; [apply saveOverlayBins_rom_other | apply saveOverlayBins_work_other].
Qed.

Section BackupKept.

Variable decompress : list Z -> list Z.

Lemma loadOverlayBin_backedUp ovID pm ov pm' :
  m_loadedOverlays pm !! ovID = None ->
  loadOverlayBin decompress ovID pm = Ok (ov, pm') ->
  backedUpNotCaptured pm -> backedUpNotCaptured pm'.
Proof.
  intros Hnone. unfold loadOverlayBin. rewrite Hnone.
  destruct (m_ovtEntries pm !! N.to_nat ovID) as [ovte|]; [|discriminate].
  destruct (work_tree (files pm)
              !! backupPath pm (overlayBinName (target_arm9 pm) ovID))
    as [bytes|] eqn:Hbak.
  - cbn [OverlayBin_load mbind Result_bind].
    match goal with
    | |- context [mbind _ ?m] => destruct m as [bak|e]
    end; [|discriminate].
    cbn [mbind Result_bind]. intros [= <- <-] Hinv id ov0.
    unfold backupPath. cbn.
    rewrite lookup_insert. case_decide as Hid.
    + intros [= <-] _. reflexivity.
    + apply Hinv.
  - destruct (OverlayBin_load _ _ _ _ _ _) as [overlay|]; [|discriminate].
    cbn [mbind Result_bind].
    match goal with
    | |- context [mbind _ ?m] => destruct m as [bak|e]
    end; [|discriminate].
    cbn [mbind Result_bind]. intros [= <- <-] Hinv id ov0.
    unfold backupPath. cbn.
    rewrite lookup_insert. case_decide as Hid.
    + subst id. intros _ Hex. exfalso. apply Hex. exact Hbak.
    + apply Hinv.
Qed.

Lemma getBin_backedUp p pm bin pm1 :
  getBin decompress p pm = Ok (bin, pm1) ->
  backedUpNotCaptured pm -> backedUpNotCaptured pm1.
Proof.
  unfold getBin. destruct (destAddressOv p =? -1).
  - intros [= <- <-]. auto.
  - destruct (getOverlay decompress _ pm) as [[ov pm']|e] eqn:Hg;
      [|discriminate].
    cbn [mbind Result_bind fst snd]. intros [= <- <-].
    unfold getOverlay in Hg.
    destruct (m_loadedOverlays pm !! _) as [ov0|] eqn:Hl.
    + injection Hg as <- <-. auto.
    + eapply loadOverlayBin_backedUp; eassumption.
Qed.

Lemma putBin_backedUp p bin pm :
  backedUpNotCaptured pm -> backedUpNotCaptured (putBin p bin pm).
Proof.
  unfold putBin. destruct (destAddressOv p =? -1); [auto|].
  intros Hinv id ov. unfold backupPath. cbn.
  destruct (decide (id = size_t_of_int (destAddressOv p))) as [-> | Hne].
  - rewrite lookup_alter_eq.
    destruct (m_loadedOverlays pm !! _) as [ov0|] eqn:Hl; [|discriminate].
    cbn. intros [= <-] Hex. cbn. eapply Hinv; eassumption.
  - rewrite lookup_alter_ne by congruence. apply Hinv.
Qed.

Lemma applyPatches_backedUp ps pm pm' :
  applyPatches decompress ps pm = Ok pm' ->
  backedUpNotCaptured pm -> backedUpNotCaptured pm'.
Proof.
  apply (applyPatches_inv decompress
           (fun a b => backedUpNotCaptured a -> backedUpNotCaptured b)).
  - auto.
  - auto.
  - intros p pm0 bin pm1 H. eapply getBin_backedUp. exact H.
  - intros p pm0 bin off bs _ _. apply putBin_backedUp.
  - intros p pm0 info bridge _ Hinv. exact Hinv.
Qed.

End BackupKept.

(** X24.  A backup is written once.  In a run that starts with no overlay
    loaded, an overlay whose backup file exists is loaded from that file
    and holds no captured bytes, the patches do not change that, and so
    [saveOverlayBins] after the patches leaves every backup file that was
    there at the start of the run exactly as it was. *)
Theorem backup_written_once
        (decompress : list Z -> list Z)
        (patchInfo : list GenericPatchInfo) (pm pm' : PatchMaker)
        (ovID : N) (bytes : list Z) :
  m_loadedOverlays pm = ∅ ->
  applyPatches decompress patchInfo pm = Ok pm' ->
  work_tree (files pm) !! backupPath pm (overlayBinName (target_arm9 pm) ovID)
  = Some bytes ->
  work_tree (files (saveOverlayBins pm'))
    !! backupPath pm (overlayBinName (target_arm9 pm) ovID)
  = Some bytes.
Proof.
  intros Hempty Hrun Hfile.
  assert (Hinv0 : backedUpNotCaptured pm).
  { intros id ov H. rewrite Hempty, lookup_empty in H. discriminate. }
  pose proof (applyPatches_backedUp _ _ _ _ Hrun Hinv0) as Hinv.
  destruct (applyPatches_kept _ _ _ _ Hrun) as (Ht & Hd & _ & Hf & _).
  assert (Hpath : forall id,
             backupPath pm' (overlayBinName (target_arm9 pm') id)
             = backupPath pm (overlayBinName (target_arm9 pm) id)).
  { intros id. unfold backupPath. rewrite Ht, Hd. reflexivity. }
  rewrite saveOverlayBins_work_other; [rewrite Hf; exact Hfile|].
  intros id ov Hl Hbak Heq. apply Hbak.
  rewrite <- (Hpath ovID) in Heq. apply backupPath_inj in Heq. subst id.
  apply (Hinv ovID ov Hl). rewrite Hpath, Hf, Hfile. discriminate.
Qed.

(** A later run on the files that the first run of the overlay scenario
    left. *)
Lemma backup_written_once_witness :
  exists pm',
    applyPatches Scenario.identity [OverlayScenario.jump] LaterRunScenario.pm
    = Ok pm'
    /\ work_tree (files (saveOverlayBins pm'))
         !! "backup/overlay9/overlay9_0.bin"%string
       = Some OverlayScenario.patched.
Proof.
  destruct (applyPatches Scenario.identity [OverlayScenario.jump]
                         LaterRunScenario.pm)
    as [pm'|e] eqn:H; [|vm_compute in H; discriminate].
  exists pm'. split; [reflexivity|].
  apply (backup_written_once Scenario.identity [OverlayScenario.jump]
           LaterRunScenario.pm pm' 0%N OverlayScenario.patched
           eq_refl H eq_refl).
Defined.

(** ** The post-link resolver: the source address *)

Section ResolverAddress.

Variable stoi : string -> option Z.

Lemma mapResult_lookup {A B} (f : A -> Result B) l l' (i : nat) x :
  mapResult f l = Ok l' -> l !! i = Some x ->
  exists y, f x = Ok y /\ l' !! i = Some y.
Proof.
  revert l' i. induction l as [|a l IH]; intros l' i; cbn.
  - intros _ H. discriminate.
  - destruct (f a) as [b|] eqn:Hb; [|discriminate].
    cbn [mbind Result_bind].
    destruct (mapResult f l) as [bs|]; [|discriminate].
    cbn [mbind Result_bind]. intros [= <-].
    destruct i as [|i]; cbn.
    + intros [= <-]. eauto.
    + intros H. apply (IH bs i eq_refl H).
Qed.

(** One record through the loop over the symbols. *)
Lemma forEach_resolveSymbols_lookup syms st st' (i : nat) p :
  forEach (resolveSymbols stoi) syms st = Ok st' ->
  fst st !! i = Some p ->
  exists p', forEach resolveSymbol syms p = Ok p' /\ fst st' !! i = Some p'.
Proof.
  revert st p. induction syms as [|sym syms IH]; intros st p; cbn [forEach].
  - intros [= <-] H. eauto.
  - destruct (resolveSymbols stoi sym st) as [st1|] eqn:H1; [|discriminate].
    cbn [mbind Result_bind]. intros H2 Hp.
    assert (Hq : exists q, resolveSymbol sym p = Ok q /\ fst st1 !! i = Some q).
    { unfold resolveSymbols in H1.
      destruct (mapResult (resolveSymbol sym) (fst st)) as [ps|] eqn:Hps;
        [|discriminate].
      cbn [mbind Result_bind] in H1.
      destruct (mapResult_lookup _ _ _ _ _ Hps Hp) as (q & Hq & Hi).
      exists q. split; [exact Hq|].
      repeat (case_match; try discriminate); injection H1 as <-;
        exact Hi. }
    destruct Hq as (q & Hq & Hi). rewrite Hq. cbn [mbind Result_bind].
    apply (IH st1 q H2 Hi).
Qed.

Lemma resolveSymbol_other sym p p' :
  st_name sym <> labelName p ->
  resolveSymbol sym p = Ok p' -> p' = p.
Proof.
  unfold resolveSymbol, labelName. intros Hne.
  destruct (sectionIdx p =? -1); cbn [negb].
  - destruct (String.eqb_spec (symbol p) (st_name sym)) as [Heq | _];
      [congruence|]. intros [= <-]. reflexivity.
  - destruct (Nat.eqb _ 0); [discriminate|].
    destruct (String.eqb_spec (Str.substr_from 1 (symbol p)) (st_name sym))
      as [Heq | _]; [congruence|]. intros [= <-]. reflexivity.
Qed.

Lemma resolveSymbol_match sym p p' :
  st_name sym = labelName p ->
  resolveSymbol sym p = Ok p' ->
  p' = set_resolved (st_value sym) (st_shndx sym) (labelName p) p.
Proof.
  unfold resolveSymbol, labelName. intros Heq.
  destruct (sectionIdx p =? -1); cbn [negb].
  - rewrite Heq, String.eqb_refl. intros [= <-]. reflexivity.
  - destruct (Nat.eqb _ 0); [discriminate|].
    rewrite Heq, String.eqb_refl. intros [= <-]. reflexivity.
Qed.

Lemma forEach_resolveSymbol_others syms p p' :
  Forall (fun s => st_name s <> labelName p) syms ->
  forEach resolveSymbol syms p = Ok p' -> p' = p.
Proof.
  intros H. induction H as [|sym syms Hne _ IH]; cbn [forEach].
  - intros [= <-]. reflexivity.
  - destruct (resolveSymbol sym p) as [q|] eqn:Hq; [|discriminate].
    cbn [mbind Result_bind].
    apply resolveSymbol_other in Hq; [|exact Hne]. subst q. exact IH.
Qed.

Lemma forEach_app {A S} (f : A -> S -> Result S) l1 l2 s :
  forEach f (l1 ++ l2) s = (s1 ← forEach f l1 s; forEach f l2 s1).
Proof.
  revert s. induction l1 as [|a l1 IH]; intros s; cbn [forEach app].
  - reflexivity.
  - destruct (f a s) as [s1|]; cbn [mbind Result_bind]; [apply IH|].
    reflexivity.
Qed.

Lemma forEach_resolveSymbol_first pre sym post p p' :
  Forall (fun s => st_name s <> labelName p) pre ->
  st_name sym = labelName p ->
  st_shndx sym <> -1 ->
  Forall (fun s => st_name s <> Str.substr_from 1 (labelName p)) post ->
  forEach resolveSymbol (pre ++ sym :: post) p = Ok p' ->
  p' = set_resolved (st_value sym) (st_shndx sym) (labelName p) p.
Proof.
  intros Hpre Hsym Hshndx Hpost. rewrite forEach_app.
  destruct (forEach resolveSymbol pre p) as [q|] eqn:Hq; [|discriminate].
  cbn [mbind Result_bind].
  apply forEach_resolveSymbol_others in Hq; [|exact Hpre]. subst q.
  cbn [forEach].
  destruct (resolveSymbol sym p) as [q|] eqn:Hq; [|discriminate].
  cbn [mbind Result_bind].
  apply resolveSymbol_match in Hq; [|exact Hsym]. subst q.
  apply forEach_resolveSymbol_others.
  unfold labelName at 1. cbn [sectionIdx symbol set_resolved].
  destruct (Z.eqb_spec (st_shndx sym) (-1)); [contradiction|].
  exact Hpost.
Qed.

Lemma resolveSection_lookup section st st' (i : nat) p :
  resolveSection stoi section st = Ok st' ->
  snd st !! i = Some p ->
  (patchType p =? PatchType.Over)%N = false -> isNcpSet p = false ->
  snd st' !! i = Some p.
Proof.
  unfold resolveSection. intros H Hp Hover Hset.
  assert (Hmap : List.map (resolveOver (fst st) section) (snd st) !! i
                 = Some p).
  { rewrite list_lookup_fmap, Hp. cbn. unfold resolveOver.
    rewrite Hover. reflexivity. }
  repeat (case_match; try discriminate).
  - destruct (mapResult _ _) as [ps|] eqn:Hps; [|discriminate].
    cbn [mbind Result_bind] in H. injection H as <-. cbn [snd].
    destruct (mapResult_lookup _ _ _ _ _ Hps Hmap) as (q & Hq & Hi).
    unfold readNcpSet in Hq. rewrite Hset in Hq. injection Hq as <-.
    exact Hi.
  - injection H as <-. exact Hmap.
  - injection H as <-. exact Hmap.
Qed.

Lemma forEach_resolveSection_lookup sections st st' (i : nat) p :
  forEach (resolveSection stoi) sections st = Ok st' ->
  snd st !! i = Some p ->
  (patchType p =? PatchType.Over)%N = false -> isNcpSet p = false ->
  snd st' !! i = Some p.
Proof.
  revert st. induction sections as [|sec secs IH]; intros st; cbn [forEach].
  - intros [= <-] H _ _. exact H.
  - destruct (resolveSection stoi sec st) as [st1|] eqn:H1; [|discriminate].
    cbn [mbind Result_bind]. intros H2 Hp Hover Hset.
    apply (IH st1 H2); [|exact Hover | exact Hset].
    eapply resolveSection_lookup; eassumption.
Qed.

End ResolverAddress.

(** X25.  The address the resolver gives a record.  A record that is
    neither an [Over] patch nor set-style is matched by name against the
    symbols of the linked ELF: by its symbol when it was declared by a
    label, by its symbol without the leading dot when it was declared by
    a section.  When the resolver succeeds and the first symbol of that
    name is not followed by a symbol named like that name without its
    first character, the record leaves the resolver with the value of
    that symbol as its source address, the section of that symbol as its
    section index and that name as its symbol. *)
Theorem gatherInfoFromElf_source_address
        (stoi : string -> option Z)
        (patchInfo patchInfo' : list GenericPatchInfo) (pm pm1 : PatchMaker)
        (i : nat) (p : GenericPatchInfo)
        (pre post : list Elf32_Sym) (sym : Elf32_Sym) :
  gatherInfoFromElf stoi patchInfo pm = Ok (patchInfo', pm1) ->
  patchInfo !! i = Some p ->
  patchType p <> PatchType.Over -> isNcpSet p = false ->
  elf_symbols (m_elf pm) = pre ++ sym :: post ->
  Forall (fun s => st_name s <> labelName p) pre ->
  st_name sym = labelName p ->
  st_shndx sym <> -1 ->
  Forall (fun s => st_name s <> Str.substr_from 1 (labelName p)) post ->
  patchInfo' !! i
  = Some (set_resolved (st_value sym) (st_shndx sym) (labelName p) p).
Proof.
  intros H Hp Hover Hset Hsyms Hpre Hsym Hshndx Hpost.
  unfold gatherInfoFromElf in H.
  destruct (forEach (resolveSymbols stoi) _ _) as [st|] eqn:H1;
    [|discriminate].
  cbn [mbind Result_bind] in H.
  destruct (forEach (resolveSection stoi) _ _) as [st'|] eqn:H2;
    [|discriminate].
  cbn [mbind Result_bind] in H.
  destruct (snd (checkOverlappingPatches (snd st'))); [|discriminate].
  cbn [mbind Result_bind] in H. injection H as <- _.
  destruct (forEach_resolveSymbols_lookup _ _ _ _ i p H1 Hp)
    as (q & Hq & Hi).
  rewrite Hsyms in Hq.
  apply forEach_resolveSymbol_first in Hq; try assumption. subst q.
  eapply forEach_resolveSection_lookup; [exact H2 | exact Hi | |].
  - cbn. apply N.eqb_neq. exact Hover.
  - exact Hset.
Qed.

(** The hook of the scenario is resolved to [0x02030000]. *)
Lemma gatherInfoFromElf_source_address_witness :
  exists ps' pm1,
    gatherInfoFromElf AutogenScenario.no_stoi
      [Scenario.patch PatchType.Hook 0x02000000 0 false false
                      "ncp_hook_02000000"]
      AutogenScenario.pm = Ok (ps', pm1)
    /\ ps' !! 0%nat
       = Some (set_resolved 0x02030000 1 "ncp_hook_02000000"
                 (Scenario.patch PatchType.Hook 0x02000000 0 false false
                                 "ncp_hook_02000000")).
Proof.
  destruct (gatherInfoFromElf AutogenScenario.no_stoi
              [Scenario.patch PatchType.Hook 0x02000000 0 false false
                              "ncp_hook_02000000"]
              AutogenScenario.pm) as [[ps' pm1]|e] eqn:H;
    [|vm_compute in H; discriminate].
  exists ps', pm1. split; [reflexivity|].
  apply (gatherInfoFromElf_source_address
           AutogenScenario.no_stoi _ ps' AutogenScenario.pm pm1 0%nat
           (Scenario.patch PatchType.Hook 0x02000000 0 false false
                           "ncp_hook_02000000")
           []
           [ {| st_name := "ncp_jump_02000004"; st_value := 0x02030041;
                st_shndx := 1; st_type := STT_FUNC |};
             {| st_name := "ncp_autogendata"; st_value := 0x02030100;
                st_shndx := 1; st_type := 0 |} ]
           {| st_name := "ncp_hook_02000000"; st_value := 0x02030000;
              st_shndx := 1; st_type := STT_FUNC |}
           H);
    try reflexivity; try discriminate.
  - constructor.
  - repeat constructor; discriminate.
Defined.

(** ** The address of the new code *)

Section NewcodeAddr.

Variable pm : PatchMaker.

Lemma fetch_others regions m0 m dest :
  forEach (fetchNewcodeAddrOf pm) regions m0 = Ok m ->
  Forall (fun r => BuildTarget.destination r = -1
                   \/ BuildTarget.destination r <> dest) regions ->
  m !! dest = m0 !! dest.
Proof.
  intros H Hall. revert m0 H.
  induction Hall as [|r regions Hr _ IH]; intros m0; cbn [forEach].
  - intros [= <-]. reflexivity.
  - destruct (fetchNewcodeAddrOf pm r m0) as [m1|] eqn:H1; [|discriminate].
    cbn [mbind Result_bind]. intros H2. rewrite (IH m1 H2).
    unfold fetchNewcodeAddrOf in H1.
    destruct (Z.eqb_spec (BuildTarget.destination r) (-1)) as [Heq | Hne];
      cbn [negb] in H1.
    + injection H1 as <-. reflexivity.
    + destruct (newcodeAddrOfRegion r pm) as [addr|]; [|discriminate].
      cbn [mbind Result_bind] in H1. injection H1 as <-.
      apply lookup_insert_ne. destruct Hr; congruence.
Qed.

Lemma fetch_last pre region post m0 m :
  forEach (fetchNewcodeAddrOf pm) (pre ++ region :: post) m0 = Ok m ->
  BuildTarget.destination region <> -1 ->
  Forall (fun r => BuildTarget.destination r
                   <> BuildTarget.destination region) post ->
  exists addr,
    newcodeAddrOfRegion region pm = Ok addr
    /\ m !! BuildTarget.destination region = Some addr.
Proof.
  intros H Hne Hpost. rewrite forEach_app in H.
  destruct (forEach (fetchNewcodeAddrOf pm) pre m0) as [m1|]; [|discriminate].
  cbn [mbind Result_bind forEach] in H.
  destruct (fetchNewcodeAddrOf pm region m1) as [m2|] eqn:H2; [|discriminate].
  cbn [mbind Result_bind] in H.
  unfold fetchNewcodeAddrOf in H2.
  destruct (Z.eqb_spec (BuildTarget.destination region) (-1));
    [contradiction|].
  cbn [negb] in H2.
  destruct (newcodeAddrOfRegion region pm) as [addr|]; [|discriminate].
  cbn [mbind Result_bind] in H2. injection H2 as <-.
  exists addr. split; [reflexivity|].
  rewrite (fetch_others post _ m _ H).
  - apply lookup_insert_eq.
  - eapply Forall_impl; [exact Hpost|]. intros r Hr. right. exact Hr.
Qed.

End NewcodeAddr.

(** X26.  The addresses that [fetchNewcodeAddr] records.  When it
    succeeds, the main binary ([-1]) has the word read from the main
    binary at [arenaLo]; a destination of no region has no address; and a
    destination of an overlay has the address of the last region of the
    target with that destination: for [Append] the end of the overlay,
    [ramAddress + ramSize + bssSize] on [u32], for [Replace] the address
    of the region, or the RAM address of the overlay when the address of
    the region is [0xFFFFFFFF], and for [Create] the address of the
    region. *)
Theorem fetchNewcodeAddr_addresses
        (arenaLo : Z) (regions : list BuildTarget.Region)
        (pm : PatchMaker) (addrs : gmap Z Z) :
  fetchNewcodeAddr arenaLo regions pm = Ok addrs ->
  (exists a, CodeBin_read_u32 (arm_bin (m_arm pm)) arenaLo = Ok a
             /\ addrs !! (-1) = Some a)
  /\ (forall dest,
         dest <> -1 ->
         Forall (fun r => BuildTarget.destination r <> dest) regions ->
         addrs !! dest = None)
  /\ (forall pre region post,
         regions = pre ++ region :: post ->
         BuildTarget.destination region <> -1 ->
         Forall (fun r => BuildTarget.destination r
                          <> BuildTarget.destination region) post ->
         exists addr,
           newcodeAddrOfRegion region pm = Ok addr
           /\ addrs !! BuildTarget.destination region = Some addr
           /\ match BuildTarget.mode region with
              | BuildTarget.Append =>
                  exists ovtEntry,
                    ovtEntryOf (BuildTarget.destination region) pm
                    = Ok ovtEntry
                    /\ addr = add32 (add32 (Ovt.ramAddress ovtEntry)
                                           (Ovt.ramSize ovtEntry))
                                    (Ovt.bssSize ovtEntry)
              | BuildTarget.Replace =>
                  if BuildTarget.address region =? 0xFFFFFFFF then
                    exists ovtEntry,
                      ovtEntryOf (BuildTarget.destination region) pm
                      = Ok ovtEntry
                      /\ addr = Ovt.ramAddress ovtEntry
                  else addr = BuildTarget.address region
              | BuildTarget.Create => addr = BuildTarget.address region
              end).
Proof.
  unfold fetchNewcodeAddr.
  destruct (CodeBin_read_u32 (arm_bin (m_arm pm)) arenaLo) as [a|];
    [|discriminate].
  cbn [mbind Result_bind]. intros H. split; [|split].
  - exists a. split; [reflexivity|].
    rewrite (fetch_others pm regions _ _ (-1) H).
    + apply lookup_insert_eq.
    + apply Forall_forall. intros r _.
      destruct (Z.eq_dec (BuildTarget.destination r) (-1)); auto.
  - intros dest Hne Hall.
    rewrite (fetch_others pm regions _ _ dest H).
    + rewrite lookup_insert_ne by congruence. apply lookup_empty.
    + eapply Forall_impl; [exact Hall|]. intros r Hr. right. exact Hr.
  - intros pre region post -> Hne Hpost.
    destruct (fetch_last pm pre region post _ _ H Hne Hpost)
      as (addr & Haddr & Hl).
    exists addr. split; [exact Haddr|]. split; [exact Hl|].
    unfold newcodeAddrOfRegion in Haddr.
    destruct (BuildTarget.mode region).
    + destruct (ovtEntryOf _ pm) as [e|]; [|discriminate].
      cbn [mbind Result_bind] in Haddr. injection Haddr as <-. eauto.
    + destruct (BuildTarget.address region =? 0xFFFFFFFF).
      * destruct (ovtEntryOf _ pm) as [e|]; [|discriminate].
        cbn [mbind Result_bind] in Haddr. injection Haddr as <-. eauto.
      * injection Haddr as <-. reflexivity.
    + injection Haddr as <-. reflexivity.
Qed.

(** The append scenario, with [arenaLo] at the first word of the main
    binary. *)
Lemma fetchNewcodeAddr_addresses_witness :
  exists addrs,
    fetchNewcodeAddr 0x02000000 [Scenario.arm_region; AppendScenario.region]
                     AppendScenario.pm = Ok addrs
    /\ addrs !! (-1) = Some 0xE1A00000
    /\ addrs !! 3 = Some 0x02100014
    /\ addrs !! 5 = None.
Proof.
  destruct (fetchNewcodeAddr 0x02000000
              [Scenario.arm_region; AppendScenario.region] AppendScenario.pm)
    as [addrs|e] eqn:H; [|vm_compute in H; discriminate].
  exists addrs. split; [reflexivity|].
  destruct (fetchNewcodeAddr_addresses _ _ _ _ H) as (Harm & Hnone & Hlast).
  split; [|split].
  - destruct Harm as (a & Ha & Hl). rewrite Hl. f_equal.
    vm_compute in Ha. injection Ha as <-. reflexivity.
  - destruct (Hlast [Scenario.arm_region] AppendScenario.region [] eq_refl)
      as (addr & Haddr & Hl & _);
      [discriminate | constructor |].
    vm_compute in Haddr. injection Haddr as <-. exact Hl.
  - apply Hnone; [discriminate|]. repeat constructor; discriminate.
Defined.

(** ** The installation of the new code of an overlay *)

Section Buffers.

Lemma resize_grow n (buf : list Z) :
  (List.length buf <= n)%nat ->
  resize n buf = buf ++ repeat 0 (n - List.length buf).
Proof. intros H. unfold resize. rewrite take_ge by lia. reflexivity. Qed.

Lemma splice_mid (pre mid post bs : list Z) :
  List.length bs = List.length mid ->
  splice (List.length pre) bs (pre ++ mid ++ post) = pre ++ bs ++ post.
Proof.
  intros H. unfold splice. rewrite take_app_length, H.
  rewrite drop_app_add, drop_app_length. reflexivity.
Qed.

(** The buffer of an appended overlay: the statements of the source,
    [resize], [memset] and the two copies of [writeNewcode], give the
    old bytes, the old BSS as zeros, the new code and the autogen
    data. *)
Lemma append_buffer (buf code autogen : list Z) (b : nat) :
  let s := List.length buf in
  let n1 := List.length code in
  let a := List.length autogen in
  let buf1 := resize (s + b + (n1 + a)) buf in
  let buf2 := splice s (repeat 0 b) buf1 in
  let buf3 := splice (s + b) code buf2 in
  buf3 = buf ++ repeat 0 b ++ code ++ repeat 0 a
  /\ splice (s + b + n1) autogen buf3
     = buf ++ repeat 0 b ++ code ++ autogen.
Proof.
  cbv zeta.
  rewrite resize_grow by lia.
  replace (List.length buf + b + (List.length code + List.length autogen)
           - List.length buf)%nat
    with (b + (List.length code + List.length autogen))%nat by lia.
  rewrite !repeat_app.
  rewrite splice_mid by reflexivity.
  assert (H3 : splice (List.length buf + b) code
                 (buf ++ repeat 0 b
                  ++ repeat 0 (List.length code)
                  ++ repeat 0 (List.length autogen))
               = buf ++ repeat 0 b ++ code
                 ++ repeat 0 (List.length autogen)).
  { replace (List.length buf + b)%nat
      with (List.length (buf ++ repeat 0 b))
      by (rewrite List.length_app, repeat_length; reflexivity).
    rewrite (app_assoc buf (repeat 0 b)).
    rewrite splice_mid by (rewrite repeat_length; reflexivity).
    rewrite <- app_assoc. reflexivity. }
  rewrite H3. split; [reflexivity|].
  replace (List.length buf + b + List.length code)%nat
    with (List.length (buf ++ repeat 0 b ++ code))
    by (rewrite !List.length_app, repeat_length; lia).
  replace (buf ++ repeat 0 b ++ code ++ repeat 0 (List.length autogen))
    with ((buf ++ repeat 0 b ++ code)
          ++ repeat 0 (List.length autogen) ++ [])
    by (rewrite app_nil_r, <- !app_assoc; reflexivity).
  rewrite splice_mid by (rewrite repeat_length; reflexivity).
  rewrite app_nil_r, <- !app_assoc. reflexivity.
Qed.

End Buffers.

Section InstallerFacts.

Variable decompress : list Z -> list Z.

Lemma overlayAndEntry_Ok dest pm bin ovtEntry pm1 :
  overlayAndEntry decompress dest pm = Ok (bin, ovtEntry, pm1) ->
  m_loadedOverlays pm1 !! size_t_of_int dest = Some bin
  /\ m_ovtEntries pm1 !! N.to_nat (size_t_of_int dest) = Some ovtEntry
  /\ m_autogenDataInfoForDest pm1 = m_autogenDataInfoForDest pm.
Proof.
  unfold overlayAndEntry.
  destruct (getOverlay decompress _ pm) as [[ov pm']|] eqn:Hg;
    [|discriminate].
  cbn [mbind Result_bind fst snd]. unfold ovtEntryOf.
  destruct (m_ovtEntries pm' !! _) as [e|] eqn:He; [|discriminate].
  cbn [mbind Result_bind]. intros [= <- <- <-].
  apply getOverlay_loaded in Hg as (Hl & Ha & _). auto.
Qed.

Lemma writeNewcode_append newcode info (buf : list Z) (b : nat) :
  let autogenData := match info with Some i => data i | None => [] end in
  Z.of_nat (List.length (binData newcode)) = binSize newcode ->
  binSize newcode < 2 ^ 64 ->
  Z.of_nat (List.length autogenData) <= binSize newcode ->
  writeNewcode newcode info (List.length buf + b)
    (splice (List.length buf) (repeat 0 b)
       (resize (List.length buf + b + Z.to_nat (binSize newcode)) buf))
  = buf ++ repeat 0 b ++ newcodeBytes newcode autogenData.
Proof.
  cbv zeta. intros Hlen Hmax Hfit. unfold writeNewcode, newcodeBytes.
  set (autogen := match info with Some i => data i | None => [] end) in *.
  assert (Hn : Z.to_nat (wrap_size_t (binSize newcode
                                      - Z.of_nat (List.length autogen)))
               = (Z.to_nat (binSize newcode) - List.length autogen)%nat).
  { rewrite wrap_size_t_small; lia. }
  rewrite Hn.
  set (code := take (Z.to_nat (binSize newcode) - List.length autogen)
                    (binData newcode)).
  assert (Hcode : List.length code
                  = (Z.to_nat (binSize newcode) - List.length autogen)%nat)
    by (subst code; rewrite length_take; lia).
  rewrite <- Hcode.
  replace (Z.to_nat (binSize newcode))
    with (List.length code + List.length autogen)%nat by lia.
  destruct (append_buffer buf code autogen b) as [H3 H4].
  cbv zeta in H3, H4.
  destruct (Z.eqb_spec (Z.of_nat (List.length autogen)) 0) as [H0 | Hne];
    cbn [negb].
  - rewrite H3. destruct autogen; [reflexivity | discriminate].
  - exact H4.
Qed.

End InstallerFacts.

(** X27.  The new code appended to an overlay.  For the first region of
    the destination, in [Append] mode, an overlay whose buffer holds the
    [ramSize] bytes at the [ramAddress] of its table entry, new code of
    [binSize > 0] linked bytes of which the last ones leave room for the
    autogen data of the destination, and a total of data, old BSS, new
    code and new BSS within the length of the region and the address
    space: the installation succeeds; the buffer becomes the old bytes,
    the old BSS as zeros, and the new code with the autogen data in its
    last bytes; the new code is read from the overlay at the address that
    [fetchNewcodeAddr] computes for the region; and the table entry gets
    the new length as [ramSize], the BSS of the new code as [bssSize],
    and no compression. *)
Theorem installNewcode_append
        (decompress : list Z -> list Z)
        (regions : list BuildTarget.Region) (newcodeAddr dest : Z)
        (newcode : NewcodePatch) (pm : PatchMaker)
        (region : BuildTarget.Region) (bin : OverlayBin)
        (ovtEntry : Ovt.OvtEntry) (pm1 : PatchMaker) :
  List.find (fun r => BuildTarget.destination r =? dest) regions
  = Some region ->
  BuildTarget.mode region = BuildTarget.Append ->
  overlayAndEntry decompress dest pm = Ok (bin, ovtEntry, pm1) ->
  Z.of_nat (List.length (bin_data (ov_bin bin))) = Ovt.ramSize ovtEntry ->
  bin_ramAddress (ov_bin bin) = Ovt.ramAddress ovtEntry ->
  0 <= Ovt.ramAddress ovtEntry -> 0 <= Ovt.bssSize ovtEntry ->
  Ovt.ramAddress ovtEntry + Ovt.ramSize ovtEntry + Ovt.bssSize ovtEntry
  + binSize newcode < 2 ^ 32 ->
  0 < binSize newcode ->
  Z.of_nat (List.length (binData newcode)) = binSize newcode ->
  0 <= bssSize newcode < 2 ^ 32 ->
  Z.of_nat (List.length (autogenDataOf dest pm1)) <= binSize newcode ->
  BuildTarget.length region < 2 ^ 64 ->
  Ovt.ramSize ovtEntry + Ovt.bssSize ovtEntry + binSize newcode
  + bssSize newcode <= BuildTarget.length region ->
  exists pm' bin' addr,
    installNewcode decompress regions newcodeAddr dest newcode pm = inr pm'
    /\ m_loadedOverlays pm' !! size_t_of_int dest = Some bin'
    /\ bin_data (ov_bin bin')
       = bin_data (ov_bin bin)
         ++ repeat 0 (Z.to_nat (Ovt.bssSize ovtEntry))
         ++ newcodeBytes newcode (autogenDataOf dest pm1)
    /\ newcodeAddrOfRegion region pm1 = Ok addr
    /\ CodeBin_readBytes (ov_bin bin') addr (Z.to_nat (binSize newcode))
       = Ok (newcodeBytes newcode (autogenDataOf dest pm1))
    /\ m_ovtEntries pm' !! N.to_nat (size_t_of_int dest)
       = Some {| Ovt.ramAddress := Ovt.ramAddress ovtEntry;
                 Ovt.ramSize := Ovt.ramSize ovtEntry + Ovt.bssSize ovtEntry
                                + binSize newcode;
                 Ovt.bssSize := bssSize newcode;
                 Ovt.sinitStart := Ovt.sinitStart ovtEntry;
                 Ovt.sinitEnd := Ovt.sinitEnd ovtEntry;
                 Ovt.fileID := Ovt.fileID ovtEntry;
                 Ovt.compressed := 0;
                 Ovt.flag := 0 |}.
Proof.
  intros Hfind Hmode Hov Hsz Hram Hra Hbss Hspace Hbin Hdata Hnbss Hauto
         Hmax Hfit.
  destruct (overlayAndEntry_Ok _ _ _ _ _ _ Hov) as (Hl & He & _).
  pose proof (find_some _ _ Hfind) as [_ Hdest].
  apply Z.eqb_eq in Hdest.
  set (buf := bin_data (ov_bin bin)) in *.
  set (b := Z.to_nat (Ovt.bssSize ovtEntry)).
  set (code := newcodeBytes newcode (autogenDataOf dest pm1)).
  assert (Hcode : List.length code = Z.to_nat (binSize newcode)).
  { subst code. unfold newcodeBytes.
    rewrite List.length_app, length_take. lia. }
  assert (Hbuf :
            writeNewcode newcode (m_autogenDataInfoForDest pm1 !! dest)
              (Z.to_nat (Z.of_nat (List.length buf) + Ovt.bssSize ovtEntry))
              (splice (Z.to_nat (Z.of_nat (List.length buf)))
                 (repeat 0 (Z.to_nat (Ovt.bssSize ovtEntry)))
                 (resize
                    (Z.to_nat
                       (wrap_size_t
                          (Z.of_nat (List.length buf) + Ovt.bssSize ovtEntry
                           + binSize newcode)))
                    buf))
            = buf ++ repeat 0 b ++ code).
  { rewrite wrap_size_t_small by lia.
    replace (Z.to_nat (Z.of_nat (List.length buf) + Ovt.bssSize ovtEntry
                       + binSize newcode))
      with (List.length buf + b + Z.to_nat (binSize newcode))%nat
      by (subst b; lia).
    replace (Z.to_nat (Z.of_nat (List.length buf) + Ovt.bssSize ovtEntry))
      with (List.length buf + b)%nat by (subst b; lia).
    rewrite Nat2Z.id.
    apply writeNewcode_append; [exact Hdata | lia | exact Hauto]. }
  eexists _, (set_ov_data (buf ++ repeat 0 b ++ code) bin),
    (add32 (add32 (Ovt.ramAddress ovtEntry) (Ovt.ramSize ovtEntry))
           (Ovt.bssSize ovtEntry)).
  split.
  { unfold installNewcode. rewrite Hfind, Hmode, Hov. unfold installAppend.
    fold buf.
    rewrite (wrap_size_t_small (BuildTarget.length region)) by lia.
    rewrite (wrap_size_t_small (_ + _ + _ + _)) by lia.
    destruct (Z.ltb_spec (BuildTarget.length region)
                (Z.of_nat (List.length buf) + Ovt.bssSize ovtEntry
                 + binSize newcode + bssSize newcode)); [lia|].
    destruct (Z.ltb_spec 0 (binSize newcode)); [|lia].
    rewrite Hbuf. reflexivity. }
  split.
  { unfold putOverlay. cbn. rewrite lookup_alter_eq, Hl. reflexivity. }
  split; [reflexivity|].
  split.
  { unfold newcodeAddrOfRegion. rewrite Hmode, Hdest. unfold ovtEntryOf.
    rewrite He. reflexivity. }
  split.
  { unfold CodeBin_readBytes, CodeBin_offset. cbn [set_ov_data set_ov_bin
      ov_bin bin_data bin_ramAddress]. rewrite Hram.
    assert (Hoff : sub32 (add32 (add32 (Ovt.ramAddress ovtEntry)
                                       (Ovt.ramSize ovtEntry))
                                (Ovt.bssSize ovtEntry))
                         (Ovt.ramAddress ovtEntry)
                   = Ovt.ramSize ovtEntry + Ovt.bssSize ovtEntry).
    { unfold sub32, add32, wrap32.
      rewrite (Z.mod_small (Ovt.ramAddress ovtEntry + Ovt.ramSize ovtEntry))
        by lia.
      rewrite (Z.mod_small (Ovt.ramAddress ovtEntry + Ovt.ramSize ovtEntry
                            + Ovt.bssSize ovtEntry)) by lia.
      rewrite Z.mod_small by lia. lia. }
    rewrite Hoff.
    rewrite !List.length_app, repeat_length, Hcode.
    destruct (Z.leb_spec
                (Ovt.ramSize ovtEntry + Ovt.bssSize ovtEntry
                 + Z.of_nat (Z.to_nat (binSize newcode)))
                (Z.of_nat (List.length buf
                           + (b + Z.to_nat (binSize newcode)))));
      [|subst b; lia].
    cbn [mbind Result_bind]. f_equal.
    replace (Z.to_nat (Ovt.ramSize ovtEntry + Ovt.bssSize ovtEntry))
      with (List.length (buf ++ repeat 0 b))
      by (rewrite List.length_app, repeat_length; subst b; lia).
    rewrite (app_assoc buf), drop_app_length.
    apply take_ge. lia. }
  unfold putOverlay. cbn.
  rewrite list_lookup_insert_eq by (eapply lookup_lt_Some; exact He).
  f_equal. f_equal.
  - rewrite wrap_size_t_small by lia. unfold wrap32.
    rewrite Z.mod_small by lia. lia.
  - unfold wrap32. apply Z.mod_small. lia.
Qed.

(** The append scenario: 16 bytes of data and 4 of BSS, 8 bytes of new
    code of which the last 4 are autogen data. *)
Lemma installNewcode_append_witness :
  exists pm' bin',
    installNewcode Scenario.identity [AppendScenario.region] 0x02100014 3
                   AppendScenario.newcode AppendScenario.pm = inr pm'
    /\ m_loadedOverlays pm' !! 3%N = Some bin'
    /\ bin_data (ov_bin bin')
       = repeat 0x11 16 ++ [0; 0; 0; 0]
         ++ [1; 2; 3; 4; 0xAA; 0xBB; 0xCC; 0xDD]
    /\ CodeBin_readBytes (ov_bin bin') 0x02100014 8
       = Ok [1; 2; 3; 4; 0xAA; 0xBB; 0xCC; 0xDD]
    /\ (Ovt.ramSize <$> m_ovtEntries pm' !! 3%nat) = Some 28
    /\ (Ovt.bssSize <$> m_ovtEntries pm' !! 3%nat) = Some 8.
Proof.
  destruct (overlayAndEntry Scenario.identity 3 AppendScenario.pm)
    as [[[bin ovtEntry] pm1]|e] eqn:Hov; [|vm_compute in Hov; discriminate].
  assert (Hval := Hov). vm_compute in Hval. injection Hval as <- <- <-.
  destruct (installNewcode_append Scenario.identity [AppendScenario.region]
              0x02100014 3 AppendScenario.newcode AppendScenario.pm
              AppendScenario.region _ _ _ eq_refl eq_refl Hov)
    as (pm' & bin' & addr & Hpm & Hl & Hdat & Haddr & Hrd & He).
  1-11: vm_compute;
    first [reflexivity | discriminate | split; [discriminate | reflexivity]].
  exists pm', bin'.
  vm_compute in Haddr. injection Haddr as <-.
  split; [exact Hpm|]. split; [exact Hl|]. split; [exact Hdat|].
  split; [exact Hrd|].
  change (N.to_nat (size_t_of_int 3)) with 3%nat in He.
  rewrite He. split; reflexivity.
Defined.

Section ReplaceFacts.

Lemma length_resize n (buf : list Z) : List.length (resize n buf) = n.
Proof.
  unfold resize. rewrite List.length_app, length_take, repeat_length. lia.
Qed.

Lemma writeNewcode_replace newcode info (buf : list Z) :
  let autogenData := match info with Some i => data i | None => [] end in
  Z.of_nat (List.length (binData newcode)) = binSize newcode ->
  binSize newcode < 2 ^ 64 ->
  Z.of_nat (List.length autogenData) <= binSize newcode ->
  writeNewcode newcode info 0 (resize (Z.to_nat (binSize newcode)) buf)
  = newcodeBytes newcode autogenData.
Proof.
  cbv zeta. intros Hlen Hmax Hfit. unfold writeNewcode, newcodeBytes.
  set (autogen := match info with Some i => data i | None => [] end) in *.
  rewrite wrap_size_t_small by lia.
  replace (Z.to_nat (binSize newcode - Z.of_nat (List.length autogen)))
    with (Z.to_nat (binSize newcode) - List.length autogen)%nat by lia.
  set (code := take (Z.to_nat (binSize newcode) - List.length autogen)
                    (binData newcode)).
  assert (Hcode : List.length code
                  = (Z.to_nat (binSize newcode) - List.length autogen)%nat)
    by (subst code; rewrite length_take; lia).
  rewrite <- Hcode.
  set (X := resize (Z.to_nat (binSize newcode)) buf).
  assert (HX : List.length X = (List.length code + List.length autogen)%nat)
    by (subst X; rewrite length_resize; lia).
  assert (H1 : splice 0 code X = code ++ drop (List.length code) X).
  { unfold splice. rewrite take_0. reflexivity. }
  rewrite H1.
  destruct (Z.eqb_spec (Z.of_nat (List.length autogen)) 0) as [H0 | Hne];
    cbn [negb].
  - rewrite drop_ge by lia. destruct autogen; [reflexivity | discriminate].
  - unfold splice. cbn [Nat.add].
    rewrite take_app_length.
    rewrite drop_ge; [rewrite app_nil_r; reflexivity|].
    rewrite List.length_app, length_drop. lia.
Qed.

End ReplaceFacts.

(** X28.  The new code that replaces an overlay.  For the first region of
    the destination, in [Replace] mode, and new code whose linked bytes
    leave room for the autogen data of the destination and which fits the
    length of the region with its BSS: the installation succeeds; the
    buffer of the overlay becomes exactly the new code, with the autogen
    data in its last bytes (nothing of the old overlay is kept); and the
    table entry gets the address of the new code as [ramAddress], its
    sizes, an empty static-initializer range and no compression, and
    keeps its file id. *)
Theorem installNewcode_replace
        (decompress : list Z -> list Z)
        (regions : list BuildTarget.Region) (newcodeAddr dest : Z)
        (newcode : NewcodePatch) (pm : PatchMaker)
        (region : BuildTarget.Region) (bin : OverlayBin)
        (ovtEntry : Ovt.OvtEntry) (pm1 : PatchMaker) :
  List.find (fun r => BuildTarget.destination r =? dest) regions
  = Some region ->
  BuildTarget.mode region = BuildTarget.Replace ->
  overlayAndEntry decompress dest pm = Ok (bin, ovtEntry, pm1) ->
  0 <= binSize newcode < 2 ^ 32 ->
  Z.of_nat (List.length (binData newcode)) = binSize newcode ->
  0 <= bssSize newcode < 2 ^ 32 ->
  Z.of_nat (List.length (autogenDataOf dest pm1)) <= binSize newcode ->
  BuildTarget.length region < 2 ^ 64 ->
  binSize newcode + bssSize newcode <= BuildTarget.length region ->
  exists pm' bin',
    installNewcode decompress regions newcodeAddr dest newcode pm = inr pm'
    /\ m_loadedOverlays pm' !! size_t_of_int dest = Some bin'
    /\ bin_data (ov_bin bin')
       = newcodeBytes newcode (autogenDataOf dest pm1)
    /\ List.length (bin_data (ov_bin bin')) = Z.to_nat (binSize newcode)
    /\ m_ovtEntries pm' !! N.to_nat (size_t_of_int dest)
       = Some {| Ovt.ramAddress := newcodeAddr;
                 Ovt.ramSize := binSize newcode;
                 Ovt.bssSize := bssSize newcode;
                 Ovt.sinitStart := 0;
                 Ovt.sinitEnd := 0;
                 Ovt.fileID := Ovt.fileID ovtEntry;
                 Ovt.compressed := 0;
                 Ovt.flag := 0 |}.
Proof.
  intros Hfind Hmode Hov Hbin Hdata Hnbss Hauto Hmax Hfit.
  destruct (overlayAndEntry_Ok _ _ _ _ _ _ Hov) as (Hl & He & _).
  set (code := newcodeBytes newcode (autogenDataOf dest pm1)).
  assert (Hcode : List.length code = Z.to_nat (binSize newcode)).
  { subst code. unfold newcodeBytes.
    rewrite List.length_app, length_take. lia. }
  assert (Hbuf :
            (if binSize newcode =? 0 then []
             else writeNewcode newcode (m_autogenDataInfoForDest pm1 !! dest)
                    0 (resize (Z.to_nat (binSize newcode))
                              (bin_data (ov_bin bin))))
            = code).
  { destruct (Z.eqb_spec (binSize newcode) 0) as [H0 | Hne].
    - rewrite H0 in Hcode. destruct code; [reflexivity | discriminate].
    - apply writeNewcode_replace; [exact Hdata | lia | exact Hauto]. }
  eexists _, (set_ov_data code bin).
  split.
  { unfold installNewcode. rewrite Hfind, Hmode, Hov. unfold installReplace.
    rewrite (wrap_size_t_small (BuildTarget.length region)) by lia.
    rewrite (wrap_size_t_small (_ + _)) by lia.
    destruct (Z.ltb_spec (BuildTarget.length region)
                (binSize newcode + bssSize newcode)); [lia|].
    rewrite Hbuf. reflexivity. }
  split.
  { unfold putOverlay. cbn. rewrite lookup_alter_eq, Hl. reflexivity. }
  split; [reflexivity|].
  split; [exact Hcode|].
  unfold putOverlay. cbn.
  rewrite list_lookup_insert_eq by (eapply lookup_lt_Some; exact He).
  f_equal. f_equal; unfold wrap32; apply Z.mod_small; lia.
Qed.

(** The new code of the append scenario in a region that replaces
    overlay 3. *)
Lemma installNewcode_replace_witness :
  exists pm' bin',
    installNewcode Scenario.identity [ReplaceScenario.region] 0x02100000 3
                   AppendScenario.newcode AppendScenario.pm = inr pm'
    /\ m_loadedOverlays pm' !! 3%N = Some bin'
    /\ bin_data (ov_bin bin') = [1; 2; 3; 4; 0xAA; 0xBB; 0xCC; 0xDD]
    /\ (Ovt.ramSize <$> m_ovtEntries pm' !! 3%nat) = Some 8
    /\ (Ovt.bssSize <$> m_ovtEntries pm' !! 3%nat) = Some 8.
Proof.
  destruct (overlayAndEntry Scenario.identity 3 AppendScenario.pm)
    as [[[bin ovtEntry] pm1]|e] eqn:Hov; [|vm_compute in Hov; discriminate].
  assert (Hval := Hov). vm_compute in Hval. injection Hval as <- <- <-.
  destruct (installNewcode_replace Scenario.identity [ReplaceScenario.region]
              0x02100000 3 AppendScenario.newcode AppendScenario.pm
              ReplaceScenario.region _ _ _ eq_refl eq_refl Hov)
    as (pm' & bin' & Hpm & Hl & Hdat & _ & He).
  1-6: vm_compute;
    first [reflexivity | discriminate | split; [discriminate | reflexivity]].
  exists pm', bin'.
  split; [exact Hpm|]. split; [exact Hl|]. split; [exact Hdat|].
  change (N.to_nat (size_t_of_int 3)) with 3%nat in He.
  rewrite He. split; reflexivity.
Defined.

(** X29.  An installed overlay fits its region.  For regions of a
    length that is not negative, whenever the installation of the new
    code of an overlay succeeds, with 32-bit sizes and a buffer that
    holds the [ramSize] bytes of the table entry, the table entry of the
    overlay afterwards describes an overlay of at most the length of the
    region, [ramSize + bssSize <= length], not compressed; a region in
    [Create] mode and a destination without a region are refused. *)
Theorem installNewcode_within_region
        (decompress : list Z -> list Z)
        (regions : list BuildTarget.Region) (newcodeAddr dest : Z)
        (newcode : NewcodePatch) (pm pm' : PatchMaker) :
  installNewcode decompress regions newcodeAddr dest newcode pm = inr pm' ->
  Forall (fun r => 0 <= BuildTarget.length r < 2 ^ 64) regions ->
  0 <= binSize newcode < 2 ^ 32 -> 0 <= bssSize newcode < 2 ^ 32 ->
  (forall bin ovtEntry pm1,
      overlayAndEntry decompress dest pm = Ok (bin, ovtEntry, pm1) ->
      0 <= Ovt.bssSize ovtEntry < 2 ^ 32
      /\ Z.of_nat (List.length (bin_data (ov_bin bin)))
         = Ovt.ramSize ovtEntry
      /\ Ovt.ramSize ovtEntry < 2 ^ 32) ->
  exists region ovtEntry',
    List.find (fun r => BuildTarget.destination r =? dest) regions
    = Some region
    /\ BuildTarget.mode region <> BuildTarget.Create
    /\ m_ovtEntries pm' !! N.to_nat (size_t_of_int dest) = Some ovtEntry'
    /\ 0 <= Ovt.ramSize ovtEntry' + Ovt.bssSize ovtEntry'
       <= BuildTarget.length region
    /\ Ovt.compressed ovtEntry' = 0
    /\ Ovt.flag ovtEntry' = 0.
Proof.
  intros H Hlen Hbin Hbss Htable. unfold installNewcode in H.
  destruct (List.find _ regions) as [region|] eqn:Hfind; [|discriminate].
  exists region.
  assert (Hregion : 0 <= BuildTarget.length region < 2 ^ 64).
  { apply find_some in Hfind as [Hin _].
    rewrite List.Forall_forall in Hlen. apply Hlen. exact Hin. }
  assert (Hw : forall z, 0 <= z -> 0 <= wrap32 z <= z).
  { intros z Hz. unfold wrap32.
    pose proof (Z.mod_pos_bound z (2 ^ 32) ltac:(lia)).
    pose proof (Z.mod_le z (2 ^ 32) Hz ltac:(lia)). lia. }
  destruct (BuildTarget.mode region) eqn:Hmode; [| |discriminate].
  - destruct (overlayAndEntry decompress dest pm) as [[[bin e] pm1]|] eqn:Hov;
      [|discriminate].
    destruct (Htable _ _ _ eq_refl) as (Heb & Hsz & Hrs).
    destruct (overlayAndEntry_Ok _ _ _ _ _ _ Hov) as (_ & He & _).
    unfold installAppend in H. rewrite Hsz in H.
    rewrite (wrap_size_t_small (BuildTarget.length region)) in H
      by exact Hregion.
    rewrite (wrap_size_t_small (_ + _ + _ + _)) in H by lia.
    destruct (Z.ltb_spec (BuildTarget.length region)
                (Ovt.ramSize e + Ovt.bssSize e + binSize newcode
                 + bssSize newcode)); [discriminate|].
    destruct (0 <? binSize newcode); injection H as <-;
      eexists; (split; [reflexivity|]); (split; [discriminate|]);
      unfold putOverlay; cbn;
      rewrite list_lookup_insert_eq by (eapply lookup_lt_Some; exact He);
      (split; [reflexivity|]); cbn; (split; [|split; reflexivity]).
    + rewrite wrap_size_t_small by lia.
      pose proof (Hw (Ovt.ramSize e + Ovt.bssSize e + binSize newcode)
                     ltac:(lia)).
      pose proof (Hw (bssSize newcode) ltac:(lia)). lia.
    + pose proof (Hw (Ovt.bssSize e + bssSize newcode) ltac:(lia)). lia.
  - destruct (overlayAndEntry decompress dest pm) as [[[bin e] pm1]|] eqn:Hov;
      [|discriminate].
    destruct (overlayAndEntry_Ok _ _ _ _ _ _ Hov) as (_ & He & _).
    unfold installReplace in H.
    rewrite (wrap_size_t_small (BuildTarget.length region)) in H
      by exact Hregion.
    rewrite (wrap_size_t_small (_ + _)) in H by lia.
    destruct (Z.ltb_spec (BuildTarget.length region)
                (binSize newcode + bssSize newcode)); [discriminate|].
    injection H as <-.
    eexists. split; [reflexivity|]. split; [discriminate|].
    unfold putOverlay. cbn.
    rewrite list_lookup_insert_eq by (eapply lookup_lt_Some; exact He).
    split; [reflexivity|]. cbn. split; [|split; reflexivity].
    pose proof (Hw (binSize newcode) ltac:(lia)).
    pose proof (Hw (bssSize newcode) ltac:(lia)). lia.
Qed.

(** The append scenario: the table entry afterwards has 28 bytes of data
    and 8 of BSS, in a region of 256 bytes. *)
Lemma installNewcode_within_region_witness :
  exists pm' region ovtEntry',
    installNewcode Scenario.identity [AppendScenario.region] 0x02100014 3
                   AppendScenario.newcode AppendScenario.pm = inr pm'
    /\ List.find (fun r => BuildTarget.destination r =? 3)
                 [AppendScenario.region] = Some region
    /\ m_ovtEntries pm' !! 3%nat = Some ovtEntry'
    /\ 0 <= Ovt.ramSize ovtEntry' + Ovt.bssSize ovtEntry'
       <= BuildTarget.length region
    /\ BuildTarget.length region = 0x100.
Proof.
  destruct (installNewcode Scenario.identity [AppendScenario.region]
              0x02100014 3 AppendScenario.newcode AppendScenario.pm)
    as [e|pm'] eqn:H; [vm_compute in H; discriminate|].
  destruct (installNewcode_within_region _ _ _ _ _ _ _ H)
    as (region & e' & Hfind & _ & He & Hle & _).
  - repeat constructor; vm_compute; first [discriminate | reflexivity].
  - vm_compute. split; [discriminate | reflexivity].
  - vm_compute. split; [discriminate | reflexivity].
  - intros bin ovtEntry pm1 Hov. vm_compute in Hov.
    injection Hov as <- <- <-. vm_compute.
    repeat split; first [discriminate | reflexivity].
  - exists pm', region, e'.
    split; [reflexivity|]. split; [exact Hfind|]. split; [exact He|].
    split; [exact Hle|].
    cbn in Hfind. injection Hfind as <-. reflexivity.
Defined.

(** ** The post-link resolver: set-style records *)

Section ResolverSet.

Variable stoi : string -> option Z.

Lemma resolveSection_plain section st st' (i : nat) p :
  resolveSection stoi section st = Ok st' ->
  snd st !! i = Some p ->
  (patchType p =? PatchType.Over)%N = false ->
  Str.starts_with ".ncp_set" (sh_name section) = false ->
  snd st' !! i = Some p.
Proof.
  unfold resolveSection. intros H Hp Hover Hname. rewrite Hname in H.
  injection H as <-. cbn [snd].
  rewrite list_lookup_fmap, Hp. cbn. unfold resolveOver.
  rewrite Hover. reflexivity.
Qed.

Lemma forEach_resolveSection_plain sections st st' (i : nat) p :
  forEach (resolveSection stoi) sections st = Ok st' ->
  snd st !! i = Some p ->
  (patchType p =? PatchType.Over)%N = false ->
  Forall (fun s => Str.starts_with ".ncp_set" (sh_name s) = false)
         sections ->
  snd st' !! i = Some p.
Proof.
  intros H Hp Hover Hall. revert st H Hp.
  induction Hall as [|sec secs Hsec _ IH]; intros st; cbn [forEach].
  - intros [= <-] H. exact H.
  - destruct (resolveSection stoi sec st) as [st1|] eqn:H1; [|discriminate].
    cbn [mbind Result_bind]. intros H2 Hp.
    apply (IH st1 H2).
    eapply resolveSection_plain; eassumption.
Qed.

Lemma resolveSection_set section st st' (i : nat) p :
  resolveSection stoi section st = Ok st' ->
  snd st !! i = Some p ->
  (patchType p =? PatchType.Over)%N = false ->
  isNcpSet p = true ->
  Str.starts_with ".ncp_set" (sh_name section) = true ->
  destOfName stoi 8 (sh_name section) <> None ->
  snd st' !! i
  = Some (set_resolved
            (le_value
               (take 4 (drop (Z.to_nat (sub32 (srcAddress p)
                                              (sh_addr section)))
                             (sh_data section))))
            (sectionIdx p) (symbol p) p).
Proof.
  unfold resolveSection. intros H Hp Hover Hset Hname Hdest.
  rewrite Hname in H.
  assert (Hmap : List.map (resolveOver (fst st) section) (snd st) !! i
                 = Some p).
  { rewrite list_lookup_fmap, Hp. cbn. unfold resolveOver.
    rewrite Hover. reflexivity. }
  destruct (destOfName stoi 8 (sh_name section)); [|contradiction].
  destruct (mapResult _ _) as [ps|] eqn:Hps; [|discriminate].
  cbn [mbind Result_bind] in H. injection H as <-. cbn [snd].
  destruct (mapResult_lookup _ _ _ _ _ Hps Hmap) as (q & Hq & Hi).
  unfold readNcpSet in Hq. rewrite Hset in Hq.
  destruct (_ <=? _); [|discriminate].
  injection Hq as <-. exact Hi.
Qed.

End ResolverSet.

(** X30.  The address the resolver gives a set-style record.  A
    set-style record is first matched by name like any other record,
    which gives it the value of its symbol, the address of a word of the
    [.ncp_set] section.  When the resolver succeeds and the linked ELF
    has exactly one section whose name starts with [.ncp_set] (with a
    valid overlay suffix, if any), the record leaves the resolver with
    the 32-bit little-endian word stored in that section at the address
    of its symbol as its source address. *)
Theorem gatherInfoFromElf_set_address
        (stoi : string -> option Z)
        (patchInfo patchInfo' : list GenericPatchInfo) (pm pm1 : PatchMaker)
        (i : nat) (p : GenericPatchInfo)
        (pre post : list Elf32_Sym) (sym : Elf32_Sym)
        (before after : list Elf32_Shdr) (section : Elf32_Shdr) :
  gatherInfoFromElf stoi patchInfo pm = Ok (patchInfo', pm1) ->
  patchInfo !! i = Some p ->
  patchType p <> PatchType.Over -> isNcpSet p = true ->
  elf_symbols (m_elf pm) = pre ++ sym :: post ->
  Forall (fun s => st_name s <> labelName p) pre ->
  st_name sym = labelName p ->
  st_shndx sym <> -1 ->
  Forall (fun s => st_name s <> Str.substr_from 1 (labelName p)) post ->
  elf_sections (m_elf pm) = before ++ section :: after ->
  Forall (fun s => Str.starts_with ".ncp_set" (sh_name s) = false) before ->
  Str.starts_with ".ncp_set" (sh_name section) = true ->
  destOfName stoi 8 (sh_name section) <> None ->
  Forall (fun s => Str.starts_with ".ncp_set" (sh_name s) = false) after ->
  patchInfo' !! i
  = Some (set_resolved
            (le_value
               (take 4 (drop (Z.to_nat (sub32 (st_value sym)
                                              (sh_addr section)))
                             (sh_data section))))
            (st_shndx sym) (labelName p) p).
Proof.
  intros H Hp Hover Hset Hsyms Hpre Hsym Hshndx Hpost
         Hsecs Hbefore Hname Hdest Hafter.
  unfold gatherInfoFromElf in H.
  destruct (forEach (resolveSymbols stoi) _ _) as [st|] eqn:H1;
    [|discriminate].
  cbn [mbind Result_bind] in H.
  destruct (forEach (resolveSection stoi) _ _) as [st'|] eqn:H2;
    [|discriminate].
  cbn [mbind Result_bind] in H.
  destruct (snd (checkOverlappingPatches (snd st'))); [|discriminate].
  cbn [mbind Result_bind] in H. injection H as <- _.
  destruct (forEach_resolveSymbols_lookup _ _ _ _ i p H1 Hp)
    as (q & Hq & Hi).
  rewrite Hsyms in Hq.
  apply forEach_resolveSymbol_first in Hq; try assumption. subst q.
  assert (Hover' : (patchType p =? PatchType.Over)%N = false)
    by (apply N.eqb_neq; exact Hover).
  rewrite Hsecs, forEach_app in H2.
  destruct (forEach (resolveSection stoi) before _) as [st1|] eqn:Hb;
    [|discriminate].
  cbn [mbind Result_bind forEach] in H2.
  destruct (resolveSection stoi section st1) as [st2|] eqn:Hs;
    [|discriminate].
  cbn [mbind Result_bind] in H2.
  eapply forEach_resolveSection_plain in Hb;
    [|exact Hi | exact Hover' | exact Hbefore].
  eapply resolveSection_set in Hs;
    [|exact Hb | exact Hover' | exact Hset | exact Hname | exact Hdest].
  eapply forEach_resolveSection_plain in H2;
    [|exact Hs | exact Hover' | exact Hafter].
  exact H2.
Qed.

(** A set-style hook: its symbol is the word at [0x02040004] of the
    [.ncp_set] section, which holds [0x02030000]. *)
Lemma gatherInfoFromElf_set_address_witness :
  exists ps' pm1,
    gatherInfoFromElf AutogenScenario.no_stoi [SetScenario.sethook]
                      SetScenario.pm = Ok (ps', pm1)
    /\ (srcAddress <$> ps' !! 0%nat) = Some 0x02030000.
Proof.
  destruct (gatherInfoFromElf AutogenScenario.no_stoi [SetScenario.sethook]
                              SetScenario.pm) as [[ps' pm1]|e] eqn:H;
    [|vm_compute in H; discriminate].
  exists ps', pm1. split; [reflexivity|].
  rewrite (gatherInfoFromElf_set_address
             AutogenScenario.no_stoi _ ps' SetScenario.pm pm1 0%nat
             SetScenario.sethook
             [] [] SetScenario.label
             [SetScenario.text] [] SetScenario.ncp_set
             H);
    try reflexivity; try discriminate; repeat constructor.
Defined.
